(** * A shallow embedding of the RFC 7951 data model of danos/encoding

    The Go package [data] (values, arrays, objects, instance identifiers,
    trees and edit operations) is embedded as executable Rocq functions.

    Conventions of the embedding:
    - A Go [string] is a Rocq [string].  Its characters are read as the
      runes U+0000..U+00FF; all delimiters the code looks for are ASCII, so
      byte positions and rune positions agree wherever the code slices.
    - A panic is the [Panic] constructor of [result], carrying the text
      that Go would report.
    - A [*Value] that may be the nil pointer is an [option Value]; an
      [interface{}] slot of a vector is an [option Value] as well, where
      [None] is the nil interface.
    - Fixed-width integers are [Z] with the wrap-around written out. *)

From Stdlib Require Import ZArith String Ascii List Bool Lia Arith Permutation.
From Stdlib Require Import Floats.PrimFloat.
Import ListNotations.

Local Open Scope string_scope.
Local Open Scope Z_scope.

(** ** Panics *)

Inductive result (A : Type) : Type :=
| Ok (a : A)
| Panic (msg : string).
Arguments Ok {A} a.
Arguments Panic {A} msg.

Definition bind {A B : Type} (r : result A) (k : A -> result B) : result B :=
  match r with
  | Ok a => k a
  | Panic m => Panic m
  end.

Notation "'let*' x ':=' r 'in' k" := (bind r (fun x => k))
  (at level 10, x pattern, r at level 100, k at level 200).

Definition is_ok {A : Type} (r : result A) : bool :=
  match r with Ok _ => true | Panic _ => false end.

Definition mapM {A B : Type} (f : A -> result B) : list A -> result (list B) :=
  fix go (l : list A) : result (list B) :=
    match l with
    | [] => Ok []
    | x :: l' => let* y := f x in let* ys := go l' in Ok (y :: ys)
    end.

(** ** The parts of Go's [strings], [strconv] and [unicode] the package uses *)

Module Go.

Definition code (c : ascii) : Z := Z.of_nat (nat_of_ascii c).

Definition between (lo hi : ascii) (c : ascii) : bool :=
  (code lo <=? code c) && (code c <=? code hi).

(** [unicode.IsDigit] on Latin-1 is ['0' <= r <= '9']. *)
Definition IsDigit (c : ascii) : bool := between "0" "9" c.

(** [unicode.IsLetter] on Latin-1 reads the [pLmask] bit of Go's Latin-1
    property table: A-Z, a-z, U+00AA, U+00B5, U+00BA, U+00C0..U+00D6,
    U+00D8..U+00F6 and U+00F8..U+00FF. *)
Definition IsLetter (c : ascii) : bool :=
  let n := code c in
  ((65 <=? n) && (n <=? 90)) || ((97 <=? n) && (n <=? 122))
  || (n =? 170) || (n =? 181) || (n =? 186)
  || ((192 <=? n) && (n <=? 214)) || ((216 <=? n) && (n <=? 246))
  || ((248 <=? n) && (n <=? 255)).

(** The letters of the ABNF rule [ALPHA = %x41-5A / %x61-7A]. *)
Definition IsALPHA (c : ascii) : bool := between "A" "Z" c || between "a" "z" c.

(** [unicode.ToUpper]; U+00B5 and U+00FF have upper-case forms beyond
    U+00FF and are left in place, which no comparison below can observe
    because it is made against ASCII text. *)
Definition ToUpperRune (c : ascii) : ascii :=
  let n := code c in
  if ((97 <=? n) && (n <=? 122))
     || ((224 <=? n) && (n <=? 246)) || ((248 <=? n) && (n <=? 254))
  then ascii_of_nat (nat_of_ascii c - 32) else c.

Fixpoint ToUpper (s : string) : string :=
  match s with
  | EmptyString => EmptyString
  | String c s' => String (ToUpperRune c) (ToUpper s')
  end.

Definition len (s : string) : Z := Z.of_nat (String.length s).

(** [s[:n]] and [s[n:]] for [0 <= n <= len(s)]. *)
Fixpoint take (n : nat) (s : string) : string :=
  match n, s with
  | S n', String c s' => String c (take n' s')
  | _, _ => EmptyString
  end.

Fixpoint drop (n : nat) (s : string) : string :=
  match n, s with
  | S n', String _ s' => drop n' s'
  | _, _ => s
  end.

Fixpoint ContainsRune (s : string) (r : ascii) : bool :=
  match s with
  | EmptyString => false
  | String c s' => Ascii.eqb c r || ContainsRune s' r
  end.

(** [strings.IndexRune], as a position counted from [0]; [None] is [-1]. *)
Fixpoint IndexRune (s : string) (r : ascii) : option nat :=
  match s with
  | EmptyString => None
  | String c s' =>
      if Ascii.eqb c r then Some 0%nat
      else match IndexRune s' r with
           | Some i => Some (S i)
           | None => None
           end
  end.

(** [strings.SplitN(s, sep, 2)] for a one-character separator: one part
    when the separator is absent, otherwise the text before and after
    its first occurrence. *)
Definition SplitN2 (s : string) (sep : ascii) : list string :=
  match IndexRune s sep with
  | None => [s]
  | Some i => [take i s; drop (S i) s]
  end.

Fixpoint TrimLeft (s : string) (cutset : string) : string :=
  match s with
  | EmptyString => EmptyString
  | String c s' => if ContainsRune cutset c then TrimLeft s' cutset else s
  end.

Fixpoint TrimRight (s : string) (cutset : string) : string :=
  match s with
  | EmptyString => EmptyString
  | String c s' =>
      match TrimRight s' cutset with
      | EmptyString => if ContainsRune cutset c then EmptyString else String c EmptyString
      | t => String c t
      end
  end.

Definition Trim (s : string) (cutset : string) : string :=
  TrimRight (TrimLeft s cutset) cutset.

Fixpoint last_rune (s : string) : option ascii :=
  match s with
  | EmptyString => None
  | String c EmptyString => Some c
  | String _ s' => last_rune s'
  end.

Definition first_rune (s : string) : option ascii :=
  match s with
  | EmptyString => None
  | String c _ => Some c
  end.

(** *** strconv: integers *)

(** The value of a run of decimal digits; [None] at the first character
    that is not a digit (Go's [ErrSyntax]). *)
Fixpoint digits_value (acc : Z) (s : string) : option Z :=
  match s with
  | EmptyString => Some acc
  | String c s' =>
      if IsDigit c then digits_value (10 * acc + (code c - 48)) s' else None
  end.

(** [strconv.ParseUint(s, 10, bitSize)]; [None] stands for a non-nil
    error ([ErrSyntax] on empty or non-digit text, [ErrRange] beyond
    [2^bitSize - 1]). *)
Definition ParseUint (s : string) (bitSize : Z) : option Z :=
  match s with
  | EmptyString => None
  | _ =>
      match digits_value 0 s with
      | Some n => if n <? 2 ^ bitSize then Some n else None
      | None => None
      end
  end.

(** [strconv.ParseInt(s, 10, bitSize)]: an optional sign, then
    [ParseUint], then the signed range check against
    [cutoff = 1 << (bitSize-1)]. *)
Definition ParseInt (s : string) (bitSize : Z) : option Z :=
  match s with
  | EmptyString => None
  | String c s' =>
      let neg := Ascii.eqb c "-" in
      let body := if Ascii.eqb c "+" || neg then s' else s in
      match body with
      | EmptyString => None
      | _ =>
          match digits_value 0 body with
          | None => None
          | Some un =>
              let cutoff := 2 ^ (bitSize - 1) in
              if neg then (if cutoff <? un then None else Some (- un))
              else (if cutoff <=? un then None else Some un)
          end
      end
  end.

Definition digit_rune (d : Z) : ascii := ascii_of_nat (Z.to_nat (48 + d)).

(** The decimal digits of [n >= 0], most significant first, prepended
    to [acc]; [fuel] bounds the number of digits. *)
Fixpoint format_digits (fuel : nat) (n : Z) (acc : string) : string :=
  match fuel with
  | O => acc
  | S fuel' =>
      let acc' := String (digit_rune (n mod 10)) acc in
      if n <? 10 then acc' else format_digits fuel' (n / 10) acc'
  end.

(** [strconv.FormatUint(n, 10)]. *)
Definition FormatUint (n : Z) : string :=
  format_digits (S (Z.to_nat (Z.log2 n))) n EmptyString.

(** [strconv.FormatInt(n, 10)]. *)
Definition FormatInt (n : Z) : string :=
  if n <? 0 then String "-" (FormatUint (- n)) else FormatUint n.

Definition FormatBool (b : bool) : string := if b then "true" else "false".

(** *** strconv: quoting *)

(** [unicode.IsPrint] on Latin-1. *)
Definition IsPrint (c : ascii) : bool :=
  let n := code c in
  ((32 <=? n) && (n <? 127)) || ((161 <=? n) && (n <=? 255) && negb (n =? 173)).

Definition hex_rune (d : Z) : ascii :=
  if d <? 10 then ascii_of_nat (Z.to_nat (48 + d))
  else ascii_of_nat (Z.to_nat (87 + d)).

Definition unhex (c : ascii) : option Z :=
  let n := code c in
  if (48 <=? n) && (n <=? 57) then Some (n - 48)
  else if (97 <=? n) && (n <=? 102) then Some (n - 87)
  else if (65 <=? n) && (n <=? 70) then Some (n - 55)
  else None.

Definition rune_of (n : Z) : ascii := ascii_of_nat (Z.to_nat n).

Definition DQUOTE : ascii := "034"%char.
Definition SQUOTE : ascii := "'"%char.

(** [appendEscapedRune] with the double quote as [quote], as
    [strconv.Quote] calls it. *)
Definition escape_rune (c : ascii) : string :=
  let n := code c in
  if (n =? 34) || (n =? 92) then String "\" (String c EmptyString)
  else if IsPrint c then String c EmptyString
  else if n =? 7 then "\a"
  else if n =? 8 then "\b"
  else if n =? 12 then "\f"
  else if n =? 10 then "\n"
  else if n =? 13 then "\r"
  else if n =? 9 then "\t"
  else if n =? 11 then "\v"
  else if (n <? 32) || (n =? 127)
  then String "\" (String "x" (String (hex_rune (n / 16)) (String (hex_rune (n mod 16)) EmptyString)))
  else String "\" (String "u" (String "0" (String "0"
         (String (hex_rune (n / 16)) (String (hex_rune (n mod 16)) EmptyString))))).

Fixpoint escape (s : string) : string :=
  match s with
  | EmptyString => EmptyString
  | String c s' => escape_rune c ++ escape s'
  end.

(** [strconv.Quote]. *)
Definition Quote (s : string) : string :=
  String DQUOTE (escape s ++ String DQUOTE EmptyString).

Definition unhex2 (a b : ascii) : option Z :=
  match unhex a, unhex b with
  | Some x, Some y => Some (16 * x + y)
  | _, _ => None
  end.

Definition unoct (c : ascii) : option Z :=
  let n := code c in
  if (48 <=? n) && (n <=? 55) then Some (n - 48) else None.

(** The body of a double-quoted literal up to and including its closing
    quote, undone one [UnquoteChar] at a time.  Nothing may follow the
    closing quote, and a raw newline is refused.  Escapes that denote a
    rune above U+00FF lie outside the modelled range and are refused. *)
Fixpoint unquote_body (s : string) : option string :=
  match s with
  | EmptyString => None
  | String c rest =>
      let n := code c in
      if n =? 34 then
        match rest with EmptyString => Some EmptyString | _ => None end
      else if n =? 10 then None
      else if negb (n =? 92) then option_map (String c) (unquote_body rest)
      else
        match rest with
        | EmptyString => None
        | String e rest2 =>
            let simple (r : Z) := option_map (String (rune_of r)) (unquote_body rest2) in
            let m := code e in
            if m =? 97 then simple 7
            else if m =? 98 then simple 8
            else if m =? 102 then simple 12
            else if m =? 110 then simple 10
            else if m =? 114 then simple 13
            else if m =? 116 then simple 9
            else if m =? 118 then simple 11
            else if m =? 92 then simple 92
            else if m =? 34 then simple 34
            else if m =? 120 then
              match rest2 with
              | String h1 (String h2 rest3) =>
                  match unhex2 h1 h2 with
                  | Some v => option_map (String (rune_of v)) (unquote_body rest3)
                  | None => None
                  end
              | _ => None
              end
            else if m =? 117 then
              match rest2 with
              | String h1 (String h2 (String h3 (String h4 rest3))) =>
                  match unhex2 h1 h2, unhex2 h3 h4 with
                  | Some 0, Some v => option_map (String (rune_of v)) (unquote_body rest3)
                  | _, _ => None
                  end
              | _ => None
              end
            else
              match unoct e, rest2 with
              | Some o1, String d2 (String d3 rest3) =>
                  match unoct d2, unoct d3 with
                  | Some o2, Some o3 =>
                      let v := 64 * o1 + 8 * o2 + o3 in
                      if 255 <? v then None
                      else option_map (String (rune_of v)) (unquote_body rest3)
                  | _, _ => None
                  end
              | _, _ => None
              end
        end
  end.

(** [strconv.Unquote] on text that opens with a double quote, the only
    kind its caller hands over. *)
Definition Unquote (s : string) : option string :=
  match s with
  | String c rest => if code c =? 34 then unquote_body rest else None
  | EmptyString => None
  end.

End Go.

(** ** Instance identifiers: syntax (instance_id.go) *)

(** [type nodeID struct { prefix, identifier string; prefixInferred bool;
    predicates *predicates }], where a nil [predicates] pointer is [None],
    and [type predicate struct { instanceIDSelector }] over its two
    implementations. *)
Inductive nodeID : Type :=
| NodeID (prefix identifier : string) (prefixInferred : bool)
         (predicates : option (list predicate))
with predicate : Type :=
| posPredicate (pos : Z)
| exprPredicate (node : nodeID) (value : string).

Definition prefix (id : nodeID) : string :=
  match id with NodeID p _ _ _ => p end.
Definition identifier (id : nodeID) : string :=
  match id with NodeID _ i _ _ => i end.
Definition prefixInferred (id : nodeID) : bool :=
  match id with NodeID _ _ b _ => b end.
Definition predicates (id : nodeID) : option (list predicate) :=
  match id with NodeID _ _ _ ps => ps end.

(** [type InstanceID struct { ids []*nodeID }] *)
Record InstanceID : Type := mkInstanceID { ids : list nodeID }.

Definition wsp : string := String " " (String "009" EmptyString).

Definition quoted (s : string) : string :=
  String Go.DQUOTE (s ++ String Go.DQUOTE EmptyString).

Definition snoc (s : string) (c : ascii) : string := s ++ String c EmptyString.

(** The loop of [getNodeIDStrings]: [cur] is [input[first:i]], the flags
    are [inSingleQ] and [inDoubleQ].  The result pairs the pieces with the
    final [inDoubleQ || inSingleQ]. *)
Fixpoint nodeIDStrings_loop (s : string) (inSingleQ inDoubleQ : bool)
         (cur : string) : list string * bool :=
  match s with
  | EmptyString =>
      (match cur with EmptyString => [] | _ => [cur] end,
       inDoubleQ || inSingleQ)
  | String r s' =>
      if Ascii.eqb r Go.SQUOTE then
        nodeIDStrings_loop s' (negb inSingleQ) inDoubleQ (snoc cur r)
      else if Ascii.eqb r Go.DQUOTE then
        nodeIDStrings_loop s' inSingleQ (negb inDoubleQ) (snoc cur r)
      else if Ascii.eqb r "/" then
        if negb inDoubleQ && negb inSingleQ then
          let (out, q) := nodeIDStrings_loop s' inSingleQ inDoubleQ EmptyString in
          (cur :: out, q)
        else nodeIDStrings_loop s' inSingleQ inDoubleQ (snoc cur r)
      else nodeIDStrings_loop s' inSingleQ inDoubleQ (snoc cur r)
  end.

Definition getNodeIDStrings (input : string) : result (list string) :=
  let (out, q) := nodeIDStrings_loop input false false EmptyString in
  if q then Panic "unterminated quote" else Ok out.

(** The loop of [getPredicateStrings]; text after the last closing
    bracket is not appended to [out]. *)
Fixpoint predicateStrings_loop (s : string)
         (inSingleQ inDoubleQ inPredicate : bool) (cur : string)
  : result (list string) :=
  match s with
  | EmptyString =>
      if inDoubleQ || inSingleQ then Panic "unterminated quote"
      else if inPredicate then Panic "unterminated predicate"
      else Ok []
  | String r s' =>
      let cur' := snoc cur r in
      if Ascii.eqb r "[" then
        if negb inDoubleQ && negb inSingleQ then
          if inPredicate then Panic "nested predicates are not allowed"
          else predicateStrings_loop s' inSingleQ inDoubleQ true cur'
        else predicateStrings_loop s' inSingleQ inDoubleQ inPredicate cur'
      else if Ascii.eqb r "]" then
        if negb inDoubleQ && negb inSingleQ then
          let* out := predicateStrings_loop s' inSingleQ inDoubleQ false EmptyString in
          Ok (cur' :: out)
        else predicateStrings_loop s' inSingleQ inDoubleQ inPredicate cur'
      else if Ascii.eqb r Go.SQUOTE then
        predicateStrings_loop s' (negb inSingleQ) inDoubleQ inPredicate cur'
      else if Ascii.eqb r Go.DQUOTE then
        predicateStrings_loop s' inSingleQ (negb inDoubleQ) inPredicate cur'
      else predicateStrings_loop s' inSingleQ inDoubleQ inPredicate cur'
  end.

Definition getPredicateStrings (input : string) : result (list string) :=
  predicateStrings_loop input false false false EmptyString.

Definition isAlphaNumeric (r : ascii) : bool :=
  Ascii.eqb r "_" || Go.IsLetter r || Go.IsDigit r.

(** The [range] loop of [checkIDPart]; [first] says that [i == 0]. *)
Fixpoint checkIDPart_loop (first : bool) (s : string) : bool :=
  match s with
  | EmptyString => true
  | String r s' =>
      (if first then Ascii.eqb r "_" || Go.IsLetter r
       else isAlphaNumeric r || Ascii.eqb r "-" || Ascii.eqb r ".")
      && checkIDPart_loop false s'
  end.

Definition checkIDPart (str : string) : result unit :=
  if (3 <=? Go.len str) && String.eqb (Go.ToUpper (Go.take 3 str)) "XML"
  then Panic ("invalid identifier, not allowed to start with xml: " ++ str)
  else if checkIDPart_loop true str then Ok tt
  else Panic ("invalid node-identifier " ++ str).

Definition out_of_fuel : string := "recursion budget exhausted".

(** [nodeID.parse], [predicates.parse], [predicate.parse],
    [posPredicate.parse] and [exprPredicate.parse].  They call each
    other on ever shorter text; [fuel] counts the nesting of
    [nodeID.parse] calls that remain available. *)
Fixpoint nodeID_parse (fuel : nat) (prefix0 input : string) : result nodeID :=
  match fuel with
  | O => Panic out_of_fuel
  | S fuel' =>
      let exprPredicate_parse (prefix1 input1 : string) : result predicate :=
        match Go.SplitN2 input1 "=" with
        | [lhs; rhs] =>
            let lhs := Go.Trim lhs wsp in
            let rhs := Go.Trim rhs wsp in
            let* node :=
              (if String.eqb lhs "." then Ok (NodeID prefix1 "." true None)
               else nodeID_parse fuel' prefix1 lhs) in
            match rhs with
            | EmptyString => Panic "runtime error: index out of range [0] with length 0"
            | String q expr =>
                if Ascii.eqb q Go.DQUOTE || Ascii.eqb q Go.SQUOTE then
                  match Go.IndexRune expr q with
                  | Some e =>
                      if Nat.eqb (S e) (String.length expr)
                      then Ok (exprPredicate node (Go.take e expr))
                      else Panic "unterminated expression value"
                  | None =>
                      match expr with
                      | EmptyString => Panic "runtime error: slice bounds out of range [:-1]"
                      | _ => Panic "unterminated expression value"
                      end
                  end
                else Panic ("invalid predicate, expected ''' or '" ++ String Go.DQUOTE "'")
            end
        | _ => Panic ("invalid predicate expression " ++ input1)
        end in
      let predicate_parse (prefix1 input1 : string) : result predicate :=
        match Go.first_rune input1, Go.last_rune input1 with
        | Some a, Some b =>
            if negb (Ascii.eqb a "[") || negb (Ascii.eqb b "]")
            then Panic ("invalid predicate " ++ quoted input1)
            else
              let input2 := Go.Trim (Go.Trim input1 "[]") wsp in
              match Go.ParseUint input2 64 with
              | Some u => Ok (posPredicate u)
              | None => exprPredicate_parse prefix1 input2
              end
        | _, _ => Panic "runtime error: index out of range [0] with length 0"
        end in
      let predicates_parse (prefix1 input1 : string) : result (list predicate) :=
        let* predStrings := getPredicateStrings input1 in
        mapM (predicate_parse prefix1) predStrings in
      let* pi :=
        match Go.SplitN2 input ":" with
        | [p; i] => Ok (p, i, String.eqb p prefix0)
        | _ =>
            if negb (String.eqb prefix0 EmptyString) then Ok (prefix0, input, true)
            else Panic "unable to determine prefix"
        end in
      let '(p, i, inferred) := pi in
      let* _ := checkIDPart p in
      let* ip :=
        match Go.IndexRune i "[" with
        | Some predsStart =>
            let* ps := predicates_parse p (Go.drop predsStart i) in
            Ok (Go.take predsStart i, Some ps)
        | None => Ok (i, None)
        end in
      let '(i', ps) := ip in
      let* _ := checkIDPart i' in
      Ok (NodeID p i' inferred ps)
  end.

(** The loop of [InstanceID.parse] over the node-identifier strings;
    [prefix0] is the prefix of the node parsed last. *)
Fixpoint parse_nodes (fuel : nat) (prefix0 : string) (l : list string)
  : result (list nodeID) :=
  match l with
  | [] => Ok []
  | nodeIDstring :: l' =>
      let* node := nodeID_parse fuel prefix0 nodeIDstring in
      let* nodes := parse_nodes fuel (prefix node) l' in
      Ok (node :: nodes)
  end.

(** The deferred [recover] of [InstanceID.parse] rewraps every panic. *)
Definition rewrap {A : Type} (r : result A) : result A :=
  match r with
  | Ok a => Ok a
  | Panic m => Panic ("invalid instance identifier: " ++ m)
  end.

Definition InstanceID_parse (input : string) : result InstanceID :=
  rewrap
    (let* nodeIDstrings := getNodeIDStrings input in
     match nodeIDstrings with
     | [] => Panic "must specify at least one node-identifier"
     | first :: rest =>
         if negb (String.eqb first EmptyString)
         then Panic ("must start with a " ++ quoted "/")
         else
           match rest with
           | [] => Panic "must specify at least one node-identifier"
           | _ =>
               let* nodeIDs := parse_nodes (S (String.length input)) EmptyString rest in
               Ok (mkInstanceID nodeIDs)
           end
     end).

(** [InstanceIDNew] *)
Definition InstanceIDNew (instance : string) : result InstanceID :=
  InstanceID_parse instance.

(** [String] of a node identifier, of its predicates and of a
    predicate's selector. *)
Fixpoint nodeID_String (id : nodeID) : string :=
  match id with
  | NodeID p i inferred ps =>
      let preds :=
        match ps with
        | None => EmptyString
        | Some l =>
            (fix go (l : list predicate) : string :=
               match l with
               | [] => EmptyString
               | pred :: l' => ("[" ++ predicate_String pred ++ "]") ++ go l'
               end) l
        end in
      if negb (String.eqb p EmptyString) && negb inferred
      then p ++ ":" ++ i ++ preds
      else i ++ preds
  end
with predicate_String (p : predicate) : string :=
  match p with
  | posPredicate pos => Go.FormatUint pos
  | exprPredicate node value => nodeID_String node ++ "=" ++ "'" ++ value ++ "'"
  end.

Definition InstanceID_String (i : InstanceID) : string :=
  "/" ++ String.concat "/" (map nodeID_String (ids i)).

(** ** Values (value.go) *)

(** [type Value struct { data interface{} }].  A term of [Value] is the
    content of a non-nil [*Value]: its constructor is the dynamic type of
    [data] ([VNull] for [nil]) and carries the datum.  An [*Object] is its
    module name and its store in iteration order; an [*Array] is its
    module name and the slots of its vector, [None] being a slot that
    holds the nil interface. *)
#[local] Set Warnings "-register-all".

Inductive Value : Type :=
| VNull
| VEmpty
| VBool (b : bool)
| VInt32 (i : Z)
| VUint32 (i : Z)
| VInt64 (i : Z)
| VUint64 (i : Z)
| VFloat64 (f : float)
| VString (s : string)
| VInstanceID (i : InstanceID)
| VObject (module : string) (store : list (string * Value))
| VArray (module : string) (store : list (option Value)).

(** [type Object struct { store *hashmap.Map; module string }] *)
Record Object : Type := mkObject
  { o_store : list (string * Value); o_module : string }.

(** [type Array struct { store *vector.Vector; module string }] *)
Record Array : Type := mkArray
  { a_store : list (option Value); a_module : string }.

Definition ofObject (o : Object) : Value := VObject (o_module o) (o_store o).
Definition ofArray (a : Array) : Value := VArray (a_module a) (a_store a).

(** [Empty()] *)
Definition Empty : Value := VEmpty.

(** What [reflect.TypeOf] can return for a datum or for the parameter of
    a handler; [tOther] stands for every type that no datum has and that
    is not an interface. *)
Inductive rtype : Type :=
| tNil | tInterface | tValue | tRFCString
| tObject | tArray | tInstanceID | tEmpty | tBool
| tInt32 | tUint32 | tInt64 | tUint64 | tFloat64 | tString
| tOther.

Definition rtype_eqb (a b : rtype) : bool :=
  match a, b with
  | tNil, tNil | tInterface, tInterface | tValue, tValue
  | tRFCString, tRFCString | tObject, tObject | tArray, tArray
  | tInstanceID, tInstanceID | tEmpty, tEmpty | tBool, tBool
  | tInt32, tInt32 | tUint32, tUint32 | tInt64, tInt64
  | tUint64, tUint64 | tFloat64, tFloat64 | tString, tString => true
  | _, _ => false
  end.

(** [reflect.TypeOf(val.data)] *)
Definition TypeOf (val : Value) : rtype :=
  match val with
  | VNull => tNil
  | VEmpty => tEmpty
  | VBool _ => tBool
  | VInt32 _ => tInt32
  | VUint32 _ => tUint32
  | VInt64 _ => tInt64
  | VUint64 _ => tUint64
  | VFloat64 _ => tFloat64
  | VString _ => tString
  | VInstanceID _ => tInstanceID
  | VObject _ _ => tObject
  | VArray _ _ => tArray
  end.

(** [vty.AssignableTo(inputType)] for a non-nil [vty]: the types are
    identical, or [inputType] is the empty interface. *)
Definition AssignableTo (vty inputType : rtype) : bool :=
  rtype_eqb vty inputType || rtype_eqb inputType tInterface.

Definition canConvertNumeric (from to : rtype) (v : Value) : bool :=
  if rtype_eqb from to then true
  else
    match from, v with
    | tInt32, VInt32 i => rtype_eqb to tUint32 && (0 <=? i)
    | tUint32, VUint32 i => rtype_eqb to tInt32 && (i <=? 2 ^ 31 - 1)
    | tInt64, VInt64 i => rtype_eqb to tUint64 && (0 <=? i)
    | tUint64, VUint64 i => rtype_eqb to tInt64 && (i <=? 2 ^ 63 - 1)
    | _, _ => false
    end.

Definition wrap_signed (bits : Z) (i : Z) : Z :=
  (i + 2 ^ (bits - 1)) mod 2 ^ bits - 2 ^ (bits - 1).
Definition wrap_unsigned (bits : Z) (i : Z) : Z := i mod 2 ^ bits.

(** [reflect.ValueOf(from).Convert(to).Interface()] between the integer
    types; other pairs are left alone (the callers below never ask). *)
Definition convertNumeric (from : Value) (to : rtype) : Value :=
  match from, to with
  | (VInt32 i | VUint32 i | VInt64 i | VUint64 i), tInt32 => VInt32 (wrap_signed 32 i)
  | (VInt32 i | VUint32 i | VInt64 i | VUint64 i), tUint32 => VUint32 (wrap_unsigned 32 i)
  | (VInt32 i | VUint32 i | VInt64 i | VUint64 i), tInt64 => VInt64 (wrap_signed 64 i)
  | (VInt32 i | VUint32 i | VInt64 i | VUint64 i), tUint64 => VUint64 (wrap_unsigned 64 i)
  | _, _ => from
  end.

(** ** Stores

    The store of an object is a persistent hash map from keys to values.
    It is kept here as the list of its entries in the order [Range]
    visits them, each key once; [Assoc] keeps the place of a key that is
    present and puts a new key last. *)
Section Store.
Context {V : Type}.

Fixpoint store_Find (k : string) (s : list (string * V)) : option V :=
  match s with
  | [] => None
  | (k', v) :: s' => if String.eqb k' k then Some v else store_Find k s'
  end.

Definition store_Contains (k : string) (s : list (string * V)) : bool :=
  match store_Find k s with Some _ => true | None => false end.

Fixpoint store_Assoc (k : string) (v : V) (s : list (string * V))
  : list (string * V) :=
  match s with
  | [] => [(k, v)]
  | (k', v') :: s' =>
      if String.eqb k' k then (k, v) :: s' else (k', v') :: store_Assoc k v s'
  end.

Fixpoint store_Delete (k : string) (s : list (string * V)) : list (string * V) :=
  match s with
  | [] => []
  | (k', v') :: s' =>
      if String.eqb k' k then s' else (k', v') :: store_Delete k s'
  end.

End Store.

(** [vector.Delete]: the element at [index] is taken out and the later
    ones move down; an index outside the vector leaves it as it is. *)
Fixpoint vector_Delete {A : Type} (index : nat) (l : list A) : list A :=
  match l, index with
  | [], _ => []
  | _ :: l', O => l'
  | x :: l', S i => x :: vector_Delete i l'
  end.

(** [vector.Assoc] inside the bounds of the vector. *)
Fixpoint vector_Assoc {A : Type} (index : nat) (x : A) (l : list A) : list A :=
  match l, index with
  | [], _ => []
  | _ :: l', O => x :: l'
  | y :: l', S i => y :: vector_Assoc i x l'
  end.

(** ** Module names of keys (object.go) *)

(** [obj.parseKey(k)] *)
Definition parseKey (module : string) (k : string) : string * string :=
  match Go.SplitN2 k ":" with
  | [m; key] => (m, key)
  | _ => (module, k)
  end.

(** [obj.adaptKey(key)] *)
Definition adaptKey (module : string) (key : string) : string :=
  let (m, key') := parseKey module key in
  if String.eqb m EmptyString then key' else m ++ ":" ++ key'.

Definition nil_deref : string :=
  "runtime error: invalid memory address or nil pointer dereference".

Definition nil_conversion : string :=
  "interface conversion: interface {} is nil, not *data.Value".

(** [val.belongsTo(orig, moduleName)], with [Array.belongsTo] and
    [Object.belongsTo] inlined at their dynamic types.  A slot that
    holds the nil interface reaches [adaptValue] as a nil [*Value], whose
    [data] cannot be read. *)
Fixpoint belongsTo (val : Value) (moduleName : string) : result Value :=
  match val with
  | VArray module store =>
      if String.eqb moduleName module then Ok val
      else
        let* store' :=
          (fix go (l : list (option Value)) : result (list (option Value)) :=
             match l with
             | [] => Ok []
             | None :: _ => Panic nil_deref
             | Some v :: l' =>
                 let* adaptedValue := belongsTo v moduleName in
                 let* rest := go l' in
                 Ok (Some adaptedValue :: rest)
             end) store in
        Ok (VArray moduleName store')
  | VObject module store =>
      if String.eqb moduleName module then Ok val
      else
        let* newStore :=
          (fix go (l : list (string * Value)) (newStore : list (string * Value))
             : result (list (string * Value)) :=
             match l with
             | [] => Ok newStore
             | (key, v) :: l' =>
                 let m := fst (parseKey module key) in
                 if String.eqb m EmptyString || String.eqb m module then
                   let* v' := belongsTo v (fst (parseKey moduleName key)) in
                   let k := adaptKey moduleName key in
                   go l' (store_Delete (adaptKey module key) (store_Assoc k v' newStore))
                 else go l' newStore
             end) store store in
        Ok (VObject moduleName newStore)
  | _ => Ok val
  end.

(** [arr.adaptValue(val)] *)
Definition Array_adaptValue (arr : Array) (val : option Value) : result Value :=
  match val with
  | None => Panic nil_deref
  | Some v => belongsTo v (a_module arr)
  end.

(** [obj.adaptValue(k, val)] *)
Definition Object_adaptValue (obj : Object) (k : string) (val : option Value)
  : result (string * Value) :=
  match val with
  | None => Panic nil_deref
  | Some v =>
      let* v' := belongsTo v (fst (parseKey (o_module obj) k)) in
      Ok (adaptKey (o_module obj) k, v')
  end.

(** ** Constructing values (value.go, array.go, object.go) *)

(** What a caller may hand to [ValueNew] as [interface{}].  An integer
    comes with its static type and is taken to lie in that type's range;
    [int] and [uint] are 64 bits wide.  [hUnsupported] is any other type. *)
Inductive host : Type :=
| hNil
| hValue (v : option Value)
| hObject (o : Object)
| hArray (a : Array)
| hInstanceID (i : InstanceID)
| hEmpty
| hUint (i : Z) | hUint8 (i : Z) | hUint16 (i : Z) | hUint32 (i : Z)
| hUint64 (i : Z)
| hInt (i : Z) | hInt8 (i : Z) | hInt16 (i : Z) | hInt32 (i : Z)
| hInt64 (i : Z)
| hFloat32 (f : float)
| hFloat64 (f : float)
| hBool (b : bool)
| hString (s : string)
| hMap (m : list (string * host))
| hSlice (l : list host)
| hUnsupported.

Definition convertToInt32 (i : Z) : Z := wrap_signed 32 i.
Definition convertToUint32 (i : Z) : Z := wrap_unsigned 32 i.
Definition convertToUint64 (i : Z) : Z := wrap_unsigned 64 i.

Definition inferInt32Type (v : Z) : Value :=
  if canConvertNumeric tInt32 tUint32 (VInt32 v)
  then VUint32 (convertToUint32 v)
  else VInt32 v.

Definition inferInt64Type (v : Z) : Value :=
  if canConvertNumeric tInt64 tUint64 (VInt64 v)
  then VUint64 (convertToUint64 v)
  else VInt64 v.

(** [ObjectNew()] and [ArrayNew()] *)
Definition ObjectNew : Object := mkObject [] EmptyString.
Definition ArrayNew : Array := mkArray [] EmptyString.

(** [valueNew(data)]; the result is the [*Value], [None] when the
    argument was a nil [*Value].  [ObjectFrom] and [ArrayFrom] are
    unfolded at [map[string]interface{}] and [[]interface{}]. *)
Fixpoint valueNew (data : host) : result (option Value) :=
  match data with
  | hNil => Ok (Some VNull)
  | hValue d => Ok d
  | hObject o => Ok (Some (ofObject o))
  | hArray a => Ok (Some (ofArray a))
  | hInstanceID i => Ok (Some (VInstanceID i))
  | hEmpty => Ok (Some VEmpty)
  | hUint d | hUint8 d | hUint16 d | hUint32 d =>
      Ok (Some (VUint32 (convertToUint32 d)))
  | hUint64 d => Ok (Some (VUint64 d))
  | hInt d | hInt8 d | hInt16 d | hInt32 d =>
      Ok (Some (inferInt32Type (convertToInt32 d)))
  | hInt64 d => Ok (Some (inferInt64Type d))
  | hFloat32 d => Ok (Some (VFloat64 d))
  | hFloat64 d => Ok (Some (VFloat64 d))
  | hBool d => Ok (Some (VBool d))
  | hString d => Ok (Some (VString d))
  | hMap d =>
      let* store :=
        (fix go (l : list (string * host)) (store : list (string * Value))
           : result (list (string * Value)) :=
           match l with
           | [] => Ok store
           | (k, v) :: l' =>
               let* val := valueNew v in
               let* kv := Object_adaptValue ObjectNew k val in
               go l' (store_Assoc (fst kv) (snd kv) store)
           end) d [] in
      Ok (Some (VObject EmptyString store))
  | hSlice d =>
      match d with
      | [hNil] => Ok (Some VEmpty)
      | _ =>
          let* vals :=
            (fix go (l : list host) : result (list (option Value)) :=
               match l with
               | [] => Ok []
               | x :: l' =>
                   let* val := valueNew x in
                   let* v := Array_adaptValue ArrayNew val in
                   let* rest := go l' in
                   Ok (Some v :: rest)
               end) d in
          Ok (Some (VArray EmptyString vals))
      end
  | hUnsupported => Panic "cannot create value, invalid type"
  end.

(** [ValueNew(data)] *)
Definition ValueNew (data : host) : result (option Value) := valueNew data.

(** *** Arrays *)

Definition Array_Length (arr : Array) : Z := Z.of_nat (List.length (a_store arr)).

(** [arr.from(ins)] *)
Definition Array_from (arr : Array) (ins : list host) : result Array :=
  let* vals :=
    mapM (fun x => let* val := ValueNew x in
                   let* v := Array_adaptValue arr val in Ok (Some v)) ins in
  Ok (mkArray vals (a_module arr)).

Definition ArrayWith (elements : list host) : result Array :=
  Array_from ArrayNew elements.
Definition ArrayFrom (ins : list host) : result Array :=
  Array_from ArrayNew ins.

(** [arr.At(index)]: the nil pointer outside the bounds; inside them the
    slot is asserted to hold a [*Value]. *)
Definition Array_At (arr : Array) (index : Z) : result (option Value) :=
  if (Array_Length arr <=? index) || (index <? 0) then Ok None
  else
    match nth_error (a_store arr) (Z.to_nat index) with
    | Some (Some v) => Ok (Some v)
    | _ => Panic nil_conversion
    end.

Definition Array_Contains (arr : Array) (index : Z) : bool :=
  (index <? Array_Length arr) && (0 <=? index).

(** [arr.Find(index)] *)
Definition Array_Find (arr : Array) (index : Z) : result (option Value * bool) :=
  if Array_Contains arr index then
    match nth_error (a_store arr) (Z.to_nat index) with
    | Some (Some v) => Ok (Some v, true)
    | _ => Panic nil_conversion
    end
  else Ok (None, false).

(** The padding loop of [arr.Assoc]: [newStore.Append(nil)] once for
    each [i] from [arr.Length()] to [index]. *)
Definition pad_to (store : list (option Value)) (index : Z) : list (option Value) :=
  store ++ repeat None (Z.to_nat (index + 1 - Z.of_nat (List.length store))).

(** [arr.Assoc(index, value)] *)
Definition Array_Assoc (arr : Array) (index : Z) (value : host) : result Array :=
  let newStore :=
    if Array_Length arr <=? index then pad_to (a_store arr) index
    else a_store arr in
  let* val := ValueNew value in
  let* v := Array_adaptValue arr val in
  if index <? 0 then Panic "index out of bounds"
  else Ok (mkArray (vector_Assoc (Z.to_nat index) (Some v) newStore) (a_module arr)).

(** [arr.Append(value)] *)
Definition Array_Append (arr : Array) (value : host) : result Array :=
  let* val := ValueNew value in
  let* v := Array_adaptValue arr val in
  Ok (mkArray (a_store arr ++ [Some v]) (a_module arr)).

(** [arr.Delete(index)] *)
Definition Array_Delete (arr : Array) (index : Z) : Array :=
  if Array_Contains arr index
  then mkArray (vector_Delete (Z.to_nat index) (a_store arr)) (a_module arr)
  else arr.

(** *** Objects *)

(** [type Pair struct { key string; value *Value }] and [PairNew] *)
Record Pair : Type := mkPair { Pair_Key : string; Pair_Value : option Value }.

Definition PairNew (key : string) (value : host) : result Pair :=
  let* v := ValueNew value in Ok (mkPair key v).

(** [obj.with(pairs...)] *)
Definition Object_with (obj : Object) (pairs : list Pair) : result Object :=
  let* store :=
    (fix go (l : list Pair) (store : list (string * Value))
       : result (list (string * Value)) :=
       match l with
       | [] => Ok store
       | p :: l' =>
           let* kv := Object_adaptValue obj (Pair_Key p) (Pair_Value p) in
           go l' (store_Assoc (fst kv) (snd kv) store)
       end) pairs (o_store obj) in
  Ok (mkObject store (o_module obj)).

Definition ObjectWith (pairs : list Pair) : result Object :=
  Object_with ObjectNew pairs.

(** [obj.from(in)] *)
Definition Object_from (obj : Object) (ins : list (string * host)) : result Object :=
  let* store :=
    (fix go (l : list (string * host)) (store : list (string * Value))
       : result (list (string * Value)) :=
       match l with
       | [] => Ok store
       | (k, v) :: l' =>
           let* val := ValueNew v in
           let* kv := Object_adaptValue obj k val in
           go l' (store_Assoc (fst kv) (snd kv) store)
       end) ins (o_store obj) in
  Ok (mkObject store (o_module obj)).

Definition ObjectFrom (ins : list (string * host)) : result Object :=
  Object_from ObjectNew ins.

(** [obj.At(key)] *)
Definition Object_At (obj : Object) (key : string) : option Value :=
  store_Find (adaptKey (o_module obj) key) (o_store obj).

(** [obj.Contains(key)] *)
Definition Object_Contains (obj : Object) (key : string) : bool :=
  store_Contains (adaptKey (o_module obj) key) (o_store obj).

(** [obj.Find(key)] *)
Definition Object_Find (obj : Object) (key : string) : option Value * bool :=
  match store_Find (adaptKey (o_module obj) key) (o_store obj) with
  | Some v => (Some v, true)
  | None => (None, false)
  end.

(** [obj.Assoc(key, value)] *)
Definition Object_Assoc (obj : Object) (key : string) (value : host) : result Object :=
  let* val := ValueNew value in
  let* kv := Object_adaptValue obj key val in
  Ok (mkObject (store_Assoc (fst kv) (snd kv) (o_store obj)) (o_module obj)).

Definition Object_Length (obj : Object) : Z := Z.of_nat (List.length (o_store obj)).

(** [obj.Delete(key)] *)
Definition Object_Delete (obj : Object) (key : string) : Object :=
  mkObject (store_Delete (adaptKey (o_module obj) key) (o_store obj)) (o_module obj).

(** ** Equality

    [equal(v1, v2)] is [dyn.Equal]: the [Equal] method of the left
    operand where it has one ([*Value], [*Object], [*Array],
    [*InstanceID]) and Go's [==] otherwise.  Two hash maps are equal when
    every entry of one has an equal entry in the other, two vectors when
    they agree slot by slot. *)
Fixpoint Value_Equal (val ov : Value) {struct val} : bool :=
  match val, ov with
  | VNull, VNull => true
  | VEmpty, VEmpty => true
  | VBool a, VBool b => Bool.eqb a b
  | VInt32 a, VInt32 b => a =? b
  | VUint32 a, VUint32 b => a =? b
  | VInt64 a, VInt64 b => a =? b
  | VUint64 a, VUint64 b => a =? b
  | VFloat64 a, VFloat64 b => PrimFloat.eqb a b
  | VString a, VString b => String.eqb a b
  | VInstanceID a, VInstanceID b =>
      String.eqb (InstanceID_String b) (InstanceID_String a)
  | VObject m1 s1, VObject m2 s2 =>
      String.eqb m2 m1
      && Nat.eqb (List.length s2) (List.length s1)
      && (fix all (l : list (string * Value)) : bool :=
            match l with
            | [] => true
            | (k, v) :: l' =>
                match store_Find k s2 with
                | Some v' => Value_Equal v v'
                | None => false
                end && all l'
            end) s1
  | VArray m1 s1, VArray m2 s2 =>
      String.eqb m2 m1
      && Nat.eqb (List.length s2) (List.length s1)
      && (fix all (l1 l2 : list (option Value)) : bool :=
            match l1, l2 with
            | [], [] => true
            | Some x :: l1', Some y :: l2' => Value_Equal x y && all l1' l2'
            | None :: l1', None :: l2' => all l1' l2'
            | _, _ => false
            end) s1 s2
  | _, _ => false
  end.

(** [equal] on two [*Value] that may be nil: [val.Equal(other)] reads
    [val.data] unless both pointers are nil. *)
Definition equal (v1 v2 : option Value) : result bool :=
  match v1, v2 with
  | None, None => Ok true
  | None, Some _ | Some _, None => Panic nil_deref
  | Some a, Some b => Ok (Value_Equal a b)
  end.

(** ** The raw-message view of the codec

    The package hands a message to [rfc7951.Unmarshal] to have it cut
    into the raw messages of its members or elements, and descends into
    those. *)
Module Codec.

Definition is_space (c : ascii) : bool :=
  Ascii.eqb c " " || Ascii.eqb c "009" || Ascii.eqb c "010" || Ascii.eqb c "013".

Fixpoint skip_space (s : string) : string :=
  match s with
  | String c s' => if is_space c then skip_space s' else s
  | EmptyString => EmptyString
  end.

(** The text of a string literal after its opening quote, up to and
    including the closing quote: the literal (without the opening quote)
    and what follows it. *)
Fixpoint scan_string (s : string) (esc : bool) : option (string * string) :=
  match s with
  | EmptyString => None
  | String c s' =>
      if esc then option_map (fun p => (String c (fst p), snd p)) (scan_string s' false)
      else if Ascii.eqb c "\" then
        option_map (fun p => (String c (fst p), snd p)) (scan_string s' true)
      else if Ascii.eqb c Go.DQUOTE then Some (String c EmptyString, s')
      else option_map (fun p => (String c (fst p), snd p)) (scan_string s' false)
  end.

(** An object or array after its opening bracket, [depth] brackets
    deep, up to and including the bracket that closes it. *)
Fixpoint scan_nested (s : string) (depth : nat) (inStr esc : bool)
  : option (string * string) :=
  match s with
  | EmptyString => None
  | String c s' =>
      let keep (r : option (string * string)) :=
        option_map (fun p => (String c (fst p), snd p)) r in
      if inStr then
        if esc then keep (scan_nested s' depth true false)
        else if Ascii.eqb c "\" then keep (scan_nested s' depth true true)
        else if Ascii.eqb c Go.DQUOTE then keep (scan_nested s' depth false false)
        else keep (scan_nested s' depth true false)
      else if Ascii.eqb c Go.DQUOTE then keep (scan_nested s' depth true false)
      else if Ascii.eqb c "{" || Ascii.eqb c "[" then
        keep (scan_nested s' (S depth) false false)
      else if Ascii.eqb c "}" || Ascii.eqb c "]" then
        match depth with
        | O => Some (String c EmptyString, s')
        | S d => keep (scan_nested s' d false false)
        end
      else keep (scan_nested s' depth false false)
  end.

(** A bare token: everything up to a comma, a closing bracket or white
    space. *)
Fixpoint scan_token (s : string) : string * string :=
  match s with
  | EmptyString => (EmptyString, EmptyString)
  | String c s' =>
      if Ascii.eqb c "," || Ascii.eqb c "}" || Ascii.eqb c "]" || is_space c
      then (EmptyString, s)
      else let (t, r) := scan_token s' in (String c t, r)
  end.

(** One raw value at the head of [s] and the rest of [s]. *)
Definition scan_value (s : string) : option (string * string) :=
  match skip_space s with
  | EmptyString => None
  | String c s' =>
      if Ascii.eqb c Go.DQUOTE then
        option_map (fun p => (String c (fst p), snd p)) (scan_string s' false)
      else if Ascii.eqb c "{" || Ascii.eqb c "[" then
        option_map (fun p => (String c (fst p), snd p)) (scan_nested s' 0 false false)
      else Some (scan_token (String c s'))
  end.

(** The elements that follow the opening bracket of an array. *)
Fixpoint elements (fuel : nat) (s : string) : list string :=
  match fuel with
  | O => []
  | S fuel' =>
      match skip_space s with
      | String c s' =>
          if Ascii.eqb c "]" then []
          else
            match scan_value (String c s') with
            | Some (raw, rest) =>
                match skip_space rest with
                | String d rest' =>
                    if Ascii.eqb d "," then raw :: elements fuel' rest'
                    else [raw]
                | EmptyString => [raw]
                end
            | None => []
            end
      | EmptyString => []
      end
  end.

(** The members that follow the opening brace of an object. *)
Fixpoint members (fuel : nat) (s : string) : list (string * string) :=
  match fuel with
  | O => []
  | S fuel' =>
      match skip_space s with
      | String c s' =>
          if negb (Ascii.eqb c Go.DQUOTE) then []
          else
            match scan_string s' false with
            | Some (k, rest) =>
                let key := match Go.Unquote (String c k) with
                           | Some key => key
                           | None => k
                           end in
                match skip_space rest with
                | String d rest' =>
                    if negb (Ascii.eqb d ":") then []
                    else
                      match scan_value rest' with
                      | Some (raw, rest2) =>
                          match skip_space rest2 with
                          | String e rest3 =>
                              if Ascii.eqb e "," then (key, raw) :: members fuel' rest3
                              else [(key, raw)]
                          | EmptyString => [(key, raw)]
                          end
                      | None => []
                      end
                | EmptyString => []
                end
            | None => []
            end
      | EmptyString => []
      end
  end.

(** Modelled from the spec: [rfc7951.Unmarshal(msg, &a)] for
    [a []rfc7951.RawMessage], "an ability to parse a byte slice into a
    raw-message list/map for recursive descent"; the decoder itself is
    not part of the sources at hand. *)
Definition rawElements (msg : string) : list string :=
  match skip_space msg with
  | String c s' => if Ascii.eqb c "[" then elements (String.length msg) s' else []
  | EmptyString => []
  end.

(** Modelled from the spec: [rfc7951.Unmarshal(msg, &m)] for
    [m map[string]rfc7951.RawMessage], in the order of the text. *)
Definition rawMembers (msg : string) : list (string * string) :=
  match skip_space msg with
  | String c s' => if Ascii.eqb c "{" then members (String.length msg) s' else []
  | EmptyString => []
  end.

End Codec.

(** Stand-ins for the two float conversions of [strconv], for running
    the functions below on data that holds no [float64]. *)
Definition FormatFloat_unused (f : float) : string := EmptyString.
Definition ParseFloat_unused (s : string) : option float := None.

Section Data.

(** [strconv.FormatFloat(d, 'f', -1, 64)] and [strconv.ParseFloat(s, 64)]
    belong to Go's standard library; [ParseFloat] answers [None] for a
    non-nil error. *)
Variable FormatFloat : float -> string.
Variable ParseFloat : string -> option float.

(** ** Rendering, dispatch and typed access (value.go) *)

(** [val.RFC7951String()]; [*InstanceID] and [empty] have the method
    [RFC7951String], [*Object] and [*Array] do not and reach [default]. *)
Definition RFC7951String (val : Value) : result string :=
  match val with
  | VNull => Ok "null"
  | VInstanceID i => Ok (InstanceID_String i)
  | VEmpty => Ok "[null]"
  | VUint32 d | VUint64 d => Ok (Go.FormatUint d)
  | VInt32 d | VInt64 d => Ok (Go.FormatInt d)
  | VFloat64 d => Ok (FormatFloat d)
  | VBool d => Ok (Go.FormatBool d)
  | VString d =>
      let str := Go.Quote d in
      if Go.len str <? 2 then Ok str
      else Ok (Go.take (String.length str - 2) (Go.drop 1 str))
  | VObject _ _ | VArray _ _ =>
      Panic "cannot convert value to string, invalid type"
  end.

(** The argument [dyn.Apply] passes to the chosen handler: the datum
    (converted if need be), the [*Value] itself, or its RFC 7951 string. *)
Inductive arg : Type :=
| aData (d : Value)
| aCell (v : Value)
| aString (s : string).

(** A handler as [Perform] sees it through reflection: the types of its
    parameters and what it does with the argument. *)
Record handler (R : Type) : Type := mkHandler
  { inputs : list rtype; body : arg -> result R }.
Arguments mkHandler {R} inputs body.
Arguments inputs {R} h.
Arguments body {R} h.

Definition bad_call {R : Type} : result R :=
  Panic "reflect: Call using mismatched argument".

(** [func(v interface{}) R]; the nil interface is passed as [VNull]. *)
Definition onInterface {R : Type} (f : Value -> result R) : handler R :=
  mkHandler [tInterface] (fun a => match a with aData d => f d | _ => bad_call end).
(** [func(v *Value) R] *)
Definition onValue {R : Type} (f : Value -> result R) : handler R :=
  mkHandler [tValue] (fun a => match a with aCell v => f v | _ => bad_call end).
(** [func(s String) R] *)
Definition onString {R : Type} (f : string -> result R) : handler R :=
  mkHandler [tRFCString] (fun a => match a with aString s => f s | _ => bad_call end).
(** [func(o *Object) R] *)
Definition onObject {R : Type} (f : Object -> result R) : handler R :=
  mkHandler [tObject]
    (fun a => match a with aData (VObject m s) => f (mkObject s m) | _ => bad_call end).
(** [func(a *Array) R] *)
Definition onArray {R : Type} (f : Array -> result R) : handler R :=
  mkHandler [tArray]
    (fun a => match a with aData (VArray m s) => f (mkArray s m) | _ => bad_call end).
(** [func(i int32) R], [func(i uint32) R], [func(i int64) R] and
    [func(i uint64) R] *)
Definition onInt32 {R : Type} (f : Z -> result R) : handler R :=
  mkHandler [tInt32] (fun a => match a with aData (VInt32 i) => f i | _ => bad_call end).
Definition onUint32 {R : Type} (f : Z -> result R) : handler R :=
  mkHandler [tUint32] (fun a => match a with aData (VUint32 i) => f i | _ => bad_call end).
Definition onInt64 {R : Type} (f : Z -> result R) : handler R :=
  mkHandler [tInt64] (fun a => match a with aData (VInt64 i) => f i | _ => bad_call end).
Definition onUint64 {R : Type} (f : Z -> result R) : handler R :=
  mkHandler [tUint64] (fun a => match a with aData (VUint64 i) => f i | _ => bad_call end).

(** The [switch] of [Perform] for one handler with input type
    [inputType]: the argument if the handler becomes the action. *)
Definition Perform_case (val : Value) (inputType : rtype) : result (option arg) :=
  let vty := TypeOf val in
  if rtype_eqb vty tNil then
    if rtype_eqb inputType tInterface then Ok (Some (aData val)) else Ok None
  else if rtype_eqb inputType tValue then Ok (Some (aCell val))
  else if rtype_eqb inputType tRFCString then
    let* s := RFC7951String val in Ok (Some (aString s))
  else if AssignableTo vty inputType then Ok (Some (aData val))
  else if canConvertNumeric vty inputType val then
    Ok (Some (aData (convertNumeric val inputType)))
  else Ok None.

(** The loop of [Perform] over [fns], up to the first handler that
    becomes the action, followed by [dyn.Apply(action, arg)]. *)
Fixpoint Perform_loop {R : Type} (val : Value) (fns : list (handler R))
  : result (option R) :=
  match fns with
  | [] => Ok None
  | fn :: fns' =>
      match inputs fn with
      | [inputType] =>
          let* a := Perform_case val inputType in
          match a with
          | Some a' => let* r := body fn a' in Ok (Some r)
          | None => Perform_loop val fns'
          end
      | _ => Perform_loop val fns'
      end
  end.

(** [val.Perform(fns...)]; [None] is the nil interface. *)
Definition Perform {R : Type} (val : option Value) (fns : list (handler R))
  : result (option R) :=
  match val with
  | None => Ok None
  | Some v => Perform_loop v fns
  end.

(** [ValueNew(r)] for the [interface{}] that a [Perform] over handlers
    returning [*Value] gave back. *)
Definition ValueNew_performed (r : option (option Value)) : result (option Value) :=
  ValueNew (match r with None => hNil | Some p => hValue p end).

(** [val.IsEmpty()] *)
Definition IsEmpty (val : Value) : bool := Value_Equal val Empty.

(** [val.IsNull()] *)
Definition IsNull (val : Value) : bool :=
  match val with VNull => true | _ => false end.

(** [val.AsBoolean()] *)
Definition AsBoolean (val : Value) : result bool :=
  if IsEmpty val then Ok true
  else match val with
       | VBool b => Ok b
       | _ => Panic "interface conversion: interface {} is not bool"
       end.

(** [val.IsBoolean()] *)
Definition IsBoolean (val : Value) : bool :=
  let isBoolean := match val with VBool _ => true | _ => false end in
  isBoolean || IsEmpty val.

(** [val.ToBoolean(defaultVal...)] *)
Definition ToBoolean (val : Value) (defaultVal : list bool) : bool :=
  if IsEmpty val then true
  else match val with
       | VBool b => b
       | _ => match defaultVal with
              | d :: _ => d
              | [] => false
              end
       end.

(** ** Evaluating instance identifiers (instance_id.go) *)

(** A datum handed back to [ValueNew] as [interface{}]. *)
Definition host_of_data (d : Value) : host :=
  match d with
  | VNull => hNil
  | VEmpty => hEmpty
  | VBool b => hBool b
  | VInt32 i => hInt32 i
  | VUint32 i => hUint32 i
  | VInt64 i => hInt64 i
  | VUint64 i => hUint64 i
  | VFloat64 f => hFloat64 f
  | VString s => hString s
  | VInstanceID i => hInstanceID i
  | VObject m s => hObject (mkObject s m)
  | VArray m s => hArray (mkArray s m)
  end.

(** [value.RFC7951String()] through a [*Value] that may be nil. *)
Definition RFC7951String_ptr (value : option Value) : result string :=
  match value with
  | None => Panic nil_deref
  | Some v => RFC7951String v
  end.

(** [int(p.pos)] *)
Definition int_of_uint64 (pos : Z) : Z := wrap_signed 64 pos.

(** [p.Find(value)] for a [*posPredicate] *)
Definition posPredicate_Find (pos : Z) (value : option Value)
  : result (option Value * bool) :=
  let* r := Perform value
    [onArray (fun arr =>
       let found := Array_Contains arr (int_of_uint64 pos) in
       if negb found then Ok (None, false)
       else let* v := Array_At arr (int_of_uint64 pos) in Ok (v, true))] in
  let* out := ValueNew_performed (option_map fst r) in
  Ok (out, match r with Some (_, found) => found | None => false end).

(** [arr.detect(fn)] where [fn] also records its last answer in [found]:
    the first element that satisfies [fn], and the final [found]. *)
Fixpoint detect (fn : option Value -> result bool) (l : list (option Value))
         (found : bool) : result (option Value * bool) :=
  match l with
  | [] => Ok (None, found)
  | v :: l' =>
      let* b := fn v in
      if b then Ok (v, b) else detect fn l' b
  end.

(** [arr.selectItems(fn)] where [fn] accumulates [found]. *)
Fixpoint selectItems (module : string) (fn : option Value -> result bool)
         (l : list (option Value)) : result (list (option Value) * bool) :=
  match l with
  | [] => Ok ([], false)
  | elem :: l' =>
      let* matched := fn elem in
      let* rest := selectItems module fn l' in
      if matched then
        let* elem' := Array_adaptValue (mkArray [] module) elem in
        Ok (Some elem' :: fst rest, true)
      else Ok (fst rest, snd rest)
  end.

(** The loop of [predicates.Find] from its [i]-th predicate on: [None]
    when a predicate did not find anything (the early [return nil,
    found]), otherwise [out] and [found] as the loop leaves them.  [last]
    is [len(p.preds)-1]; [find] is the [Find] of a predicate. *)
Definition predicates_Find_loop
           (find : predicate -> option Value -> result (option Value * bool))
           (last : nat)
  : list predicate -> nat -> option Value -> option Value ->
    result (option (option Value * bool)) :=
  fix go (l : list predicate) (i : nat) (cur out : option Value) :=
    match l with
    | [] => Ok (Some (out, true))
    | pred :: l' =>
        let* cf := find pred cur in
        let '(cur', found) := cf in
        if negb found then Ok None
        else
          let* r := Perform cur'
            [onArray (fun arr => let* v := ValueNew (hArray arr) in Ok (v, true));
             onInterface (fun v =>
               if negb (Nat.eqb i last) then Ok (None, false)
               else let* v' := ValueNew (host_of_data v) in Ok (v', true))] in
          let* out' := ValueNew_performed (option_map fst r) in
          let found' := match r with Some (_, f) => f | None => found end in
          match out' with
          | None => Ok (Some (out', found'))
          | Some _ => go l' (S i) cur' out'
          end
    end.

(** The last statement of [predicates.Find]: an array of length one
    gives its element, any other array nothing, and anything else is
    left as it is. *)
Definition predicates_Find_ret (out : option Value) (found : bool)
  : result (option Value * bool) :=
  let* r := Perform out
    [onArray (fun arr =>
       if negb (Array_Length arr =? 1) then Ok (None, false)
       else let* v := Array_At arr 0 in Ok (v, true));
     onValue (fun v => Ok (Some v, true))] in
  let* ret := ValueNew_performed (option_map fst r) in
  Ok (ret, match r with Some (_, f) => found && f | None => found end).

(** [p.Find(value)] for a [*predicates], over the [Find] of a predicate. *)
Definition predicates_Find_with
           (find : predicate -> option Value -> result (option Value * bool))
           (preds : list predicate) (value : option Value)
  : result (option Value * bool) :=
  let* st := predicates_Find_loop find (Nat.pred (List.length preds))
                                  preds 0%nat value None in
  match st with
  | None => Ok (None, false)
  | Some (out, found) => predicates_Find_ret out found
  end.

(** [id.Find(value)] for a [*nodeID] and [p.Find(value)] for a
    predicate. *)
Fixpoint nodeID_Find (id : nodeID) (value : option Value) {struct id}
  : result (option Value * bool) :=
  match value with
  | None => Ok (None, false)
  | Some _ =>
      match id with
      | NodeID p i _ ps =>
          let* r := Perform value
            [onObject (fun coll =>
               let value := Object_At coll (p ++ ":" ++ i) in
               let found := Object_Contains coll (p ++ ":" ++ i) in
               match ps with
               | None => Ok (value, found)
               | Some preds => predicates_Find_with predicate_Find preds value
               end)] in
          let* out := ValueNew_performed (option_map fst r) in
          Ok (out, match r with Some (_, found) => found | None => false end)
      end
  end
with predicate_Find (pred : predicate) (value : option Value) {struct pred}
  : result (option Value * bool) :=
  match pred with
  | posPredicate pos => posPredicate_Find pos value
  | exprPredicate node pvalue =>
      let* r := Perform value
        [onArray (fun a =>
           if String.eqb (identifier node) "." then
             detect (fun value =>
                       let* s := RFC7951String_ptr value in
                       Ok (String.eqb s pvalue))
                    (a_store a) false
           else
             let* sel :=
               selectItems (a_module a)
                 (fun value =>
                    let* vf := nodeID_Find node value in
                    if negb (snd vf) then Ok false
                    else let* s := RFC7951String_ptr (fst vf) in
                         Ok (String.eqb s pvalue))
                 (a_store a) in
             let* v := ValueNew (hArray (mkArray (fst sel) (a_module a))) in
             Ok (v, snd sel))] in
      let* out := ValueNew_performed (option_map fst r) in
      Ok (out, match r with Some (_, found) => found | None => false end)
  end.

(** [p.Find(value)] for a [*predicates] *)
Definition predicates_Find (preds : list predicate) (value : option Value)
  : result (option Value * bool) :=
  predicates_Find_with predicate_Find preds value.

(** [i.Find(value)] *)
Definition InstanceID_Find (i : InstanceID) (value : option Value)
  : result (option Value * bool) :=
  (fix go (l : list nodeID) (value : option Value) (found : bool)
     : result (option Value * bool) :=
     match l with
     | [] => Ok (value, found)
     | id :: l' =>
         let* vf := nodeID_Find id value in
         if negb (snd vf) then Ok (None, false)
         else go l' (fst vf) (snd vf)
     end) (ids i) value false.

(** [i.MatchAgainst(value)] *)
Definition MatchAgainst (i : InstanceID) (value : option Value)
  : result (option Value) :=
  let* vf := InstanceID_Find i value in Ok (fst vf).

(** *** Paths and selectors *)

(** [i.path()]; [None] is the nil [*InstanceID]. *)
Definition InstanceID_path (i : InstanceID) : option InstanceID :=
  match rev (ids i) with
  | [] => None
  | NodeID p id inf None :: front => Some (mkInstanceID (rev front))
  | NodeID p id inf (Some _) :: front =>
      Some (mkInstanceID (rev front ++ [NodeID p id inf None]))
  end.

(** The two implementations of [instanceIDSelector] that [selector()]
    returns: a [*nodeID] without predicates, or the [*predicates] of a
    node. *)
Inductive selector : Type :=
| selNodeID (id : nodeID)
| selPredicates (preds : list predicate).

(** [id.selector()] and [i.selector()]; [None] is the nil interface. *)
Definition nodeID_selector (id : nodeID) : selector :=
  match predicates id with
  | None => selNodeID id
  | Some preds => selPredicates preds
  end.

Definition InstanceID_selector (i : InstanceID) : option selector :=
  match rev (ids i) with
  | [] => None
  | last :: _ => Some (nodeID_selector last)
  end.

(** [i.push(nodeIDstring)] *)
Definition InstanceID_push (i : InstanceID) (nodeIDstring : string)
  : result InstanceID :=
  let prefix0 :=
    match rev (ids i) with
    | [] => EmptyString
    | prev :: _ => prefix prev
    end in
  let* node := nodeID_parse (S (String.length nodeIDstring)) prefix0 nodeIDstring in
  Ok (mkInstanceID (ids i ++ [node])).

(** [i.addPosPredicate(pos)] *)
Definition addPosPredicate (i : InstanceID) (pos : Z) : InstanceID :=
  match rev (ids i) with
  | [] => i
  | NodeID p id inf ps :: front =>
      let preds := match ps with None => [] | Some l => l end in
      mkInstanceID
        (rev front
         ++ [NodeID p id inf (Some (preds ++ [posPredicate (wrap_unsigned 64 pos)])%list)])
  end.

(** What [computeIdentifier] returns as [interface{}]: nil, a key, an
    index, or a list of indices. *)
Inductive ident : Type :=
| identNil
| identString (s : string)
| identInt (i : Z)
| identInts (l : list Z).

Definition ident_of_indices (ret : list Z) : ident :=
  match ret with
  | [i] => identInt i
  | _ => identInts ret
  end.

(** The indices of the slots that satisfy [fn]. *)
Fixpoint matching_indices (fn : option Value -> result bool)
         (l : list (option Value)) (idx : Z) : result (list Z) :=
  match l with
  | [] => Ok []
  | value :: l' =>
      let* b := fn value in
      let* rest := matching_indices fn l' (idx + 1) in
      Ok (if b then idx :: rest else rest)
  end.

(** [id.computeIdentifier(value)] for a [*nodeID] *)
Definition nodeID_computeIdentifier (id : nodeID) (value : option Value)
  : result ident :=
  let* r := Perform value
    [onObject (fun o =>
       let key := prefix id ++ ":" ++ identifier id in
       if Object_Contains o key then Ok (identString key) else Ok identNil)] in
  Ok (match r with Some x => x | None => identNil end).

(** [p.computeIdentifier(value)] for a predicate *)
Definition predicate_computeIdentifier (pred : predicate) (value : option Value)
  : result ident :=
  match pred with
  | posPredicate pos => Ok (identInt (int_of_uint64 pos))
  | exprPredicate node pvalue =>
      let* r := Perform value
        [onArray (fun arr =>
           if String.eqb (identifier node) "." then
             let* ret := matching_indices
                           (fun value => let* s := RFC7951String_ptr value in
                                         Ok (String.eqb s pvalue))
                           (a_store arr) 0 in
             Ok (ident_of_indices ret)
           else
             let* ret := matching_indices
                           (fun value =>
                              let* vf := nodeID_Find node value in
                              match vf with
                              | (Some v, true) =>
                                  let* s := RFC7951String v in
                                  Ok (String.eqb s pvalue)
                              | _ => Ok false
                              end)
                           (a_store arr) 0 in
             Ok (ident_of_indices ret))] in
      Ok (match r with Some x => x | None => identNil end)
  end.

(** The loop of [predicates.computeIdentifier] over the predicates:
    [matched] is the set of indices that are still matched. *)
Fixpoint computeIdentifier_loop (preds : list predicate) (value : option Value)
         (matched : list Z) : result (list Z) :=
  match preds with
  | [] => Ok matched
  | pred :: preds' =>
      let* id := predicate_computeIdentifier pred value in
      match id with
      | identNil => Ok []
      | identInts v =>
          computeIdentifier_loop preds' value
            (filter (fun i => existsb (Z.eqb i) matched) v)
      | identInt v =>
          computeIdentifier_loop preds' value
            (if existsb (Z.eqb v) matched then [v] else [])
      | identString _ => computeIdentifier_loop preds' value matched
      end
  end.

(** [p.computeIdentifier(value)] for a [*predicates] *)
Definition predicates_computeIdentifier (preds : list predicate)
           (value : option Value) : result ident :=
  let* r := Perform value
    [onArray (fun a =>
       let all := map Z.of_nat (seq 0 (List.length (a_store a))) in
       let* matched := computeIdentifier_loop preds value all in
       match matched with
       | [out] => Ok (identInt out)
       | _ => Ok identNil
       end)] in
  Ok (match r with Some x => x | None => identNil end).

Definition computeIdentifier (sel : selector) (value : option Value) : result ident :=
  match sel with
  | selNodeID id => nodeID_computeIdentifier id value
  | selPredicates preds => predicates_computeIdentifier preds value
  end.

(** [computeIdentifierDefault] of a [*nodeID] and of a [*predicates] *)
Definition computeIdentifierDefault (sel : selector) (v : option Value)
  : result ident :=
  let* id := computeIdentifier sel v in
  match id, sel with
  | identNil, selNodeID n => Ok (identString (prefix n ++ ":" ++ identifier n))
  | identNil, selPredicates _ =>
      let* r := Perform v
        [onArray (fun a => Ok (Array_Length a));
         onInterface (fun _ => Ok 0)] in
      Ok (match r with Some n => identInt n | None => identNil end)
  | _, _ => Ok id
  end.

(** [p.modifyMatchCriteria(v)] for an [*exprPredicate] and for a
    [*predicates]; a [*nodeID] is no [matchModifier]. *)
Definition exprPredicate_modifyMatchCriteria (node : nodeID) (pvalue : string)
           (v : option Value) : result (option Value) :=
  if String.eqb (identifier node) "." then Ok v
  else
    let* r := Perform v
      [onObject (fun o =>
         let* o' := Object_Assoc o (identifier node) (hString pvalue) in
         ValueNew (hObject o'))] in
    match r with
    | Some v' => Ok v'
    | None => Panic nil_conversion
    end.

Fixpoint predicates_modifyMatchCriteria (preds : list predicate)
         (v : option Value) : result (option Value) :=
  match preds with
  | [] => Ok v
  | posPredicate _ :: preds' => predicates_modifyMatchCriteria preds' v
  | exprPredicate node pvalue :: preds' =>
      let* v' := exprPredicate_modifyMatchCriteria node pvalue v in
      predicates_modifyMatchCriteria preds' v'
  end.

Definition modifyMatchCriteria (sel : selector) (v : option Value)
  : result (option Value) :=
  match sel with
  | selNodeID _ => Ok v
  | selPredicates preds => predicates_modifyMatchCriteria preds v
  end.

(** [createNode] of a [*nodeID] and of a [*predicates] *)
Definition createNode (sel : selector) : result (option Value) :=
  match sel with
  | selNodeID _ => ValueNew (hObject ObjectNew)
  | selPredicates _ => ValueNew (hArray ArrayNew)
  end.

(** ** Merge (value.go, array.go, object.go) *)

Definition unwrap_Value (r : option (option Value)) : result (option Value) :=
  match r with
  | Some v => Ok v
  | None => Panic nil_conversion
  end.

(** [val.Merge(new)] with [arr.merge] and [obj.merge] at their dynamic
    types.  The elements of an object are merged after [adaptValue], so
    the recursion is bounded by [fuel], an upper bound of the depth of
    [val]. *)
Fixpoint Merge (fuel : nat) (val : Value) (new : option Value)
  : result (option Value) :=
  match fuel with
  | O => Panic out_of_fuel
  | S fuel' =>
      let merge_ptr (v new : option Value) : result (option Value) :=
        match v with
        | None => Panic nil_deref
        | Some v' => Merge fuel' v' new
        end in
      match val with
      | VArray module store =>
          let arr := mkArray store module in
          let* r := Perform new
            [onArray (fun n =>
               let* out1 :=
                 (fix go (l : list (option Value)) (i : Z) (out : list (option Value))
                    : result (list (option Value)) :=
                    match l with
                    | [] => Ok out
                    | v :: l' =>
                        if Array_Contains n i then
                          let* ni := Array_At n i in
                          let* m := merge_ptr v ni in
                          let* m' := Array_adaptValue arr m in
                          go l' (i + 1) (vector_Assoc (Z.to_nat i) (Some m') out)
                        else go l' (i + 1) out
                    end) store 0 store in
               let* out2 :=
                 (fix go (l : list (option Value)) (i : Z) (out : list (option Value))
                    : result (list (option Value)) :=
                    match l with
                    | [] => Ok out
                    | v :: l' =>
                        if negb (Array_Contains arr i) then
                          let* v' := Array_adaptValue arr v in
                          go l' (i + 1) (out ++ [Some v'])%list
                        else go l' (i + 1) out
                    end) (a_store n) 0 out1 in
               ValueNew (hArray (mkArray out2 module)));
             onInterface (fun _ => ValueNew (hArray arr))] in
          unwrap_Value r
      | VObject module store =>
          let obj := mkObject store module in
          let* r := Perform new
            [onObject (fun n =>
               let* store1 :=
                 (fix go (l : list (string * Value)) (st : list (string * Value))
                    : result (list (string * Value)) :=
                    match l with
                    | [] => Ok st
                    | (key, v0) :: l' =>
                        let* kv := Object_adaptValue obj key (Some v0) in
                        if Object_Contains n (fst kv) then
                          let* m := Merge fuel' (snd kv) (Object_At n (fst kv)) in
                          match m with
                          | Some m' => go l' (store_Assoc (fst kv) m' st)
                          | None => Panic nil_deref
                          end
                        else go l' st
                    end) store store in
               let* store2 :=
                 (fix go (l : list (string * Value)) (st : list (string * Value))
                    : result (list (string * Value)) :=
                    match l with
                    | [] => Ok st
                    | (key, v0) :: l' =>
                        let* kv := Object_adaptValue obj key (Some v0) in
                        if negb (store_Contains (fst kv) st)
                        then go l' (store_Assoc (fst kv) (snd kv) st)
                        else go l' st
                    end) (o_store n) store1 in
               ValueNew (hObject (mkObject store2 module)));
             onInterface (fun _ => ValueNew (hObject obj))] in
          unwrap_Value r
      | _ => Ok new
      end
  end.

(** The depth of a value, which bounds the recursion of [Merge] and the
    nesting of the message [marshalRFC7951] writes for the value; the
    empty leaf is written as an array of one element. *)
Fixpoint depth (val : Value) : nat :=
  match val with
  | VEmpty => 2%nat
  | VArray _ store =>
      S ((fix go (l : list (option Value)) : nat :=
            match l with
            | [] => O
            | Some v :: l' => Nat.max (depth v) (go l')
            | None :: l' => go l'
            end) store)
  | VObject _ store =>
      S ((fix go (l : list (string * Value)) : nat :=
            match l with
            | [] => O
            | (_, v) :: l' => Nat.max (depth v) (go l')
            end) store)
  | _ => 1%nat
  end.

(** [val.Merge(new)] through a [*Value] that may be nil. *)
Definition Value_Merge (val new : option Value) : result (option Value) :=
  match val with
  | None => Panic nil_deref
  | Some v => Merge (S (depth v)) v new
  end.

(** ** Edit entries and diff (edit.go, value.go, array.go, object.go) *)

(** [type EditAction string] *)
Definition EditAction : Type := string.
Definition EditAssoc : EditAction := "assoc".
Definition EditDelete : EditAction := "delete".
Definition EditMerge : EditAction := "merge".

(** [type EditEntry struct { Action EditAction; Path *InstanceID;
    Value *Value }] *)
Record EditEntry : Type := mkEditEntry
  { Action : EditAction; Path : InstanceID; EValue : option Value }.

(** [type EditOperation struct { Actions []EditEntry }] *)
Record EditOperation : Type := mkEditOperation { Actions : list EditEntry }.

(** [val.diff(new, path)] with [arr.diff] and [obj.diff] at their
    dynamic types. *)
Fixpoint diff (val : Value) (new : option Value) (path : InstanceID)
  : result (list EditEntry) :=
  match val with
  | VArray module store =>
      let arr := mkArray store module in
      let* r := Perform new
        [onArray (fun other =>
           let* out1 :=
             (fix go (l : list (option Value)) (i : Z) : result (list EditEntry) :=
                match l with
                | [] => Ok []
                | v :: l' =>
                    let* here :=
                      (if Array_Contains other i then
                         let* oi := Array_At other i in
                         match v with
                         | None => Panic nil_deref
                         | Some v' => diff v' oi (addPosPredicate path i)
                         end
                       else Ok [mkEditEntry EditDelete (addPosPredicate path i) None]) in
                    let* rest := go l' (i + 1) in
                    Ok (here ++ rest)%list
                end) store 0 in
           let* out2 :=
             (fix go (l : list (option Value)) (i : Z) : result (list EditEntry) :=
                match l with
                | [] => Ok []
                | v :: l' =>
                    let* rest := go l' (i + 1) in
                    if Array_Contains arr i then Ok rest
                    else Ok (mkEditEntry EditAssoc (addPosPredicate path i) v :: rest)
                end) (a_store other) 0 in
           Ok (out1 ++ out2)%list);
         onInterface (fun _ =>
           let* v := ValueNew (hValue new) in
           Ok [mkEditEntry EditAssoc path v])] in
      Ok (match r with Some out => out | None => [] end)
  | VObject module store =>
      let obj := mkObject store module in
      let* r := Perform new
        [onObject (fun other =>
           let* out1 :=
             (fix go (l : list (string * Value)) : result (list EditEntry) :=
                match l with
                | [] => Ok []
                | (k, v) :: l' =>
                    let* here :=
                      (if Object_Contains other k then
                         let* p := InstanceID_push path k in
                         diff v (Object_At other k) p
                       else
                         let* p := InstanceID_push path k in
                         Ok [mkEditEntry EditDelete p None]) in
                    let* rest := go l' in
                    Ok (here ++ rest)%list
                end) store in
           let* out2 :=
             (fix go (l : list (string * Value)) : result (list EditEntry) :=
                match l with
                | [] => Ok []
                | (k, v) :: l' =>
                    let* here :=
                      (if Object_Contains obj k then Ok []
                       else
                         let* p := InstanceID_push path k in
                         Ok [mkEditEntry EditAssoc p (Some v)]) in
                    let* rest := go l' in
                    Ok (here ++ rest)%list
                end) (o_store other) in
           Ok (out1 ++ out2)%list);
         onInterface (fun _ =>
           let* v := ValueNew (hValue new) in
           Ok [mkEditEntry EditAssoc path v])] in
      Ok (match r with Some out => out | None => [] end)
  | _ =>
      let* e := equal (Some val) new in
      if e then Ok [] else Ok [mkEditEntry EditAssoc path new]
  end.

(** ** Trees (tree.go) and the edit engine (edit.go) *)

(** [type Tree struct { root *Value }] *)
Record Tree : Type := mkTree { root : option Value }.

(** [TreeFromObject(obj)] and [TreeNew()] *)
Definition TreeFromObject (obj : Object) : result Tree :=
  let* r := ValueNew (hObject obj) in Ok (mkTree r).

Definition TreeNew : result Tree := TreeFromObject ObjectNew.

Definition Root (t : Tree) : option Value := root t.

(** [val.AsObject()] *)
Definition AsObject (val : option Value) : result Object :=
  match val with
  | None => Panic nil_deref
  | Some (VObject m s) => Ok (mkObject s m)
  | Some _ => Panic "interface conversion: interface {} is not *data.Object"
  end.

(** [t.at(id)] and [t.find(id)] *)
Definition Tree_at (t : Tree) (id : InstanceID) : result (option Value) :=
  MatchAgainst id (Root t).

Definition Tree_find (t : Tree) (id : InstanceID) : result (option Value * bool) :=
  InstanceID_Find id (Root t).

(** The first loop of [t.assoc]: the queue of parent values and
    selectors from the innermost parent outwards.  Every step shortens
    [path], and [fuel] bounds the number of steps. *)
Fixpoint assoc_queue (fuel : nat) (t : Tree) (path : option InstanceID)
         (sel : option selector) : result (list (option Value * selector)) :=
  match path with
  | None => Ok []
  | Some p =>
      match fuel, sel with
      | O, _ => Panic out_of_fuel
      | _, None => Panic nil_deref
      | S fuel', Some s =>
          let* value := MatchAgainst p (Root t) in
          let* value' :=
            match value with
            | None => createNode s
            | Some _ => Ok value
            end in
          let* rest := assoc_queue fuel' t (InstanceID_path p) (InstanceID_selector p) in
          Ok ((value', s) :: rest)
      end
  end.

Definition bad_assertion : string := "interface conversion: unexpected type".

(** The second loop of [t.assoc]: each parent is rebuilt around [v]. *)
Fixpoint assoc_fold (queue : list (option Value * selector)) (v : option Value)
  : result (option Value) :=
  match queue with
  | [] => Ok v
  | (value, s) :: queue' =>
      let* v1 := modifyMatchCriteria s v in
      let* id := computeIdentifierDefault s value in
      let* r := Perform value
        [onObject (fun o =>
           match id with
           | identString k =>
               let* o' := Object_Assoc o k (hValue v1) in ValueNew (hObject o')
           | _ => Panic bad_assertion
           end);
         onArray (fun a =>
           match id with
           | identInt i =>
               let* a' := Array_Assoc a i (hValue v1) in ValueNew (hArray a')
           | _ => Panic bad_assertion
           end)] in
      let* v2 := unwrap_Value r in
      assoc_fold queue' v2
  end.

(** [t.assoc(i, v)] *)
Definition Tree_assoc (t : Tree) (i : InstanceID) (v : option Value) : result Tree :=
  let* queue := assoc_queue (2 * List.length (ids i) + 1) t
                            (InstanceID_path i) (InstanceID_selector i) in
  let* v' := assoc_fold queue v in
  let* o := AsObject v' in
  TreeFromObject o.

(** [t.Assoc(instanceID, value)] *)
Definition Tree_Assoc (t : Tree) (instanceID : string) (value : host) : result Tree :=
  let* i := InstanceIDNew instanceID in
  let* v := ValueNew value in
  Tree_assoc t i v.

(** [t.delete(i)] *)
Definition Tree_delete (t : Tree) (i : InstanceID) : result Tree :=
  let* vf := InstanceID_Find i (Root t) in
  if negb (snd vf) then Ok t
  else
    match InstanceID_path i, InstanceID_selector i with
    | Some path, Some sel =>
        let* v := MatchAgainst path (Root t) in
        let* id := computeIdentifier sel v in
        let* r := Perform v
          [onObject (fun o =>
             match id with
             | identString k => ValueNew (hObject (Object_Delete o k))
             | _ => Panic bad_assertion
             end);
           onArray (fun a =>
             match id with
             | identInt i => ValueNew (hArray (Array_Delete a i))
             | _ => Panic bad_assertion
             end)] in
        let* v' := unwrap_Value r in
        Tree_assoc t path v'
    | _, _ => Panic nil_deref
    end.

(** [t.Delete(instanceID)] *)
Definition Tree_Delete (t : Tree) (instanceID : string) : result Tree :=
  let* i := InstanceIDNew instanceID in Tree_delete t i.

(** [t.Merge(new)] *)
Definition Tree_Merge (t new : Tree) : result Tree :=
  let* m := Value_Merge (Root t) (Root new) in
  let* o := AsObject m in
  TreeFromObject o.

(** [t.Equal(other)] for another [*Tree] *)
Definition Tree_Equal (t ot : Tree) : result bool := equal (Root t) (Root ot).

(** [t.Diff(other)] *)
Definition Tree_Diff (t other : Tree) : result EditOperation :=
  match Root t with
  | None => Panic nil_deref
  | Some r =>
      let* actions := diff r (Root other) (mkInstanceID []) in
      Ok (mkEditOperation actions)
  end.

(** [e.eval()] applied to a tree, for one entry whose action is known. *)
Definition EditEntry_eval (e : EditEntry) (t : Tree) : result Tree :=
  if String.eqb (Action e) EditAssoc then Tree_assoc t (Path e) (EValue e)
  else if String.eqb (Action e) EditDelete then Tree_delete t (Path e)
  else if String.eqb (Action e) EditMerge then
    let* val := Tree_at t (Path e) in
    let* val' := Value_Merge val (EValue e) in
    Tree_assoc t (Path e) val'
  else Panic ("unknown edit-action " ++ Action e).

Definition known_action (e : EditEntry) : bool :=
  String.eqb (Action e) EditAssoc || String.eqb (Action e) EditDelete
  || String.eqb (Action e) EditMerge.

(** [t.Edit(edit)]: [edit.eval()] turns every entry into a function
    first, which panics on an unknown action, and then applies them in
    order. *)
Definition Tree_Edit (t : Tree) (edit : EditOperation) : result Tree :=
  match filter (fun e => negb (known_action e)) (Actions edit) with
  | e :: _ => Panic ("unknown edit-action " ++ Action e)
  | [] =>
      fold_left (fun (r : result Tree) (e : EditEntry) =>
                   let* t' := r in EditEntry_eval e t')
                (Actions edit) (Ok t)
  end.

(** ** Marshalling (value.go, array.go, object.go, tree.go) *)

(** The [Range] loop of [arr.marshalRFC7951] from index [i] on, over
    the marshaller [rec] of one value; [n] is [arr.Length()]. *)
Definition marshal_elements (rec : Value -> result string) (n : nat)
  : list (option Value) -> nat -> result string :=
  fix go (l : list (option Value)) (i : nat) : result string :=
    match l with
    | [] => Ok EmptyString
    | None :: _ => Panic nil_deref
    | Some v :: l' =>
        let* s := rec v in
        let* rest := go l' (S i) in
        Ok (s ++ (if Nat.ltb i (Nat.pred n) then "," else "") ++ rest)
    end.

(** The key [obj.marshalRFC7951] writes for the stored key [k] of an
    object of module [omodule] when the context is [module]. *)
Definition marshal_key (omodule module k : string) : string :=
  let (mod_, key) := parseKey omodule k in
  if String.eqb mod_ module then key else k.

(** The [Range] loop of [obj.marshalRFC7951] from its [i]-th pair on. *)
Definition marshal_members (rec : Value -> string -> result string)
           (omodule module : string) (n : nat)
  : list (string * Value) -> nat -> result string :=
  fix go (l : list (string * Value)) (i : nat) : result string :=
    match l with
    | [] => Ok EmptyString
    | (k, v) :: l' =>
        let* s := rec v (fst (parseKey omodule k)) in
        let* rest := go l' (S i) in
        Ok (quoted (marshal_key omodule module k) ++ ":" ++ s
            ++ (if Nat.ltb i (Nat.pred n) then "," else "") ++ rest)
    end.

(** [val.marshalRFC7951(buf, module)]: what it appends to [buf]. *)
Fixpoint marshalRFC7951 (val : Value) (module : string) : result string :=
  match val with
  | VArray _ store =>
      let* body := marshal_elements (fun v => marshalRFC7951 v module)
                                    (List.length store) store 0%nat in
      Ok ("[" ++ body ++ "]")
  | VObject omodule store =>
      let* body := marshal_members marshalRFC7951 omodule module
                                   (List.length store) store 0%nat in
      Ok ("{" ++ body ++ "}")
  | VUint64 _ | VInt64 _ | VFloat64 _ | VString _ =>
      let* s := RFC7951String val in Ok (quoted s)
  | _ => RFC7951String val
  end.

(** [t.MarshalRFC7951()] *)
Definition Tree_MarshalRFC7951 (t : Tree) : result string :=
  match Root t with
  | None => Panic nil_deref
  | Some r => marshalRFC7951 r EmptyString
  end.

(** ** Unmarshalling (value.go, array.go, object.go, tree.go) *)

(** [rfc7951.Unmarshal] into a list and into a map of raw messages; the
    package ignores the error it returns. *)
Variable rawElements : string -> list string.
Variable rawMembers : string -> list (string * string).

(** The quoted-scalar case of [val.unmarshalRFC7951] after
    [strconv.Unquote]:
    the datum that [val.data] holds when the function returns. *)
Definition unmarshal_quoted (item : string) : Value :=
  match item with
  | EmptyString => VString item
  | String c rest =>
      if Ascii.eqb c "-" && (2 <=? Go.len item) then
        match rest with
        | String n _ =>
            if negb (Go.IsDigit n) then VString item
            else
              let parse_int (data : Value) :=
                match Go.ParseInt item 64 with
                | None => VString item
                | Some i => VInt64 i
                end in
              if Go.ContainsRune item "." then
                match ParseFloat item with
                | None => VString item
                | Some f => parse_int (VFloat64 f)
                end
              else parse_int VNull
        | EmptyString => VString item
        end
      else if Ascii.eqb c "+" && (2 <=? Go.len item) then
        match rest with
        | String n _ =>
            if negb (Go.IsDigit n) then VString item
            else
              let parse_uint (data : Value) :=
                match Go.ParseUint rest 64 with
                | None => VString item
                | Some i => VUint64 i
                end in
              if Go.ContainsRune item "." then
                match ParseFloat rest with
                | None => VString item
                | Some f => parse_uint (VFloat64 f)
                end
              else parse_uint VNull
        | EmptyString => VString item
        end
      else if Go.IsDigit c then
        let parse_uint (data : Value) :=
          match Go.ParseUint item 64 with
          | None => VString item
          | Some i => VUint64 i
          end in
        if Go.ContainsRune item "." then
          match ParseFloat item with
          | None => VString item
          | Some f => parse_uint (VFloat64 f)
          end
        else parse_uint VNull
      else VString item
  end.

(** The loop of [obj.unmarshalRFC7951] over the raw members, with the
    unmarshaller [rec] of a fresh value given a message and a module. *)
Definition unmarshal_members
           (rec : string -> string -> result (Value * option string))
           (module : string)
  : list (string * string) -> list (string * Value) ->
    result (list (string * Value)) :=
  fix go (l : list (string * string)) (store : list (string * Value)) :=
    match l with
    | [] => Ok store
    | (k, v) :: l' =>
        let* r := rec v (fst (parseKey module k)) in
        let* kv := Object_adaptValue (mkObject [] module) k (Some (fst r)) in
        go l' (store_Assoc (fst kv) (snd kv) store)
    end.

(** The loop of [arr.unmarshalRFC7951] over the raw elements. *)
Definition unmarshal_elements
           (rec : string -> string -> result (Value * option string))
           (module : string)
  : list string -> result (list (option Value)) :=
  fix go (l : list string) :=
    match l with
    | [] => Ok []
    | v :: l' =>
        let* r := rec v module in
        let* val := Array_adaptValue (mkArray [] module) (Some (fst r)) in
        let* rest := go l' in
        Ok (Some val :: rest)
    end.

(** [val.unmarshalRFC7951(msg, module, strs, vals)] for a [val] whose
    datum is [data]: the datum afterwards and the error, if any.  The
    interners hand back a value with the same datum and are left out.
    [fuel] bounds the nesting of the message. *)
Fixpoint unmarshalRFC7951 (fuel : nat) (data : Value) (msg module : string)
  : result (Value * option string) :=
  match fuel with
  | O => Panic out_of_fuel
  | S fuel' =>
      match msg with
      | EmptyString => Ok (data, None)
      | String c _ =>
          if Ascii.eqb c "{" then
            let* store := unmarshal_members (unmarshalRFC7951 fuel' VNull) module
                                            (rawMembers msg) [] in
            Ok (VObject module store, None)
          else if Ascii.eqb c "[" then
            let* store := unmarshal_elements (unmarshalRFC7951 fuel' VNull) module
                                             (rawElements msg) in
            let arr := mkArray store module in
            let* is_empty :=
              (if Array_Length arr =? 1 then
                 let* a0 := Array_At arr 0 in
                 let* null := ValueNew hNil in
                 equal a0 null
               else Ok false) in
            if is_empty then Ok (Empty, None) else Ok (ofArray arr, None)
          else if Ascii.eqb c "n" then Ok (VNull, None)
          else if Ascii.eqb c "t" || Ascii.eqb c "f" then Ok (VBool (Ascii.eqb c "t"), None)
          else if Ascii.eqb c Go.DQUOTE then
            match Go.Unquote msg with
            | None => Ok (data, Some "invalid syntax")
            | Some item => Ok (unmarshal_quoted item, None)
            end
          else if Ascii.eqb c "-" then
            match Go.ParseInt msg 32 with
            | None => Ok (data, Some "strconv.ParseInt: parsing failed")
            | Some i => Ok (VInt32 i, None)
            end
          else
            match Go.ParseUint msg 32 with
            | None => Ok (data, Some "strconv.ParseUint: parsing failed")
            | Some i => Ok (VUint32 i, None)
            end
      end
  end.

(** [val.UnmarshalRFC7951(msg)] *)
Definition Value_UnmarshalRFC7951 (data : Value) (msg : string)
  : result (Value * option string) :=
  unmarshalRFC7951 (S (String.length msg)) data msg EmptyString.

(** [t.UnmarshalRFC7951(msg)]: the tree afterwards and the error. *)
Definition Tree_UnmarshalRFC7951 (t : Tree) (msg : string)
  : result (Tree * option string) :=
  let* r :=
    match root t with
    | None => ValueNew (hObject ObjectNew)
    | Some _ => Ok (root t)
    end in
  match r with
  | None => Panic nil_deref
  | Some data =>
      let* de := Value_UnmarshalRFC7951 data msg in
      Ok (mkTree (Some (fst de)), snd de)
  end.

(** ** Values that the decoder hands back as they are *)

(** A string opens like a number when it begins with a digit, or with a
    sign and then a digit. *)
Definition numeric_lead (s : string) : bool :=
  match s with
  | EmptyString => false
  | String c rest =>
      Go.IsDigit c
      || ((Ascii.eqb c "-" || Ascii.eqb c "+")
          && match rest with String n _ => Go.IsDigit n | EmptyString => false end)
  end.

(** The stored key [k] of an object of module [module] is written and
    read back as the same key of the same module. *)
Definition key_stable (module k : string) : bool :=
  let k' := marshal_key module module k in
  String.eqb (adaptKey module k') k
  && String.eqb (fst (parseKey module k')) (fst (parseKey module k)).

Fixpoint distinct_keys (l : list (string * Value)) : bool :=
  match l with
  | [] => true
  | (k, _) :: l' => negb (store_Contains k l') && distinct_keys l'
  end.

(** The values in the form the decoder itself produces in the context
    of [module]: negative integers as [int32] or [int64], the others as
    [uint32] or [uint64], strings that do not open like a number, no
    [float64] and no instance-identifier; arrays other than the single
    [null], without nil slots; containers of the module of their
    context, with keys that are read back as they are. *)
Fixpoint stable (module : string) (val : Value) : bool :=
  match val with
  | VNull | VEmpty | VBool _ => true
  | VInt32 i => (- 2 ^ 31 <=? i) && (i <? 0)
  | VUint32 i => (0 <=? i) && (i <? 2 ^ 32)
  | VInt64 i => (- 2 ^ 63 <=? i) && (i <? 0)
  | VUint64 i => (0 <=? i) && (i <? 2 ^ 64)
  | VFloat64 _ | VInstanceID _ => false
  | VString s => negb (numeric_lead s)
  | VArray m store =>
      String.eqb m module
      && match store with [Some VNull] => false | _ => true end
      && (fix all (l : list (option Value)) : bool :=
            match l with
            | [] => true
            | Some v :: l' => stable module v && all l'
            | None :: _ => false
            end) store
  | VObject m store =>
      String.eqb m module
      && distinct_keys store
      && (fix all (l : list (string * Value)) : bool :=
            match l with
            | [] => true
            | (k, v) :: l' =>
                key_stable module k && stable (fst (parseKey module k)) v && all l'
            end) store
  end.

(** The text [marshalRFC7951] writes for [val]. *)
Definition text (val : Value) (module : string) : string :=
  match marshalRFC7951 val module with
  | Ok s => s
  | Panic _ => EmptyString
  end.


(** Text made of decimal digits only. *)
Fixpoint all_digits (s : string) : bool :=
  match s with
  | EmptyString => true
  | String c s' => Go.IsDigit c && all_digits s'
  end.

(** The keys of a store, which a hash map holds once each. *)
Definition keys {V : Type} (s : list (string * V)) : list string := map fst s.

(** ** Numeric access (value.go) *)

(** The conversion of a [float64] to the integer type [t], which Go
    leaves to the implementation outside the range of [t]. *)
Variable floatToInt : rtype -> float -> Z.

(** [reflect.ValueOf(v).Convert(t).Interface()] for an integer type
    [t], as [convertToInt32], [convertToUint32], [convertToInt64] and
    [convertToUint64] call it on a stored datum: numbers are converted
    as Go converts them, the nil interface has no [reflect.Value] to
    convert, and no other datum converts to an integer. *)
Definition convertTo (t : rtype) (v : Value) : result Z :=
  let wrap :=
    match t with
    | tInt32 => wrap_signed 32
    | tUint32 => wrap_unsigned 32
    | tInt64 => wrap_signed 64
    | _ => wrap_unsigned 64
    end in
  match v with
  | VInt32 i | VUint32 i | VInt64 i | VUint64 i => Ok (wrap i)
  | VFloat64 f => Ok (floatToInt t f)
  | VNull => Panic "reflect: call of reflect.Value.Convert on zero Value"
  | _ => Panic "reflect.Value.Convert: value cannot be converted"
  end.

(** [reflect.TypeOf(val.data).ConvertibleTo(t)] for an integer type
    [t]: the numeric types convert; the method is called on the nil
    [reflect.Type] when the datum is nil. *)
Definition ConvertibleTo (val : Value) : result bool :=
  match val with
  | VNull => Panic nil_deref
  | VInt32 _ | VUint32 _ | VInt64 _ | VUint64 _ | VFloat64 _ => Ok true
  | _ => Ok false
  end.

Definition default_or_zero (defaultVal : list Z) : Z :=
  match defaultVal with
  | d :: _ => d
  | [] => 0
  end.

(** [val.AsT()], [val.IsT()] and [val.ToT(defaultVal...)] for the
    integer type [t]. *)
Definition AsInteger (t : rtype) (val : Value) : result Z := convertTo t val.

Definition IsInteger (t : rtype) (val : Value) : bool :=
  canConvertNumeric (TypeOf val) t val.

Definition ToInteger (t : rtype) (val : Value) (defaultVal : list Z) : result Z :=
  let* c := ConvertibleTo val in
  if c then convertTo t val else Ok (default_or_zero defaultVal).

(** [AsInt32], [IsInt32], [ToInt32] and their like *)
Definition AsInt32 := AsInteger tInt32.
Definition IsInt32 := IsInteger tInt32.
Definition ToInt32 := ToInteger tInt32.
Definition AsUint32 := AsInteger tUint32.
Definition IsUint32 := IsInteger tUint32.
Definition ToUint32 := ToInteger tUint32.
Definition AsInt64 := AsInteger tInt64.
Definition IsInt64 := IsInteger tInt64.
Definition ToInt64 := ToInteger tInt64.
Definition AsUint64 := AsInteger tUint64.
Definition IsUint64 := IsInteger tUint64.
Definition ToUint64 := ToInteger tUint64.

(** The integer a value holds, and that it lies in the range of the
    type it is held in. *)
Definition integer_of (val : Value) : option Z :=
  match val with
  | VInt32 i | VUint32 i | VInt64 i | VUint64 i => Some i
  | _ => None
  end.

Definition in_type_range (val : Value) : Prop :=
  match val with
  | VInt32 i => - 2 ^ 31 <= i < 2 ^ 31
  | VUint32 i => 0 <= i < 2 ^ 32
  | VInt64 i => - 2 ^ 63 <= i < 2 ^ 63
  | VUint64 i => 0 <= i < 2 ^ 64
  | _ => True
  end.

Definition integer_type (t : rtype) : bool :=
  match t with
  | tInt32 | tUint32 | tInt64 | tUint64 => true
  | _ => false
  end.

(** ** Other typed access (value.go) *)

(** [val.IsObject()] *)
Definition IsObject (val : Value) : bool :=
  match val with VObject _ _ => true | _ => false end.

(** No slot of an array in [val] holds the nil interface. *)
Fixpoint no_nil (val : Value) : bool :=
  match val with
  | VArray _ store =>
      (fix all (l : list (option Value)) : bool :=
         match l with
         | [] => true
         | Some v :: l' => no_nil v && all l'
         | None :: _ => false
         end) store
  | VObject _ store =>
      (fix all (l : list (string * Value)) : bool :=
         match l with
         | [] => true
         | (_, v) :: l' => no_nil v && all l'
         end) store
  | _ => true
  end.

(** The nodes of an identifier as [InstanceID.parse] leaves them:
    prefix and identifier pass [checkIDPart], and a prefix counts as
    inferred exactly when it is the prefix of the node before;
    [prefix0] is the prefix before the first node. *)
Fixpoint well_named (prefix0 : string) (l : list nodeID) : Prop :=
  match l with
  | [] => True
  | n :: l' =>
      checkIDPart (prefix n) = Ok tt
      /\ checkIDPart (identifier n) = Ok tt
      /\ prefixInferred n = String.eqb (prefix n) prefix0
      /\ well_named (prefix n) l'
  end.

(** A node without predicates whose prefix and identifier are not
    empty. *)
Definition plain_node (n : nodeID) : Prop :=
  predicates n = None /\ prefix n <> EmptyString /\ identifier n <> EmptyString.

(** The runes [checkIDPart] lets through after the first. *)
Definition id_rune (r : ascii) : bool :=
  isAlphaNumeric r || Ascii.eqb r "-" || Ascii.eqb r ".".

Fixpoint all_runes (f : ascii -> bool) (s : string) : bool :=
  match s with
  | EmptyString => true
  | String c s' => f c && all_runes f s'
  end.

(** The runes at which [getNodeIDStrings] does not cut or change
    state. *)
Definition no_cut (r : ascii) : bool :=
  negb (Ascii.eqb r "/") && negb (Ascii.eqb r Go.SQUOTE) && negb (Ascii.eqb r Go.DQUOTE).

(** The values [Equal] can compare with themselves: no [float64] that
    differs from itself, and no object with a key twice. *)
Fixpoint comparable (val : Value) : bool :=
  match val with
  | VFloat64 f => PrimFloat.eqb f f
  | VArray _ store =>
      (fix all (l : list (option Value)) : bool :=
         match l with
         | [] => true
         | Some v :: l' => comparable v && all l'
         | None :: l' => all l'
         end) store
  | VObject _ store =>
      distinct_keys store
      && (fix all (l : list (string * Value)) : bool :=
            match l with
            | [] => true
            | (_, v) :: l' => comparable v && all l'
            end) store
  | _ => true
  end.

(** ** Objects whose members are leaves *)

Definition is_leaf (val : Value) : bool :=
  match val with
  | VObject _ _ | VArray _ _ => false
  | _ => true
  end.

(** A key [prefix:identifier] whose two parts are not empty and pass
    [checkIDPart]. *)
Definition member_key (k : string) : Prop :=
  exists p i,
    k = p ++ ":" ++ i
    /\ p <> EmptyString /\ i <> EmptyString
    /\ checkIDPart p = Ok tt /\ checkIDPart i = Ok tt.

(** The store of an object of leaves: each key once, every key a
    member key, every value a leaf that [Equal] can compare. *)
Definition flat (s : list (string * Value)) : Prop :=
  NoDup (keys s)
  /\ Forall (fun kv => member_key (fst kv)
                       /\ is_leaf (snd kv) = true
                       /\ comparable (snd kv) = true) s.

(** The node that [push] parses from a member key. *)
Definition node_of_key (k : string) : nodeID :=
  match Go.SplitN2 k ":" with
  | [p; i] => NodeID p i false None
  | _ => NodeID EmptyString k false None
  end.

(** A change of one member of the root, [Some v] to associate [v] and
    [None] to delete, and the entry that stands for it. *)
Definition member_entry (ka : string * option Value) : EditEntry :=
  mkEditEntry (match snd ka with Some _ => EditAssoc | None => EditDelete end)
              (mkInstanceID [node_of_key (fst ka)]) (snd ka).

Definition changes_of (g : string -> Value -> option (option Value))
           (s : list (string * Value)) : list (string * option Value) :=
  flat_map (fun kv => match g (fst kv) (snd kv) with
                      | Some a => [(fst kv, a)]
                      | None => []
                      end) s.

(** What [Diff] lists between two flat stores: for the keys of the old
    store a new value or a deletion, then the keys only the new store
    has. *)
Definition old_change (sb : list (string * Value)) (k : string) (v : Value)
  : option (option Value) :=
  match store_Find k sb with
  | Some v2 => if Value_Equal v v2 then None else Some (Some v2)
  | None => Some None
  end.

Definition new_change (sa : list (string * Value)) (k : string) (v2 : Value)
  : option (option Value) :=
  if store_Contains k sa then None else Some (Some v2).

Definition flat_changes (sa sb : list (string * Value)) : list (string * option Value) :=
  (changes_of (old_change sb) sa ++ changes_of (new_change sa) sb)%list.

(** The changes applied to a store, one after the other. *)
Fixpoint apply_changes (acts : list (string * option Value))
         (s : list (string * Value)) : list (string * Value) :=
  match acts with
  | [] => s
  | (k, Some v) :: acts' => apply_changes acts' (store_Assoc k v s)
  | (k, None) :: acts' => apply_changes acts' (store_Delete k s)
  end.

(** ** Data the statements below are made about *)




(** U+00E9, a letter for [unicode.IsLetter] that is not in [ALPHA]. *)
Definition e_acute : ascii := "233"%char.

(** The canonical form of the repository's own examples: single quotes,
    no white space inside predicates, no prefix that repeats the one
    before. *)
Definition canonical (s : string) : result string :=
  let* i := InstanceIDNew s in Ok (InstanceID_String i).

(** The trees [{"m:l": [1, 2, 3]}] and [{"m:l": [1]}], as [ValueNew]
    builds them from native data. *)
Definition tree_123 : Tree :=
  mkTree (Some (VObject EmptyString
    [("m:l", VArray "m" [Some (VUint32 1); Some (VUint32 2); Some (VUint32 3)])])).
Definition tree_1 : Tree :=
  mkTree (Some (VObject EmptyString [("m:l", VArray "m" [Some (VUint32 1)])])).
Definition tree_13 : Tree :=
  mkTree (Some (VObject EmptyString
    [("m:l", VArray "m" [Some (VUint32 1); Some (VUint32 3)])])).

Definition path_l (pos : Z) : InstanceID :=
  mkInstanceID [NodeID "m" "l" false (Some [posPredicate pos])].

(** A tree with one leaf, a string that reads as a number. *)
Definition tree_string_1 : Tree :=
  mkTree (Some (VObject EmptyString [("m:a", VString "1")])).


(** A stable value with leaves of every stable kind, an array and an
    object of another module than the root's. *)
Definition stable_root : Value :=
  VObject EmptyString
    [("m:name", VString "eth 0");
     ("m:mtu", VUint32 1500);
     ("m:offset", VInt32 (-3));
     ("m:octets", VUint64 5000000000);
     ("m:up", VEmpty);
     ("m:tags", VArray "m" [Some (VString "a"); Some (VBool true)]);
     ("m:peer", VObject "m" [("m:id", VNull); ("n:cost", VInt64 (-7))])].

(** * Properties *)

(** ** Integers given to [ValueNew] *)

Lemma wrap_signed_id (bits i : Z) :
  0 < bits -> - 2 ^ (bits - 1) <= i < 2 ^ (bits - 1) -> wrap_signed bits i = i.
Proof.
  intros Hb Hi. unfold wrap_signed.
  assert (H2 : 2 ^ bits = 2 * 2 ^ (bits - 1)).
  { replace bits with (Z.succ (bits - 1)) at 1 by lia.
    rewrite Z.pow_succ_r by lia. reflexivity. }
  rewrite Z.mod_small by lia. lia.
Qed.

Lemma wrap_unsigned_id (bits i : Z) :
  0 <= i < 2 ^ bits -> wrap_unsigned bits i = i.
Proof. intros Hi. unfold wrap_unsigned. apply Z.mod_small. exact Hi. Qed.



(** ** Booleans and the empty leaf *)

(** C10.  On the [Empty] value, [AsBoolean], [IsBoolean] and [ToBoolean]
    answer [true], whatever default [ToBoolean] was given, although
    [Empty] does not hold a [bool]. *)
Theorem Empty_reads_as_true :
  AsBoolean Empty = Ok true
  /\ IsBoolean Empty = true
  /\ (forall defaultVal, ToBoolean Empty defaultVal = true)
  /\ (forall b, Empty <> VBool b)
  /\ TypeOf Empty = tEmpty.
Proof.
  repeat split; try reflexivity.
  intros b H. discriminate H.
Qed.

(** ** Dispatch by [Perform] *)

Lemma Perform_loop_skip {R : Type} (val : Value) (fn : handler R) (fns : list (handler R))
      (inputType : rtype) :
  inputs fn = [inputType] -> Perform_case val inputType = Ok None ->
  Perform_loop val (fn :: fns) = Perform_loop val fns.
Proof. intros Hi Hc. simpl. rewrite Hi, Hc. reflexivity. Qed.

Lemma Perform_loop_hit {R : Type} (val : Value) (fn : handler R) (fns : list (handler R))
      (inputType : rtype) (a : arg) :
  inputs fn = [inputType] -> Perform_case val inputType = Ok (Some a) ->
  Perform_loop val (fn :: fns) = (let* r := body fn a in Ok (Some r)).
Proof. intros Hi Hc. simpl. rewrite Hi, Hc. reflexivity. Qed.

Lemma Perform_loop_not_unary {R : Type} (val : Value) (fn : handler R)
      (fns : list (handler R)) :
  List.length (inputs fn) <> 1%nat ->
  Perform_loop val (fn :: fns) = Perform_loop val fns.
Proof.
  intros Hn. simpl. destruct (inputs fn) as [|t [|t' l]]; try reflexivity.
  exfalso. apply Hn. reflexivity.
Qed.

(** A value that is not null is matched by a handler over [interface{}]
    and by one over [*Value], directly by a handler over its own type,
    and by a handler over the integer type of the same width and the
    other signedness exactly when the integer fits. *)
Lemma Perform_case_not_null (val : Value) :
  val <> VNull ->
  Perform_case val tInterface = Ok (Some (aData val))
  /\ Perform_case val tValue = Ok (Some (aCell val))
  /\ Perform_case val tRFCString
     = (let* s := RFC7951String val in Ok (Some (aString s)))
  /\ Perform_case val (TypeOf val) = Ok (Some (aData val)).
Proof.
  intros Hn. destruct val; try congruence; repeat split; reflexivity.
Qed.

Lemma Perform_case_numeric (i : Z) :
  Perform_case (VUint32 i) tInt32
  = Ok (if i <=? 2 ^ 31 - 1 then Some (aData (VInt32 (wrap_signed 32 i))) else None)
  /\ Perform_case (VInt32 i) tUint32
     = Ok (if 0 <=? i then Some (aData (VUint32 (wrap_unsigned 32 i))) else None)
  /\ Perform_case (VUint64 i) tInt64
     = Ok (if i <=? 2 ^ 63 - 1 then Some (aData (VInt64 (wrap_signed 64 i))) else None)
  /\ Perform_case (VInt64 i) tUint64
     = Ok (if 0 <=? i then Some (aData (VUint64 (wrap_unsigned 64 i))) else None).
Proof.
  unfold Perform_case, canConvertNumeric; simpl.
  repeat split.
  - destruct (i <=? 2147483647); reflexivity.
  - destruct (0 <=? i); reflexivity.
  - destruct (i <=? 9223372036854775807); reflexivity.
  - destruct (0 <=? i); reflexivity.
Qed.

(** C5.  On the null value the first case of the [switch] of [Perform]
    is taken for every handler, so only a handler over [interface{}]
    becomes the action: a handler over [*Value] and a handler over
    [String] are passed by, and with no other handler the result is the
    nil interface. *)
Theorem Perform_null_passes_Value_and_String_handlers
        (R : Type) (f h : Value -> result R) (g : string -> result R) :
  Perform (Some VNull) [onValue f] = Ok None
  /\ Perform (Some VNull) [onString g] = Ok None
  /\ Perform (Some VNull) [onValue f; onString g; onInterface h]
     = (let* r := h VNull in Ok (Some r))
  /\ (forall v, v <> VNull ->
        Perform (Some v) [onValue f; onInterface h] = (let* r := f v in Ok (Some r))).
Proof.
  repeat split; try reflexivity.
  intros v Hv. destruct v; try congruence; reflexivity.
Qed.

(** ** Quoted scalars *)

Lemma IsDigit_not_dot (c : ascii) : Go.IsDigit c = true -> Ascii.eqb c "." = false.
Proof.
  intros Hd. destruct (Ascii.eqb_spec c "."); [subst c; discriminate Hd | reflexivity].
Qed.

Lemma digits_value_dot (s : string) (acc : Z) :
  Go.ContainsRune s "." = true -> Go.digits_value acc s = None.
Proof.
  revert acc. induction s as [|c s IH]; intros acc H; simpl in *.
  - discriminate H.
  - destruct (Go.IsDigit c) eqn:Hd; [|reflexivity].
    rewrite (IsDigit_not_dot c Hd) in H. simpl in H. apply IH. exact H.
Qed.

Lemma ParseUint_dot (s : string) (bits : Z) :
  Go.ContainsRune s "." = true -> Go.ParseUint s bits = None.
Proof.
  intros H. unfold Go.ParseUint. destruct s; [reflexivity|].
  rewrite digits_value_dot by exact H. reflexivity.
Qed.

Lemma ParseInt_dot (s : string) (bits : Z) :
  Go.ContainsRune s "." = true -> Go.ParseInt s bits = None.
Proof.
  intros H. unfold Go.ParseInt. destruct s as [|c s]; [reflexivity|].
  destruct (Ascii.eqb c "+" || Ascii.eqb c "-") eqn:Hs.
  - assert (Hc : Ascii.eqb c "." = false).
    { destruct (Ascii.eqb_spec c "."); [subst c; discriminate Hs | reflexivity]. }
    simpl in H. rewrite Hc in H. simpl in H.
    destruct s; [discriminate H|].
    rewrite digits_value_dot by exact H. reflexivity.
  - rewrite digits_value_dot by exact H. reflexivity.
Qed.

(** C3.  A quoted scalar whose content holds a ['.'] is never decoded
    into a [float64]: where [strconv.ParseFloat] succeeds the function
    goes on to the integer parse, which fails on the ['.'], and the value
    holds the raw string. *)
Theorem unmarshal_quoted_dot_keeps_string (item : string) :
  Go.ContainsRune item "." = true -> unmarshal_quoted item = VString item.
Proof.
  intros H. unfold unmarshal_quoted.
  destruct item as [|c rest]; [reflexivity|].
  assert (Hi : Go.ParseInt (String c rest) 64 = None) by (apply ParseInt_dot; exact H).
  assert (Hu : Go.ParseUint (String c rest) 64 = None) by (apply ParseUint_dot; exact H).
  destruct (Ascii.eqb c "-" && (2 <=? Go.len (String c rest))) eqn:Hm.
  - destruct rest as [|n rest']; [reflexivity|].
    destruct (negb (Go.IsDigit n)); [reflexivity|].
    rewrite H, Hi. destruct (ParseFloat (String c (String n rest'))); reflexivity.
  - destruct (Ascii.eqb c "+" && (2 <=? Go.len (String c rest))) eqn:Hp.
    + destruct rest as [|n rest']; [reflexivity|].
      destruct (negb (Go.IsDigit n)); [reflexivity|].
      rewrite H.
      assert (Hr : Go.ParseUint (String n rest') 64 = None).
      { apply ParseUint_dot. apply andb_prop in Hp. destruct Hp as [Hp _].
        destruct (Ascii.eqb_spec c "+"); [subst c|discriminate Hp].
        simpl in H. exact H. }
      rewrite Hr. destruct (ParseFloat (String n rest')); reflexivity.
    + destruct (Go.IsDigit c); [|reflexivity].
      rewrite H, Hu. destruct (ParseFloat (String c rest)); reflexivity.
Qed.

(** ** Padding by [Array.Assoc] *)

Lemma vector_Assoc_app {A : Type} (l r : list A) (n : nat) (x : A) :
  vector_Assoc (List.length l + n) x (l ++ r) = (l ++ vector_Assoc n x r)%list.
Proof.
  induction l as [|y l IH]; simpl; [reflexivity|]. rewrite IH. reflexivity.
Qed.

Lemma vector_Assoc_last {A : Type} (n : nat) (x y : A) :
  vector_Assoc n x (repeat y (S n)) = (repeat y n ++ [x])%list.
Proof.
  induction n as [|n IH]; [reflexivity|].
  simpl in *. f_equal. exact IH.
Qed.

Lemma nth_error_padding {A : Type} (l r : list A) (k j : nat) (y : A) :
  (j < k)%nat ->
  nth_error (l ++ repeat y k ++ r) (List.length l + j) = Some y.
Proof.
  intros Hj. rewrite nth_error_app2 by lia.
  replace (List.length l + j - List.length l)%nat with j by lia.
  rewrite nth_error_app1 by (rewrite repeat_length; exact Hj).
  apply nth_error_repeat. exact Hj.
Qed.

(** C9.  [a.Assoc(i, v)] with [i >= a.Length()] returns an array of
    length [i+1] that keeps the slots of [a], holds the adapted [v] at
    [i], and holds in every slot from [a.Length()] to [i-1] the nil
    interface that [Append(nil)] stored, not a [*Value] whose datum is
    nil: [At] panics on such a slot. *)
Theorem Array_Assoc_pads_with_nil_interface
        (arr : Array) (index : Z) (value : host) (v : Value) :
  Array_Length arr <= index ->
  (let* val := ValueNew value in Array_adaptValue arr val) = Ok v ->
  exists arr',
    Array_Assoc arr index value = Ok arr'
    /\ a_store arr'
       = (a_store arr ++ repeat None (Z.to_nat (index - Array_Length arr))
                      ++ [Some v])%list
    /\ Array_Length arr' = index + 1
    /\ (forall j, Array_Length arr <= j < index ->
          nth_error (a_store arr') (Z.to_nat j) = Some None
          /\ nth_error (a_store arr') (Z.to_nat j) <> Some (Some VNull)
          /\ Array_At arr' j = Panic nil_conversion).
Proof.
  intros Hlen Hv. unfold Array_Length in *.
  set (n := List.length (a_store arr)) in *.
  set (k := Z.to_nat (index - Z.of_nat n)).
  assert (Hidx : Z.to_nat index = (n + k)%nat) by (unfold k; lia).
  assert (Hstore : vector_Assoc (Z.to_nat index) (Some v) (pad_to (a_store arr) index)
                   = (a_store arr ++ repeat None k ++ [Some v])%list).
  { unfold pad_to. fold n.
    replace (Z.to_nat (index + 1 - Z.of_nat n)) with (S k) by (unfold k; lia).
    rewrite Hidx. unfold n. rewrite vector_Assoc_app.
    rewrite vector_Assoc_last. reflexivity. }
  exists (mkArray (a_store arr ++ repeat None k ++ [Some v]) (a_module arr)).
  assert (Hl : List.length (a_store arr ++ repeat None k ++ [Some v])%list = (n + k + 1)%nat).
  { rewrite !length_app, repeat_length. simpl. fold n. lia. }
  repeat split.
  - unfold Array_Assoc, Array_Length. fold n.
    destruct (Z.leb_spec (Z.of_nat n) index); [|lia].
    destruct (ValueNew value) as [val|m]; simpl in Hv; [|discriminate Hv].
    simpl. rewrite Hv. simpl.
    destruct (Z.ltb_spec index 0); [lia|].
    rewrite Hstore. reflexivity.
  - simpl. rewrite Hl. unfold k. lia.
  - simpl. replace (Z.to_nat j) with (n + Z.to_nat (j - Z.of_nat n))%nat by lia.
    unfold n. apply nth_error_padding. fold n. unfold k. lia.
  - simpl. replace (Z.to_nat j) with (n + Z.to_nat (j - Z.of_nat n))%nat by lia.
    unfold n. rewrite nth_error_padding by (fold n; unfold k; lia).
    intros Hc. discriminate Hc.
  - unfold Array_At, Array_Length. simpl. rewrite Hl.
    destruct (Z.leb_spec (Z.of_nat (n + k + 1)) j); [unfold k in *; lia|].
    destruct (Z.ltb_spec j 0); [lia|]. simpl.
    replace (Z.to_nat j) with (n + Z.to_nat (j - Z.of_nat n))%nat by lia.
    unfold n. rewrite nth_error_padding by (fold n; unfold k; lia).
    reflexivity.
Qed.

(** [Assoc] two slots past the end of the empty array, next to what
    [Append(nil)] stores. *)
Example Array_Assoc_past_the_end :
  Array_Assoc ArrayNew 2 (hString "x")
  = Ok (mkArray [None; None; Some (VString "x")] EmptyString)
  /\ Array_At (mkArray [None; None; Some (VString "x")] EmptyString) 0
     = Panic nil_conversion
  /\ Array_Append ArrayNew hNil = Ok (mkArray [Some VNull] EmptyString).
Proof. repeat split; reflexivity. Qed.

(** ** Instance identifiers: parsing and printing *)

Lemma snoc_not_empty (s : string) (c : ascii) : snoc s c <> EmptyString.
Proof. destruct s; discriminate. Qed.

Lemma nodeIDStrings_loop_first (s : string) :
  forall q1 q2 cur, cur <> EmptyString ->
    exists x out, fst (nodeIDStrings_loop s q1 q2 cur) = x :: out /\ x <> EmptyString.
Proof.
  induction s as [|r s IH]; intros q1 q2 cur Hc.
  - exists cur, []. cbn. destruct cur; [congruence|]. split; [reflexivity|exact Hc].
  - cbn [nodeIDStrings_loop].
    destruct (Ascii.eqb r Go.SQUOTE); [apply IH, snoc_not_empty|].
    destruct (Ascii.eqb r Go.DQUOTE); [apply IH, snoc_not_empty|].
    destruct (Ascii.eqb r "/"); [|apply IH, snoc_not_empty].
    destruct (negb q2 && negb q1); [|apply IH, snoc_not_empty].
    destruct (nodeIDStrings_loop s q1 q2 EmptyString) as [out q].
    exists cur, out. split; [reflexivity|exact Hc].
Qed.

(** An input that is parsed starts with ['/']. *)
Lemma InstanceIDNew_leading_slash (input : string) (i : InstanceID) :
  InstanceIDNew input = Ok i -> exists rest, input = String "/" rest.
Proof.
  unfold InstanceIDNew, InstanceID_parse, getNodeIDStrings.
  destruct input as [|r s]; [discriminate|].
  destruct (Ascii.eqb_spec r "/") as [->|Hr]; [intros _; exists s; reflexivity|].
  intros H. exfalso.
  assert (Hf : exists x out,
             fst (nodeIDStrings_loop (String r s) false false EmptyString) = x :: out
             /\ x <> EmptyString).
  { cbn [nodeIDStrings_loop].
    destruct (Ascii.eqb r Go.SQUOTE); [apply nodeIDStrings_loop_first, snoc_not_empty|].
    destruct (Ascii.eqb r Go.DQUOTE); [apply nodeIDStrings_loop_first, snoc_not_empty|].
    destruct (Ascii.eqb_spec r "/"); [congruence|].
    apply nodeIDStrings_loop_first, snoc_not_empty. }
  destruct Hf as (x & out & Hf & Hx).
  destruct (nodeIDStrings_loop (String r s) false false EmptyString) as [l q].
  cbn [fst] in Hf. subst l.
  destruct q; cbn in H; [discriminate|].
  destruct (String.eqb_spec x EmptyString); [congruence|].
  cbn in H. discriminate.
Qed.

(** C6.  The identifier check accepts every rune that [unicode.IsLetter]
    or [unicode.IsDigit] accepts, so an identifier with a letter outside
    [ALPHA = %x41-5A / %x61-7A] is parsed although the grammar quoted
    above [checkIDPart] has no place for it.  The other malformed shapes
    are refused, each with its reason. *)
Theorem InstanceIDNew_accepts_letter_outside_ALPHA :
  Go.IsALPHA e_acute = false
  /\ InstanceIDNew (String "/" (String "m" (String ":" (String e_acute EmptyString))))
     = Ok (mkInstanceID [NodeID "m" (String e_acute EmptyString) false None])
  /\ InstanceIDNew "" = Panic "invalid instance identifier: must specify at least one node-identifier"
  /\ InstanceIDNew "foo" = Panic ("invalid instance identifier: must start with a " ++ quoted "/")
  /\ InstanceIDNew "/xml2:m"
     = Panic "invalid instance identifier: invalid identifier, not allowed to start with xml: xml2"
  /\ InstanceIDNew "/m:XmLa"
     = Panic "invalid instance identifier: invalid identifier, not allowed to start with xml: XmLa"
  /\ InstanceIDNew "/foo?:m" = Panic "invalid instance identifier: invalid node-identifier foo?"
  /\ InstanceIDNew "/m:foo[b[a='b']='c']"
     = Panic "invalid instance identifier: nested predicates are not allowed"
  /\ InstanceIDNew "/foo[id='foo]" = Panic "invalid instance identifier: unterminated quote"
  /\ InstanceIDNew "/m:foo[b='c'" = Panic "invalid instance identifier: unterminated predicate"
  /\ InstanceIDNew "/m:foo[b=c]"
     = Panic ("invalid instance identifier: invalid predicate, expected ''' or '"
              ++ String Go.DQUOTE "'")
  /\ InstanceIDNew "/m:foo[b]" = Panic "invalid instance identifier: invalid predicate expression b".
Proof. repeat split; vm_compute; reflexivity. Qed.

(** C7.  An identifier that was parsed with the prefix of a segment
    written out, and with a [':'] in a predicate value, is printed
    without the prefix; parsing the printed form cuts the segment at the
    [':'] inside the predicate and fails. *)
Theorem InstanceID_String_is_not_parsed_back :
  InstanceIDNew "/m:x/m:foo[k='a:b']"
  = Ok (mkInstanceID
          [NodeID "m" "x" false None;
           NodeID "m" "foo" true (Some [exprPredicate (NodeID "m" "k" true None) "a:b"])])
  /\ InstanceID_String
       (mkInstanceID
          [NodeID "m" "x" false None;
           NodeID "m" "foo" true (Some [exprPredicate (NodeID "m" "k" true None) "a:b"])])
     = "/m:x/foo[k='a:b']"
  /\ InstanceIDNew "/m:x/foo[k='a:b']"
     = Panic "invalid instance identifier: invalid node-identifier foo[k='a".
Proof. repeat split; vm_compute; reflexivity. Qed.

Example canonical_forms :
  canonical "/ietf-interfaces:interfaces/ietf-interfaces:interface[name = 'eth0']/ietf-ip:ipv4/ip"
  = Ok "/ietf-interfaces:interfaces/interface[name='eth0']/ietf-ip:ipv4/ip"
  /\ canonical ("/m:foo[id=" ++ quoted "bar" ++ "]") = Ok "/m:foo[id='bar']"
  /\ canonical "/m:foo[ 007 ]" = Ok "/m:foo[7]"
  /\ canonical "/m:foo[.='123']" = Ok "/m:foo[.='123']"
  /\ canonical "/m:x/foo[k='v']" = Ok "/m:x/foo[k='v']".
Proof. repeat split; vm_compute; reflexivity. Qed.

(** ** Diff and edit *)

Example trees_from_native_data :
  (let* o := ObjectFrom [("m:l", hSlice [hInt 1; hInt 2; hInt 3])] in TreeFromObject o)
  = Ok tree_123
  /\ (let* o := ObjectFrom [("m:l", hSlice [hInt 1])] in TreeFromObject o) = Ok tree_1.
Proof. split; vm_compute; reflexivity. Qed.

(** C2.  When an array loses more than one trailing element, [Diff]
    lists the deletions by rising position; [Edit] applies them in that
    order, the array has moved down after the first one, and the second
    finds nothing at its position.  The edited tree is not the target. *)
Theorem Edit_of_Diff_misses_shrunk_array :
  Tree_Diff tree_123 tree_1
  = Ok (mkEditOperation [mkEditEntry EditDelete (path_l 1) None;
                         mkEditEntry EditDelete (path_l 2) None])
  /\ (let* d := Tree_Diff tree_123 tree_1 in Tree_Edit tree_123 d) = Ok tree_13
  /\ Tree_Equal tree_13 tree_1 = Ok false.
Proof. repeat split; vm_compute; reflexivity. Qed.

(** The same duality on the repository's own pattern: a leaf is
    replaced, a container deleted and a list lengthened. *)
Example Edit_of_Diff_reaches_target :
  let a := mkTree (Some (VObject EmptyString
             [("m:leaf", VString "foo");
              ("m:c", VObject "m" [("m:x", VUint32 1)]);
              ("m:l", VArray "m" [Some (VUint32 1)])])) in
  let b := mkTree (Some (VObject EmptyString
             [("m:leaf", VString "bar");
              ("m:l", VArray "m" [Some (VUint32 1); Some (VUint32 2)])])) in
  (let* d := Tree_Diff a b in let* t := Tree_Edit a d in Tree_Equal t b) = Ok true.
Proof. vm_compute. reflexivity. Qed.

(** ** Predicates in [Find] *)




(** A predicate that finds nothing ends the lookup of the segment. *)
Lemma predicates_Find_not_found (preds : list predicate) (value : option Value) :
  predicates_Find_loop predicate_Find (Nat.pred (List.length preds))
                       preds 0%nat value None = Ok None ->
  predicates_Find preds value = Ok (None, false).
Proof.
  intros Hloop. unfold predicates_Find, predicates_Find_with. rewrite Hloop. reflexivity.
Qed.

(** ** Marshalling and unmarshalling

    Decimal text is parsed back to the number it was written for, and
    [strconv.Unquote] undoes [strconv.Quote]. *)

Lemma digit_rune_spec (d : Z) :
  0 <= d < 10 -> Go.IsDigit (Go.digit_rune d) = true /\ Go.code (Go.digit_rune d) - 48 = d.
Proof.
  intros H.
  assert (E : d = 0 \/ d = 1 \/ d = 2 \/ d = 3 \/ d = 4 \/ d = 5 \/ d = 6 \/ d = 7
              \/ d = 8 \/ d = 9) by lia.
  repeat (destruct E as [E | E]; [subst d; split; reflexivity|]).
  subst d; split; reflexivity.
Qed.

Lemma digits_value_format (fuel : nat) :
  forall n acc, 0 <= n < 10 ^ Z.of_nat fuel ->
    Go.digits_value 0 (Go.format_digits fuel n acc) = Go.digits_value n acc.
Proof.
  induction fuel as [|fuel IH]; intros n acc H.
  - simpl in H. assert (n = 0) by lia. subst n. reflexivity.
  - rewrite Nat2Z.inj_succ, Z.pow_succ_r in H by lia.
    assert (Hd : 0 <= n mod 10 < 10) by (apply Z.mod_pos_bound; lia).
    destruct (digit_rune_spec _ Hd) as [Hdig Hcode].
    cbn [Go.format_digits].
    destruct (n <? 10) eqn:E.
    + apply Z.ltb_lt in E. cbn [Go.digits_value]. rewrite Hdig, Hcode.
      rewrite Z.mod_small by lia. reflexivity.
    + apply Z.ltb_ge in E.
      rewrite IH.
      * cbn [Go.digits_value]. rewrite Hdig, Hcode.
        f_equal. pose proof (Z.div_mod n 10). lia.
      * split; [apply Z.div_pos; lia|].
        apply Z.div_lt_upper_bound; lia.
Qed.

Lemma format_digits_all_digits (fuel : nat) :
  forall n acc, 0 <= n -> all_digits acc = true ->
    all_digits (Go.format_digits fuel n acc) = true.
Proof.
  induction fuel as [|fuel IH]; intros n acc Hn Hacc; [exact Hacc|].
  assert (Hd : 0 <= n mod 10 < 10) by (apply Z.mod_pos_bound; lia).
  destruct (digit_rune_spec _ Hd) as [Hdig _].
  cbn [Go.format_digits].
  destruct (n <? 10).
  - simpl. rewrite Hdig. exact Hacc.
  - apply IH; [apply Z.div_pos; lia|]. simpl. rewrite Hdig. exact Hacc.
Qed.

Lemma format_digits_nonempty (fuel : nat) :
  forall n acc, Go.format_digits (S fuel) n acc <> EmptyString.
Proof.
  induction fuel as [|fuel IH]; intros n acc.
  - cbn. destruct (n <? 10); discriminate.
  - change (Go.format_digits (S (S fuel)) n acc)
      with (if n <? 10 then String (Go.digit_rune (n mod 10)) acc
            else Go.format_digits (S fuel) (n / 10) (String (Go.digit_rune (n mod 10)) acc)).
    destruct (n <? 10); [discriminate|apply IH].
Qed.

Lemma FormatUint_digits (n : Z) :
  0 <= n ->
  exists c rest, Go.FormatUint n = String c rest
                 /\ Go.IsDigit c = true /\ all_digits rest = true.
Proof.
  intros Hn. unfold Go.FormatUint.
  pose proof (format_digits_all_digits (S (Z.to_nat (Z.log2 n))) n EmptyString Hn eq_refl) as Ha.
  pose proof (format_digits_nonempty (Z.to_nat (Z.log2 n)) n EmptyString) as Hne.
  destruct (Go.format_digits _ n EmptyString) as [|c rest]; [congruence|].
  simpl in Ha. apply andb_true_iff in Ha. exists c, rest. tauto.
Qed.

Lemma FormatUint_value (n : Z) :
  0 <= n -> Go.digits_value 0 (Go.FormatUint n) = Some n.
Proof.
  intros Hn. unfold Go.FormatUint.
  rewrite digits_value_format; [reflexivity|].
  split; [exact Hn|].
  destruct (Z.eq_dec n 0) as [->|Hz]; [reflexivity|].
  rewrite Nat2Z.inj_succ, Z2Nat.id by apply Z.log2_nonneg.
  pose proof (Z.log2_spec n ltac:(lia)) as [_ Hlt].
  eapply Z.lt_le_trans; [exact Hlt|].
  apply Z.pow_le_mono_l. split; [lia|lia].
Qed.

Lemma ParseUint_FormatUint (n bits : Z) :
  0 <= n < 2 ^ bits -> Go.ParseUint (Go.FormatUint n) bits = Some n.
Proof.
  intros [Hn Hb].
  destruct (FormatUint_digits n Hn) as (c & rest & E & _).
  unfold Go.ParseUint. rewrite FormatUint_value by exact Hn. rewrite E.
  apply Z.ltb_lt in Hb. rewrite Hb. reflexivity.
Qed.

Lemma IsDigit_not (c x : ascii) :
  Go.IsDigit c = true -> Go.IsDigit x = false -> Ascii.eqb c x = false.
Proof.
  intros Hc Hx. destruct (Ascii.eqb_spec c x) as [->|]; [congruence|reflexivity].
Qed.

Lemma all_digits_no_rune (s : string) (x : ascii) :
  all_digits s = true -> Go.IsDigit x = false -> Go.ContainsRune s x = false.
Proof.
  intros Hs Hx. induction s as [|c s IH]; [reflexivity|].
  simpl in *. apply andb_true_iff in Hs as [Hc Hs].
  rewrite (IsDigit_not c x Hc Hx), IH by exact Hs. reflexivity.
Qed.

Lemma ParseInt_FormatInt_neg (i bits : Z) :
  - 2 ^ (bits - 1) <= i < 0 -> Go.ParseInt (Go.FormatInt i) bits = Some i.
Proof.
  intros [Hl Hn]. unfold Go.FormatInt.
  apply Z.ltb_lt in Hn as Hn'. rewrite Hn'.
  destruct (FormatUint_digits (- i) ltac:(lia)) as (c & rest & E & _).
  unfold Go.ParseInt.
  change (Ascii.eqb "-" "-") with true. change (Ascii.eqb "-" "+") with false.
  cbn [orb]. rewrite FormatUint_value by lia. rewrite E.
  destruct (2 ^ (bits - 1) <? - i) eqn:C.
  - apply Z.ltb_lt in C. lia.
  - f_equal. lia.
Qed.


Lemma append_assoc (a b c : string) : ((a ++ b) ++ c = a ++ (b ++ c))%string.
Proof. induction a as [|x a IH]; simpl; [reflexivity|now rewrite IH]. Qed.



Lemma take_length_append (a b : string) : Go.take (String.length a) (a ++ b) = a.
Proof. induction a as [|x a IH]; simpl; [destruct b; reflexivity|now rewrite IH]. Qed.

Lemma length_append (a b : string) :
  String.length (a ++ b) = (String.length a + String.length b)%nat.
Proof. induction a as [|x a IH]; simpl; [reflexivity|now rewrite IH]. Qed.

Lemma IsDigit_code (c : ascii) : Go.IsDigit c = true -> 48 <= Go.code c <= 57.
Proof.
  unfold Go.IsDigit, Go.between. intros H.
  apply andb_true_iff in H as [H1 H2].
  apply Z.leb_le in H1, H2. exact (conj H1 H2).
Qed.

Lemma unquote_digits (s : string) :
  all_digits s = true ->
  Go.unquote_body (s ++ String Go.DQUOTE EmptyString) = Some s.
Proof.
  induction s as [|c s IH]; intros H; [reflexivity|].
  simpl in H. apply andb_true_iff in H as [Hc Hs].
  apply IsDigit_code in Hc.
  cbn [append Go.unquote_body].
  replace (Go.code c =? 34) with false by (symmetry; apply Z.eqb_neq; lia).
  replace (Go.code c =? 10) with false by (symmetry; apply Z.eqb_neq; lia).
  replace (Go.code c =? 92) with false by (symmetry; apply Z.eqb_neq; lia).
  cbn [negb]. rewrite IH by exact Hs. reflexivity.
Qed.

Lemma Unquote_quoted_digits (s : string) :
  all_digits s = true -> Go.Unquote (quoted s) = Some s.
Proof.
  intros H. unfold quoted, Go.Unquote.
  change (Go.code Go.DQUOTE =? 34) with true. cbn iota.
  apply unquote_digits. exact H.
Qed.


Lemma RFC7951String_VString (s : string) :
  RFC7951String (VString s) = Ok (Go.escape s).
Proof.
  unfold RFC7951String, Go.Quote, Go.len.
  cbn [String.length Go.drop].
  rewrite length_append. cbn [String.length].
  replace (Z.of_nat (S (String.length (Go.escape s) + 1)) <? 2) with false
    by (symmetry; apply Z.ltb_ge; lia).
  replace (S (String.length (Go.escape s) + 1) - 2)%nat
    with (String.length (Go.escape s)) by lia.
  rewrite take_length_append. reflexivity.
Qed.


Lemma unmarshal_quoted_uint64 (i : Z) :
  0 <= i < 2 ^ 64 -> unmarshal_quoted (Go.FormatUint i) = VUint64 i.
Proof.
  intros H.
  pose proof (ParseUint_FormatUint i 64 H) as Hp.
  destruct (FormatUint_digits i (proj1 H)) as (c & rest & E & Hc & Hr).
  rewrite E in *. unfold unmarshal_quoted.
  rewrite (IsDigit_not c "-" Hc eq_refl), (IsDigit_not c "+" Hc eq_refl), Hc.
  cbn [andb Go.ContainsRune].
  rewrite (IsDigit_not c "." Hc eq_refl), (all_digits_no_rune rest "." Hr eq_refl).
  cbn [orb]. rewrite Hp. reflexivity.
Qed.


(** [unmarshalRFC7951] by the first character of the message. *)
Lemma unmarshalRFC7951_quoted (fuel : nat) (data : Value) (s module : string) :
  unmarshalRFC7951 (S fuel) data (quoted s) module
  = match Go.Unquote (quoted s) with
    | None => Ok (data, Some "invalid syntax")
    | Some item => Ok (unmarshal_quoted item, None)
    end.
Proof. reflexivity. Qed.

Lemma unmarshalRFC7951_negative (fuel : nat) (data : Value) (s module : string) :
  unmarshalRFC7951 (S fuel) data (String "-" s) module
  = match Go.ParseInt (String "-" s) 32 with
    | None => Ok (data, Some "strconv.ParseInt: parsing failed")
    | Some i => Ok (VInt32 i, None)
    end.
Proof. reflexivity. Qed.

Lemma unmarshalRFC7951_digit (fuel : nat) (data : Value) (c : ascii) (s module : string) :
  Go.IsDigit c = true ->
  unmarshalRFC7951 (S fuel) data (String c s) module
  = match Go.ParseUint (String c s) 32 with
    | None => Ok (data, Some "strconv.ParseUint: parsing failed")
    | Some i => Ok (VUint32 i, None)
    end.
Proof.
  intros Hc. cbn [unmarshalRFC7951].
  rewrite (IsDigit_not c "{" Hc eq_refl), (IsDigit_not c "[" Hc eq_refl),
    (IsDigit_not c "n" Hc eq_refl), (IsDigit_not c "t" Hc eq_refl),
    (IsDigit_not c "f" Hc eq_refl), (IsDigit_not c Go.DQUOTE Hc eq_refl),
    (IsDigit_not c "-" Hc eq_refl).
  reflexivity.
Qed.



(** The shape of a stable container. *)
Lemma belongsTo_stable (module : string) (val : Value) :
  stable module val = true -> belongsTo val module = Ok val.
Proof.
  intros H. destruct val; try reflexivity; cbn [stable belongsTo] in *;
    apply andb_true_iff in H as [H _]; apply andb_true_iff in H as [H _];
    apply String.eqb_eq in H; subst; rewrite String.eqb_refl; reflexivity.
Qed.

Lemma stable_array (module m : string) (store : list (option Value)) :
  stable module (VArray m store) = true ->
  m = module
  /\ exists vs, store = map Some vs
                /\ vs <> [VNull]
                /\ Forall (fun v => stable module v = true) vs.
Proof.
  cbn [stable]. intros H.
  apply andb_true_iff in H as [H H3]. apply andb_true_iff in H as [H1 H2].
  apply String.eqb_eq in H1. split; [exact H1|].
  assert (E : exists vs, store = map Some vs
                         /\ Forall (fun v => stable module v = true) vs).
  { clear H2. induction store as [|[v|] l IH].
    - exists []. split; [reflexivity|constructor].
    - apply andb_true_iff in H3 as [Hv Hl].
      destruct (IH Hl) as (vs & -> & Hvs).
      exists (v :: vs). split; [reflexivity|constructor; assumption].
    - discriminate. }
  destruct E as (vs & -> & Hvs). exists vs.
  split; [reflexivity|]. split; [|exact Hvs].
  intros ->. discriminate.
Qed.

Lemma store_Contains_In (k : string) (l : list (string * Value)) :
  store_Contains k l = false -> ~ In k (map fst l).
Proof.
  unfold store_Contains. induction l as [|[k' v] l IH]; simpl; [tauto|].
  destruct (String.eqb_spec k' k) as [->|Hne]; [discriminate|].
  intros H [E|Hin]; [congruence|exact (IH H Hin)].
Qed.

Lemma distinct_keys_NoDup (l : list (string * Value)) :
  distinct_keys l = true -> NoDup (map fst l).
Proof.
  induction l as [|[k v] l IH]; simpl; intros H; [constructor|].
  apply andb_true_iff in H as [Hk Hl].
  constructor; [|exact (IH Hl)].
  apply store_Contains_In. destruct (store_Contains k l); [discriminate|reflexivity].
Qed.

Lemma stable_object (module m : string) (store : list (string * Value)) :
  stable module (VObject m store) = true ->
  m = module
  /\ NoDup (map fst store)
  /\ Forall (fun kv => key_stable module (fst kv) = true
                       /\ stable (fst (parseKey module (fst kv))) (snd kv) = true)
            store.
Proof.
  cbn [stable]. intros H.
  apply andb_true_iff in H as [H H3]. apply andb_true_iff in H as [H1 H2].
  apply String.eqb_eq in H1. split; [exact H1|].
  split; [exact (distinct_keys_NoDup store H2)|].
  clear H2. induction store as [|[k v] l IH]; [constructor|].
  apply andb_true_iff in H3 as [Hkv Hl]. apply andb_true_iff in Hkv as [Hk Hv].
  constructor; [split; assumption|exact (IH Hl)].
Qed.



(** The depth of a container against the depth of what it holds. *)
Lemma depth_array (m : string) (vs : list Value) (n : nat) :
  (depth (VArray m (map Some vs)) <= S n)%nat
  <-> Forall (fun v => (depth v <= n)%nat) vs.
Proof.
  cbn [depth]. induction vs as [|v vs IH]; cbn [map].
  - split; [constructor|lia].
  - split.
    + intros H. constructor; [lia|apply IH; lia].
    + intros H. inversion H as [|? ? Hv Hvs]; subst.
      apply IH in Hvs. lia.
Qed.

Lemma depth_object (m : string) (store : list (string * Value)) (n : nat) :
  (depth (VObject m store) <= S n)%nat
  <-> Forall (fun kv => (depth (snd kv) <= n)%nat) store.
Proof.
  cbn [depth]. induction store as [|[k v] l IH].
  - split; [constructor|lia].
  - split.
    + intros H. constructor; [cbn [snd]; lia|apply IH; lia].
    + intros H. inversion H as [|? ? Hv Hvs]; subst. cbn [snd] in Hv.
      apply IH in Hvs. lia.
Qed.

(** The loops of the marshaller succeed when every step does, and
    their output is at least as long as the output of each step. *)
Lemma marshal_elements_ok (rec : Value -> result string) (f : Value -> string)
      (n : nat) (vs : list Value) :
  Forall (fun v => rec v = Ok (f v)) vs ->
  forall i, exists body,
    marshal_elements rec n (map Some vs) i = Ok body
    /\ Forall (fun v => (String.length (f v) <= String.length body)%nat) vs.
Proof.
  induction 1 as [|v vs Hv Hvs IH]; intros i.
  - exists EmptyString. split; [reflexivity|constructor].
  - destruct (IH (S i)) as (rest & Hrest & Hlen).
    cbn [map marshal_elements]. rewrite Hv. cbn [bind]. rewrite Hrest. cbn [bind].
    eexists. split; [reflexivity|].
    constructor.
    + rewrite length_append. lia.
    + eapply Forall_impl; [|exact Hlen].
      cbn beta. intros a Ha. rewrite !length_append. lia.
Qed.

Lemma marshal_members_ok (rec : Value -> string -> result string)
      (f : string * Value -> string) (omodule module : string)
      (n : nat) (store : list (string * Value)) :
  Forall (fun kv => rec (snd kv) (fst (parseKey omodule (fst kv))) = Ok (f kv)) store ->
  forall i, exists body,
    marshal_members rec omodule module n store i = Ok body
    /\ Forall (fun kv => (String.length (f kv) <= String.length body)%nat) store.
Proof.
  induction 1 as [|[k v] l Hv Hl IH]; intros i.
  - exists EmptyString. split; [reflexivity|constructor].
  - destruct (IH (S i)) as (rest & Hrest & Hlen).
    cbn [fst snd] in Hv.
    cbn [marshal_members]. rewrite Hv. cbn [bind]. rewrite Hrest. cbn [bind].
    eexists. split; [reflexivity|].
    constructor.
    + rewrite !length_append. lia.
    + eapply Forall_impl; [|exact Hlen].
      cbn beta. intros a Ha. rewrite !length_append. lia.
Qed.





(** A stable value is equal to itself. *)
Lemma store_Find_NoDup (k : string) (v : Value) (s : list (string * Value)) :
  NoDup (map fst s) -> In (k, v) s -> store_Find k s = Some v.
Proof.
  induction s as [|[k' v'] s IH]; simpl; intros Hnd Hin; [tauto|].
  inversion Hnd as [|? ? Hk Hs]; subst.
  destruct Hin as [E|Hin].
  - inversion E; subst. rewrite String.eqb_refl. reflexivity.
  - destruct (String.eqb_spec k' k) as [->|Hne].
    + exfalso. apply Hk. change k with (fst (k, v)). apply in_map. exact Hin.
    + exact (IH Hs Hin).
Qed.

Lemma Value_Equal_stable (n : nat) :
  forall val module,
    (depth val <= n)%nat -> stable module val = true -> Value_Equal val val = true.
Proof.
  induction n as [|n IH]; intros val module Hd Hs.
  - destruct val; cbn [depth] in Hd; lia.
  - destruct val as [| |b|i|i|i|i|f|s|i|m store|m store];
      try discriminate Hs; cbn [Value_Equal].
    + reflexivity.
    + reflexivity.
    + apply Bool.eqb_reflx.
    + apply Z.eqb_refl.
    + apply Z.eqb_refl.
    + apply Z.eqb_refl.
    + apply Z.eqb_refl.
    + apply String.eqb_refl.
    + destruct (stable_object _ _ _ Hs) as (-> & Hnd & Hall).
      apply depth_object in Hd.
      rewrite String.eqb_refl, Nat.eqb_refl. cbn [andb].
      assert (G : forall l, incl l store ->
        (fix all (l : list (string * Value)) : bool :=
           match l with
           | [] => true
           | (k, v) :: l' =>
               match store_Find k store with
               | Some v' => Value_Equal v v'
               | None => false
               end && all l'
           end) l = true).
      { induction l as [|[k v] l IHl]; intros Hincl; [reflexivity|].
        assert (Hin : In (k, v) store) by (apply Hincl; left; reflexivity).
        rewrite (store_Find_NoDup k v store Hnd Hin).
        rewrite Forall_forall in Hd, Hall.
        specialize (Hd _ Hin). destruct (Hall _ Hin) as [_ Hv]. cbn [fst snd] in *.
        rewrite (IH v _ Hd Hv). cbn [andb].
        apply IHl. intros x Hx. apply Hincl. right. exact Hx. }
      apply G. apply incl_refl.
    + destruct (stable_array _ _ _ Hs) as (-> & vs & -> & _ & Hall).
      apply depth_array in Hd.
      rewrite String.eqb_refl, Nat.eqb_refl. cbn [andb]. clear Hs.
      induction vs as [|v vs IHvs]; [reflexivity|].
      inversion Hd; inversion Hall; subst.
      cbn [map]. rewrite (IH v module) by assumption. cbn [andb].
      apply IHvs; assumption.
Qed.



Lemma text_of (val : Value) (module s : string) :
  marshalRFC7951 val module = Ok s -> text val module = s.
Proof. unfold text. intros ->. reflexivity. Qed.



(** * Further properties *)

(** ** Stores *)

Lemma store_Find_Assoc_same {V : Type} (k : string) (v : V) (s : list (string * V)) :
  store_Find k (store_Assoc k v s) = Some v.
Proof.
  induction s as [|[k' v'] s IH]; simpl.
  - rewrite String.eqb_refl. reflexivity.
  - destruct (String.eqb_spec k' k) as [->|Hne]; simpl.
    + rewrite String.eqb_refl. reflexivity.
    + destruct (String.eqb_spec k' k); [congruence|exact IH].
Qed.

Lemma store_Find_Assoc_other {V : Type} (k k2 : string) (v : V) (s : list (string * V)) :
  k2 <> k -> store_Find k2 (store_Assoc k v s) = store_Find k2 s.
Proof.
  intros Hne. induction s as [|[k' v'] s IH]; simpl.
  - destruct (String.eqb_spec k k2); [congruence|reflexivity].
  - destruct (String.eqb_spec k' k) as [->|Hk]; simpl.
    + destruct (String.eqb_spec k k2); [congruence|reflexivity].
    + destruct (String.eqb_spec k' k2); [reflexivity|exact IH].
Qed.

Lemma store_Find_None {V : Type} (k : string) (s : list (string * V)) :
  store_Find k s = None <-> ~ In k (keys s).
Proof.
  unfold keys. induction s as [|[k' v'] s IH]; simpl.
  - split; [intros _ []|reflexivity].
  - destruct (String.eqb_spec k' k) as [->|Hne].
    + split; [discriminate|]. intros H. exfalso. apply H. left. reflexivity.
    + rewrite IH. split.
      * intros H [E|Hin]; [congruence|exact (H Hin)].
      * intros H Hin. apply H. right. exact Hin.
Qed.

Lemma store_Assoc_length {V : Type} (k : string) (v : V) (s : list (string * V)) :
  List.length (store_Assoc k v s)
  = if store_Contains k s then List.length s else S (List.length s).
Proof.
  unfold store_Contains. induction s as [|[k' v'] s IH]; simpl; [reflexivity|].
  destruct (String.eqb_spec k' k) as [->|Hne]; simpl; [reflexivity|].
  rewrite IH. destruct (store_Find k s); reflexivity.
Qed.

Lemma store_Assoc_keys {V : Type} (k : string) (v : V) (s : list (string * V)) :
  keys (store_Assoc k v s) = if store_Contains k s then keys s else (keys s ++ [k])%list.
Proof.
  unfold store_Contains, keys. induction s as [|[k' v'] s IH]; simpl; [reflexivity|].
  destruct (String.eqb_spec k' k) as [->|Hne]; simpl; [reflexivity|].
  rewrite IH. destruct (store_Find k s); reflexivity.
Qed.

Lemma store_Assoc_NoDup {V : Type} (k : string) (v : V) (s : list (string * V)) :
  NoDup (keys s) -> NoDup (keys (store_Assoc k v s)).
Proof.
  intros Hnd. rewrite store_Assoc_keys.
  destruct (store_Contains k s) eqn:Hc; [exact Hnd|].
  assert (Hk : ~ In k (keys s)).
  { apply store_Find_None. unfold store_Contains in Hc.
    destruct (store_Find k s); [discriminate|reflexivity]. }
  apply NoDup_app; [exact Hnd|repeat constructor; intros []|].
  intros x Hx [<-|[]]. exact (Hk Hx).
Qed.

Lemma store_Find_Delete_other {V : Type} (k k2 : string) (s : list (string * V)) :
  k2 <> k -> store_Find k2 (store_Delete k s) = store_Find k2 s.
Proof.
  intros Hne. induction s as [|[k' v'] s IH]; simpl; [reflexivity|].
  destruct (String.eqb_spec k' k) as [->|Hk]; simpl.
  - destruct (String.eqb_spec k k2); [congruence|reflexivity].
  - destruct (String.eqb_spec k' k2); [reflexivity|exact IH].
Qed.

Lemma store_Delete_keys_incl {V : Type} (k x : string) (s : list (string * V)) :
  In x (keys (store_Delete k s)) -> In x (keys s).
Proof.
  unfold keys. induction s as [|[k' v'] s IH]; simpl; [exact (fun H => H)|].
  destruct (String.eqb_spec k' k) as [->|Hk]; simpl.
  - intros H. right. exact H.
  - intros [E|H]; [left; exact E|right; exact (IH H)].
Qed.

Lemma store_Delete_NoDup {V : Type} (k : string) (s : list (string * V)) :
  NoDup (keys s) -> NoDup (keys (store_Delete k s)) /\ ~ In k (keys (store_Delete k s)).
Proof.
  unfold keys. induction s as [|[k' v'] s IH]; simpl; intros Hnd.
  - split; [constructor|intros []].
  - inversion Hnd as [|? ? Hk' Hs]; subst.
    destruct (String.eqb_spec k' k) as [->|Hk]; simpl.
    + split; assumption.
    + destruct (IH Hs) as [Hn Hni]. split.
      * constructor; [|exact Hn]. intros Hin. apply Hk'.
        exact (store_Delete_keys_incl k k' s Hin).
      * intros [E|Hin]; [congruence|exact (Hni Hin)].
Qed.

Lemma store_Delete_length {V : Type} (k : string) (s : list (string * V)) :
  List.length (store_Delete k s)
  = if store_Contains k s then Nat.pred (List.length s) else List.length s.
Proof.
  unfold store_Contains. induction s as [|[k' v'] s IH]; simpl; [reflexivity|].
  destruct (String.eqb_spec k' k) as [->|Hne]; simpl; [reflexivity|].
  rewrite IH. destruct (store_Find k s) eqn:Hf; [|reflexivity].
  destruct s; [discriminate Hf|reflexivity].
Qed.

(** ** Objects (object.go) *)

Lemma IndexRune_append (a b : string) (r : ascii) :
  Go.IndexRune a r = None ->
  Go.IndexRune (a ++ String r b) r = Some (String.length a).
Proof.
  induction a as [|c a IH]; simpl; intros H.
  - rewrite Ascii.eqb_refl. reflexivity.
  - destruct (Ascii.eqb c r); [discriminate|].
    destruct (Go.IndexRune a r); [discriminate|].
    rewrite IH by reflexivity. reflexivity.
Qed.

Lemma drop_length_append (a b : string) (r : ascii) :
  Go.drop (S (String.length a)) (a ++ String r b) = b.
Proof. induction a as [|c a IH]; simpl; [reflexivity|exact IH]. Qed.

Lemma SplitN2_append (a b : string) (r : ascii) :
  Go.IndexRune a r = None -> Go.SplitN2 (a ++ String r b) r = [a; b].
Proof.
  intros H. unfold Go.SplitN2. rewrite IndexRune_append by exact H.
  rewrite take_length_append, drop_length_append. reflexivity.
Qed.

Lemma parseKey_qualified (module m key : string) :
  Go.IndexRune m ":" = None -> parseKey module (m ++ ":" ++ key) = (m, key).
Proof.
  intros H. unfold parseKey.
  change (m ++ ":" ++ key) with (m ++ String ":" key).
  rewrite SplitN2_append by exact H. reflexivity.
Qed.

Lemma parseKey_plain (module key : string) :
  Go.IndexRune key ":" = None -> parseKey module key = (module, key).
Proof. intros H. unfold parseKey, Go.SplitN2. rewrite H. reflexivity. Qed.

Lemma adaptKey_qualified (module key : string) :
  Go.IndexRune module ":" = None -> Go.IndexRune key ":" = None ->
  adaptKey module (module ++ ":" ++ key) = adaptKey module key.
Proof.
  intros Hm Hk. unfold adaptKey.
  rewrite parseKey_qualified by exact Hm. rewrite parseKey_plain by exact Hk.
  reflexivity.
Qed.

(** [obj.Assoc(key, value)] followed by a lookup of [key]: the value
    that was stored is found, whether [key] was in the object or not. *)
Theorem Object_Assoc_then_At (obj obj' : Object) (key : string) (value : host) :
  Object_Assoc obj key value = Ok obj' ->
  exists v,
    (let* val := ValueNew value in Object_adaptValue obj key val)
    = Ok (adaptKey (o_module obj) key, v)
    /\ Object_At obj' key = Some v
    /\ Object_Contains obj' key = true
    /\ Object_Find obj' key = (Some v, true)
    /\ o_module obj' = o_module obj.
Proof.
  unfold Object_Assoc. intros H.
  destruct (ValueNew value) as [val|msg]; cbn [bind] in *; [|discriminate H].
  destruct val as [v0|]; cbn [Object_adaptValue] in *; [|discriminate H].
  destruct (belongsTo v0 (fst (parseKey (o_module obj) key))) as [v|msg];
    cbn [bind fst snd] in *; [|discriminate H].
  inversion H; subst obj'; clear H.
  exists v. unfold Object_At, Object_Contains, Object_Find, store_Contains.
  cbn [o_store o_module]. rewrite store_Find_Assoc_same. repeat split; reflexivity.
Qed.

(** [obj.Assoc(key, value)] leaves every other key as it was, and the
    object grows by one member exactly when [key] was not in it. *)
Theorem Object_Assoc_frame (obj obj' : Object) (key : string) (value : host) :
  Object_Assoc obj key value = Ok obj' ->
  (forall key2,
     adaptKey (o_module obj) key2 <> adaptKey (o_module obj) key ->
     Object_At obj' key2 = Object_At obj key2
     /\ Object_Contains obj' key2 = Object_Contains obj key2)
  /\ Object_Length obj'
     = (if Object_Contains obj key then Object_Length obj else Object_Length obj + 1)
  /\ (NoDup (keys (o_store obj)) -> NoDup (keys (o_store obj'))).
Proof.
  unfold Object_Assoc. intros H.
  destruct (ValueNew value) as [val|msg]; cbn [bind] in *; [|discriminate H].
  destruct val as [v0|]; cbn [Object_adaptValue] in *; [|discriminate H].
  destruct (belongsTo v0 (fst (parseKey (o_module obj) key))) as [v|msg];
    cbn [bind fst snd] in *; [|discriminate H].
  inversion H; subst obj'; clear H.
  unfold Object_At, Object_Contains, Object_Length, store_Contains.
  cbn [o_store o_module]. repeat split.
  - rewrite store_Find_Assoc_other by assumption. reflexivity.
  - rewrite store_Find_Assoc_other by assumption. reflexivity.
  - rewrite store_Assoc_length. unfold store_Contains.
    destruct (store_Find _ (o_store obj)); lia.
  - apply store_Assoc_NoDup.
Qed.

(** [obj.Delete(key)] on an object whose keys are distinct, as those of
    a hash map are: [key] is no longer in the object, every other key
    is as it was, and the object shrinks by one member exactly when
    [key] was in it. *)
Theorem Object_Delete_spec (obj : Object) (key : string) :
  NoDup (keys (o_store obj)) ->
  Object_Contains (Object_Delete obj key) key = false
  /\ Object_At (Object_Delete obj key) key = None
  /\ (forall key2,
        adaptKey (o_module obj) key2 <> adaptKey (o_module obj) key ->
        Object_At (Object_Delete obj key) key2 = Object_At obj key2)
  /\ Object_Length (Object_Delete obj key)
     = (if Object_Contains obj key then Object_Length obj - 1 else Object_Length obj)
  /\ NoDup (keys (o_store (Object_Delete obj key))).
Proof.
  intros Hnd.
  destruct (store_Delete_NoDup (adaptKey (o_module obj) key) (o_store obj) Hnd)
    as [Hn Hni].
  apply store_Find_None in Hni.
  unfold Object_At, Object_Contains, Object_Length, Object_Delete, store_Contains.
  cbn [o_store o_module]. rewrite Hni. repeat split.
  - intros key2 Hne. apply store_Find_Delete_other. exact Hne.
  - rewrite store_Delete_length. unfold store_Contains.
    destruct (store_Find _ (o_store obj)) eqn:Hf; [|reflexivity].
    destruct (o_store obj); [discriminate Hf|]. cbn [List.length Nat.pred]. lia.
  - exact Hn.
Qed.

(** A key without a module names the same member as the key qualified
    with the module of the object. *)
Theorem Object_key_alias (obj : Object) (key : string) :
  Go.IndexRune (o_module obj) ":" = None ->
  Go.IndexRune key ":" = None ->
  Object_At obj (o_module obj ++ ":" ++ key) = Object_At obj key
  /\ Object_Contains obj (o_module obj ++ ":" ++ key) = Object_Contains obj key
  /\ Object_Find obj (o_module obj ++ ":" ++ key) = Object_Find obj key
  /\ Object_Delete obj (o_module obj ++ ":" ++ key) = Object_Delete obj key
  /\ (forall value,
        Object_Assoc obj (o_module obj ++ ":" ++ key) value = Object_Assoc obj key value).
Proof.
  intros Hm Hk.
  unfold Object_At, Object_Contains, Object_Find, Object_Delete, Object_Assoc.
  rewrite adaptKey_qualified by assumption. repeat split.
  intros value. unfold Object_adaptValue. rewrite adaptKey_qualified by assumption.
  rewrite parseKey_qualified by exact Hm. rewrite parseKey_plain by exact Hk.
  reflexivity.
Qed.

(** ** Arrays (array.go) *)

Lemma vector_Assoc_length {A : Type} (i : nat) (x : A) (l : list A) :
  List.length (vector_Assoc i x l) = List.length l.
Proof.
  revert i. induction l as [|y l IH]; intros [|i]; simpl; try reflexivity.
  rewrite IH. reflexivity.
Qed.

Lemma vector_Assoc_nth_same {A : Type} (i : nat) (x : A) (l : list A) :
  (i < List.length l)%nat -> nth_error (vector_Assoc i x l) i = Some x.
Proof.
  revert i. induction l as [|y l IH]; intros [|i] H; simpl in *; try lia.
  - reflexivity.
  - apply IH. lia.
Qed.

Lemma vector_Assoc_nth_other {A : Type} (i j : nat) (x : A) (l : list A) :
  i <> j -> nth_error (vector_Assoc i x l) j = nth_error l j.
Proof.
  revert i j. induction l as [|y l IH]; intros [|i] [|j] H; simpl; try reflexivity.
  - congruence.
  - apply IH. congruence.
Qed.

Lemma vector_Delete_length {A : Type} (i : nat) (l : list A) :
  (i < List.length l)%nat -> List.length (vector_Delete i l) = Nat.pred (List.length l).
Proof.
  revert i. induction l as [|y l IH]; intros [|i] H; simpl in *; try lia.
  rewrite IH by lia. destruct l; simpl in *; lia.
Qed.

Lemma vector_Delete_nth {A : Type} (i j : nat) (l : list A) :
  nth_error (vector_Delete i l) j
  = if Nat.ltb j i then nth_error l j else nth_error l (S j).
Proof.
  revert i j. induction l as [|y l IH]; intros i j.
  - destruct i, j; simpl; try reflexivity.
    destruct (Nat.ltb (S j) (S i)); reflexivity.
  - destruct i as [|i]; [reflexivity|].
    destruct j as [|j]; [reflexivity|].
    simpl vector_Delete. simpl nth_error. rewrite IH.
    change (Nat.ltb (S j) (S i)) with (Nat.ltb j i). reflexivity.
Qed.

(** [arr.Append(value)]: the array grows by one slot, which holds the
    value, a null [*Value] for [nil]; the slots before it are untouched. *)
Theorem Array_Append_spec (arr arr' : Array) (value : host) :
  Array_Append arr value = Ok arr' ->
  exists v,
    (let* val := ValueNew value in Array_adaptValue arr val) = Ok v
    /\ a_store arr' = (a_store arr ++ [Some v])%list
    /\ Array_Length arr' = Array_Length arr + 1
    /\ Array_At arr' (Array_Length arr) = Ok (Some v)
    /\ (forall j, 0 <= j < Array_Length arr -> Array_At arr' j = Array_At arr j)
    /\ (value = hNil -> v = VNull).
Proof.
  unfold Array_Append. intros H.
  destruct (ValueNew value) as [val|msg] eqn:Hv; cbn [bind] in *; [|discriminate H].
  destruct (Array_adaptValue arr val) as [v|msg] eqn:Ha; cbn [bind] in *; [|discriminate H].
  inversion H; subst arr'; clear H.
  exists v. unfold Array_At, Array_Length. cbn [a_store].
  rewrite length_app. cbn [List.length].
  repeat split.
  - lia.
  - destruct (Z.leb_spec (Z.of_nat (List.length (a_store arr) + 1))
                         (Z.of_nat (List.length (a_store arr)))); [lia|].
    destruct (Z.ltb_spec (Z.of_nat (List.length (a_store arr))) 0); [lia|].
    cbn [orb]. rewrite Nat2Z.id, nth_error_app2 by lia.
    rewrite Nat.sub_diag. reflexivity.
  - intros j Hj.
    destruct (Z.leb_spec (Z.of_nat (List.length (a_store arr) + 1)) j); [lia|].
    destruct (Z.leb_spec (Z.of_nat (List.length (a_store arr))) j); [lia|].
    destruct (Z.ltb_spec j 0); [lia|]. cbn [orb].
    rewrite nth_error_app1 by lia. reflexivity.
  - intros ->. cbn in Hv. inversion Hv; subst val. cbn in Ha. congruence.
Qed.

(** [arr.Assoc(index, value)] with [index] inside the array: the length
    is kept, the slot holds the value, and no other slot is touched. *)
Theorem Array_Assoc_in_range (arr arr' : Array) (index : Z) (value : host) :
  0 <= index < Array_Length arr ->
  Array_Assoc arr index value = Ok arr' ->
  exists v,
    (let* val := ValueNew value in Array_adaptValue arr val) = Ok v
    /\ Array_Length arr' = Array_Length arr
    /\ Array_At arr' index = Ok (Some v)
    /\ (forall j, j <> index -> Array_At arr' j = Array_At arr j).
Proof.
  unfold Array_Assoc, Array_Length. intros Hi H.
  destruct (Z.leb_spec (Z.of_nat (List.length (a_store arr))) index); [lia|].
  destruct (ValueNew value) as [val|msg]; cbn [bind] in *; [|discriminate H].
  destruct (Array_adaptValue arr val) as [v|msg]; cbn [bind] in *; [|discriminate H].
  destruct (Z.ltb_spec index 0); [lia|].
  inversion H; subst arr'; clear H.
  exists v. unfold Array_At, Array_Length. cbn [a_store].
  rewrite vector_Assoc_length. repeat split.
  - destruct (Z.leb_spec (Z.of_nat (List.length (a_store arr))) index); [lia|].
    destruct (Z.ltb_spec index 0); [lia|]. cbn [orb].
    rewrite vector_Assoc_nth_same by lia. reflexivity.
  - intros j Hj.
    destruct ((Z.of_nat (List.length (a_store arr)) <=? j) || (j <? 0)) eqn:Ho;
      [reflexivity|].
    apply orb_false_iff in Ho as [Ho1 Ho2].
    apply Z.leb_gt in Ho1. apply Z.ltb_ge in Ho2.
    rewrite vector_Assoc_nth_other by lia. reflexivity.
Qed.

(** [arr.Delete(index)] at an index the array contains: the slot is
    taken out and the later slots move down by one. *)
Theorem Array_Delete_spec (arr : Array) (index : Z) :
  Array_Contains arr index = true ->
  Array_Length (Array_Delete arr index) = Array_Length arr - 1
  /\ (forall j, j < index -> Array_At (Array_Delete arr index) j = Array_At arr j)
  /\ (forall j, index <= j ->
        Array_At (Array_Delete arr index) j = Array_At arr (j + 1)).
Proof.
  unfold Array_Delete. intros Hc; rewrite Hc.
  unfold Array_Contains, Array_Length in Hc.
  apply andb_true_iff in Hc as [H1 H2]. apply Z.ltb_lt in H1. apply Z.leb_le in H2.
  assert (Hl : List.length (vector_Delete (Z.to_nat index) (a_store arr))
               = Nat.pred (List.length (a_store arr)))
    by (apply vector_Delete_length; lia).
  unfold Array_At, Array_Length. cbn [a_store]. rewrite Hl.
  repeat split.
  - lia.
  - intros j Hj.
    destruct (Z.ltb_spec j 0) as [Hn|Hn]; [rewrite !orb_true_r; reflexivity|].
    destruct (Z.leb_spec (Z.of_nat (Nat.pred (List.length (a_store arr)))) j); [lia|].
    destruct (Z.leb_spec (Z.of_nat (List.length (a_store arr))) j); [lia|].
    cbn [orb]. rewrite vector_Delete_nth.
    replace (Nat.ltb (Z.to_nat j) (Z.to_nat index)) with true
      by (symmetry; apply Nat.ltb_lt; lia).
    reflexivity.
  - intros j Hj.
    destruct (Z.ltb_spec j 0); [lia|]. destruct (Z.ltb_spec (j + 1) 0); [lia|].
    rewrite !orb_false_r.
    destruct (Z.leb_spec (Z.of_nat (Nat.pred (List.length (a_store arr)))) j);
      destruct (Z.leb_spec (Z.of_nat (List.length (a_store arr))) (j + 1));
      try lia; [reflexivity|].
    rewrite vector_Delete_nth.
    replace (Nat.ltb (Z.to_nat j) (Z.to_nat index)) with false
      by (symmetry; apply Nat.ltb_ge; lia).
    replace (Z.to_nat (j + 1)) with (S (Z.to_nat j)) by lia. reflexivity.
Qed.

(** ** Typed access (value.go) *)

(** Where [IsInt32], [IsUint32], [IsInt64] or [IsUint64] answers
    [true], the matching [As] and [To] return the integer the value
    holds, unchanged, whatever default [To] was given. *)
Theorem IsInteger_then_AsInteger (t : rtype) (val : Value) (defaultVal : list Z) :
  integer_type t = true ->
  in_type_range val ->
  IsInteger t val = true ->
  exists n,
    integer_of val = Some n
    /\ AsInteger t val = Ok n
    /\ ToInteger t val defaultVal = Ok n.
Proof.
  intros Ht Hr Hi.
  destruct t; try discriminate Ht;
    destruct val as [| |b|i|i|i|i|f|s|i|m st|m st]; try discriminate Hi;
    cbn in Hr; unfold IsInteger, canConvertNumeric in Hi; cbn in Hi;
    try (apply Z.leb_le in Hi);
    exists i; unfold AsInteger, ToInteger, convertTo; cbn [integer_of ConvertibleTo bind];
    (split; [reflexivity|]);
    first [ rewrite wrap_signed_id by lia | rewrite wrap_unsigned_id by lia ];
    split; reflexivity.
Qed.

(** [ToInt32] and [ToUint32] return the default only for a datum that
    is no number: a [uint32] beyond [2^31-1] is no [int32] for
    [IsInt32], yet [ToInt32] returns it wrapped around, and so does
    [ToUint32] for a negative [int32]; a string gives the default, and
    a null value panics. *)
Theorem ToInteger_default_only_without_number (i : Z) (s : string) (defaultVal : list Z) :
  (2 ^ 31 <= i < 2 ^ 32 ->
   IsInt32 (VUint32 i) = false
   /\ ToInt32 (VUint32 i) defaultVal = Ok (i - 2 ^ 32)
   /\ AsInt32 (VUint32 i) = Ok (i - 2 ^ 32))
  /\ (- 2 ^ 31 <= i < 0 ->
      IsUint32 (VInt32 i) = false
      /\ ToUint32 (VInt32 i) defaultVal = Ok (i + 2 ^ 32)
      /\ AsUint32 (VInt32 i) = Ok (i + 2 ^ 32))
  /\ ToInt32 (VString s) defaultVal = Ok (default_or_zero defaultVal)
  /\ IsInt32 VNull = false
  /\ ToInt32 VNull defaultVal = Panic nil_deref.
Proof.
  repeat split; try reflexivity.
  - unfold IsInt32, IsInteger, canConvertNumeric. cbn.
    apply Z.leb_gt. lia.
  - unfold ToInt32, ToInteger, convertTo, wrap_signed. cbn [ConvertibleTo bind].
    f_equal. change (2 ^ (32 - 1)) with 2147483648. change (2 ^ 32) with 4294967296 in *.
    change (2 ^ 31) with 2147483648 in *.
    replace (i + 2147483648) with ((i - 2147483648) + 1 * 4294967296) by lia.
    rewrite Z.mod_add by lia. rewrite Z.mod_small by lia. lia.
  - unfold AsInt32, AsInteger, convertTo, wrap_signed.
    f_equal. change (2 ^ (32 - 1)) with 2147483648. change (2 ^ 32) with 4294967296 in *.
    change (2 ^ 31) with 2147483648 in *.
    replace (i + 2147483648) with ((i - 2147483648) + 1 * 4294967296) by lia.
    rewrite Z.mod_add by lia. rewrite Z.mod_small by lia. lia.
  - unfold IsUint32, IsInteger, canConvertNumeric. cbn.
    apply Z.leb_gt. lia.
  - unfold ToUint32, ToInteger, convertTo, wrap_unsigned. cbn [ConvertibleTo bind].
    f_equal. change (2 ^ 32) with 4294967296 in *. change (2 ^ 31) with 2147483648 in *.
    replace i with ((i + 4294967296) + (-1) * 4294967296) at 1 by lia.
    rewrite Z.mod_add by lia. apply Z.mod_small. lia.
  - unfold AsUint32, AsInteger, convertTo, wrap_unsigned.
    f_equal. change (2 ^ 32) with 4294967296 in *. change (2 ^ 31) with 2147483648 in *.
    replace i with ((i + 4294967296) + (-1) * 4294967296) at 1 by lia.
    rewrite Z.mod_add by lia. apply Z.mod_small. lia.
Qed.

(** [IsEmpty] holds of the empty leaf only. *)
Lemma IsEmpty_iff (val : Value) : IsEmpty val = true <-> val = VEmpty.
Proof.
  unfold IsEmpty, Empty. destruct val; cbn; split; intros H;
    try discriminate H; reflexivity.
Qed.

(** [AsBoolean] returns, without a panic, exactly on the values of
    which [IsBoolean] holds: the booleans and the empty leaf.  On them
    [ToBoolean] gives the same answer and ignores its default; on every
    other value [ToBoolean] gives the default, [false] if there is none. *)
Theorem IsBoolean_iff_AsBoolean (val : Value) (defaultVal : list bool) :
  IsBoolean val = is_ok (AsBoolean val)
  /\ (IsBoolean val = true <-> (exists b, val = VBool b) \/ val = VEmpty)
  /\ (IsBoolean val = true -> AsBoolean val = Ok (ToBoolean val defaultVal))
  /\ (IsBoolean val = false ->
      ToBoolean val defaultVal = match defaultVal with d :: _ => d | [] => false end).
Proof.
  unfold IsBoolean, AsBoolean, ToBoolean.
  destruct (IsEmpty val) eqn:He.
  - apply IsEmpty_iff in He. subst val. cbn. repeat split; try discriminate.
    intros _. right. reflexivity.
  - assert (Hne : val <> VEmpty).
    { intros ->. cbn in He. discriminate He. }
    rewrite orb_false_r.
    destruct val; cbn; repeat split; try discriminate; try reflexivity;
      try (intros [[b' Hb]|Hb]; congruence).
    intros _. left. eexists. reflexivity.
Qed.

(** ** The edit engine (edit.go, tree.go) *)

Lemma filter_unknown_nil (l : list EditEntry) :
  forallb known_action l = true ->
  filter (fun e => negb (known_action e)) l = [].
Proof.
  induction l as [|e l IH]; simpl; intros H; [reflexivity|].
  apply andb_true_iff in H as [He Hl]. rewrite He. simpl. exact (IH Hl).
Qed.


(** [t.Edit(edit)] turns every entry into its function before it
    applies any: an entry with an unknown action makes the whole edit
    panic with the name of that action, whatever the entries before it
    would have done to the tree. *)
Theorem Tree_Edit_unknown_action (t : Tree) (pre post : list EditEntry) (e : EditEntry) :
  forallb known_action pre = true ->
  known_action e = false ->
  Tree_Edit t (mkEditOperation (pre ++ e :: post))
  = Panic ("unknown edit-action " ++ Action e).
Proof.
  intros Hpre He. unfold Tree_Edit. cbn [Actions].
  rewrite filter_app, (filter_unknown_nil pre Hpre). cbn [app filter].
  rewrite He. reflexivity.
Qed.


(** ** Trees at the first level (tree.go, instance_id.go) *)

Lemma Perform_onObject {R : Type} (m : string) (s : list (string * Value))
      (f : Object -> result R) (fns : list (handler R)) :
  Perform (Some (VObject m s)) (onObject f :: fns)
  = (let* r := f (mkObject s m) in Ok (Some r)).
Proof. reflexivity. Qed.

Lemma nodeID_Find_member (p i : string) (inf : bool) (m : string)
      (s : list (string * Value)) :
  nodeID_Find (NodeID p i inf None) (Some (VObject m s))
  = Ok (Object_At (mkObject s m) (p ++ ":" ++ i),
        Object_Contains (mkObject s m) (p ++ ":" ++ i)).
Proof.
  cbn [nodeID_Find]. rewrite Perform_onObject. cbn [bind option_map fst].
  unfold ValueNew_performed. reflexivity.
Qed.

Lemma Tree_assoc_member (m : string) (s : list (string * Value))
      (p i : string) (inf : bool) (v v' : Value) :
  belongsTo v (fst (parseKey m (p ++ ":" ++ i))) = Ok v' ->
  Tree_assoc (mkTree (Some (VObject m s))) (mkInstanceID [NodeID p i inf None]) (Some v)
  = Ok (mkTree (Some (VObject m (store_Assoc (adaptKey m (p ++ ":" ++ i)) v' s)))).
Proof.
  intros Hb.
  unfold Tree_assoc. cbn [ids List.length InstanceID_path InstanceID_selector rev app
                           nodeID_selector predicates Nat.mul Nat.add assoc_queue].
  unfold MatchAgainst, InstanceID_Find. cbn [ids bind fst Root root].
  cbn [InstanceID_path InstanceID_selector ids rev assoc_queue bind assoc_fold
       modifyMatchCriteria].
  unfold computeIdentifierDefault, computeIdentifier, nodeID_computeIdentifier.
  rewrite Perform_onObject. cbn [prefix identifier].
  destruct (Object_Contains (mkObject s m) (p ++ ":" ++ i)); cbn [bind];
    rewrite Perform_onObject; unfold Object_Assoc;
    cbn [ValueNew valueNew bind Object_adaptValue o_module o_store];
    rewrite Hb; cbn [bind fst snd unwrap_Value assoc_fold AsObject ofObject
                       o_store o_module];
    unfold TreeFromObject; cbn [ValueNew valueNew bind ofObject o_store o_module];
    reflexivity.
Qed.

Lemma Tree_delete_member (m : string) (s : list (string * Value))
      (p i : string) (inf : bool) :
  Tree_delete (mkTree (Some (VObject m s))) (mkInstanceID [NodeID p i inf None])
  = Ok (if Object_Contains (mkObject s m) (p ++ ":" ++ i)
        then mkTree (Some (VObject m (store_Delete (adaptKey m (p ++ ":" ++ i)) s)))
        else mkTree (Some (VObject m s))).
Proof.
  unfold Tree_delete, InstanceID_Find. cbn [ids Root root].
  rewrite nodeID_Find_member. cbn [bind fst snd].
  destruct (Object_Contains (mkObject s m) (p ++ ":" ++ i)) eqn:Hc; cbn [negb];
    [|reflexivity].
  cbn [InstanceID_path InstanceID_selector ids rev app nodeID_selector predicates].
  unfold MatchAgainst, InstanceID_Find. cbn [ids bind fst].
  unfold computeIdentifier, nodeID_computeIdentifier.
  rewrite Perform_onObject. cbn [prefix identifier]. rewrite Hc. cbn [bind].
  rewrite Perform_onObject.
  cbn [ValueNew valueNew bind unwrap_Value ofObject Object_Delete o_store o_module].
  unfold Tree_assoc. cbn [ids InstanceID_path InstanceID_selector rev List.length
                           Nat.mul Nat.add assoc_queue bind assoc_fold AsObject].
  unfold TreeFromObject. cbn [ValueNew valueNew bind ofObject o_store o_module].
  reflexivity.
Qed.

(** [t.assoc] at an identifier of one node, on a tree whose root is an
    object: the tree returned has the value, adapted to the module of
    the key, under that key, and [at] and [find] with the same
    identifier return it. *)
Theorem Tree_assoc_then_at (t : Tree) (m : string) (s : list (string * Value))
        (p i : string) (inf : bool) (v v' : Value) :
  root t = Some (VObject m s) ->
  belongsTo v (fst (parseKey m (p ++ ":" ++ i))) = Ok v' ->
  exists t',
    Tree_assoc t (mkInstanceID [NodeID p i inf None]) (Some v) = Ok t'
    /\ root t' = Some (VObject m (store_Assoc (adaptKey m (p ++ ":" ++ i)) v' s))
    /\ Tree_at t' (mkInstanceID [NodeID p i inf None]) = Ok (Some v')
    /\ Tree_find t' (mkInstanceID [NodeID p i inf None]) = Ok (Some v', true).
Proof.
  intros Hr Hb. destruct t as [rt]. cbn [root] in Hr. subst rt.
  exists (mkTree (Some (VObject m (store_Assoc (adaptKey m (p ++ ":" ++ i)) v' s)))).
  split; [exact (Tree_assoc_member m s p i inf v v' Hb)|]. split; [reflexivity|].
  unfold Tree_at, Tree_find, MatchAgainst, InstanceID_Find.
  cbn [ids Root root]. rewrite nodeID_Find_member.
  unfold Object_At, Object_Contains, store_Contains. cbn [o_store o_module].
  rewrite store_Find_Assoc_same. split; reflexivity.
Qed.

(** [t.delete] at an identifier of one node, on a tree whose root is an
    object with distinct keys: a member that is there is taken out of
    the root, after which [find] does not find it; a member that is not
    there leaves the tree as it is. *)
Theorem Tree_delete_then_find (t : Tree) (m : string) (s : list (string * Value))
        (p i : string) (inf : bool) :
  root t = Some (VObject m s) ->
  NoDup (keys s) ->
  let id := mkInstanceID [NodeID p i inf None] in
  let t' := mkTree (Some (VObject m (store_Delete (adaptKey m (p ++ ":" ++ i)) s))) in
  Tree_delete t id
  = Ok (if Object_Contains (mkObject s m) (p ++ ":" ++ i) then t' else t)
  /\ Tree_find t' id = Ok (None, false).
Proof.
  intros Hr Hnd id t'. destruct t as [rt]. cbn [root] in Hr. subst rt. split.
  - exact (Tree_delete_member m s p i inf).
  - unfold Tree_find, t', id, InstanceID_Find. cbn [ids Root root].
    rewrite nodeID_Find_member.
    destruct (store_Delete_NoDup (adaptKey m (p ++ ":" ++ i)) s Hnd) as [_ Hni].
    apply store_Find_None in Hni.
    unfold Object_At, Object_Contains, store_Contains. cbn [o_store o_module].
    rewrite Hni. reflexivity.
Qed.

(** ** The codec on single values (value.go, array.go, object.go) *)

Lemma no_nil_array (m : string) (store : list (option Value)) :
  no_nil (VArray m store) = true ->
  exists vs, store = map Some vs /\ Forall (fun v => no_nil v = true) vs.
Proof.
  cbn [no_nil]. induction store as [|[v|] l IH]; intros H.
  - exists []. split; [reflexivity|constructor].
  - apply andb_true_iff in H as [Hv Hl]. destruct (IH Hl) as (vs & -> & Hvs).
    exists (v :: vs). split; [reflexivity|constructor; assumption].
  - discriminate H.
Qed.

Lemma no_nil_object (m : string) (store : list (string * Value)) :
  no_nil (VObject m store) = true -> Forall (fun kv => no_nil (snd kv) = true) store.
Proof.
  cbn [no_nil]. induction store as [|[k v] l IH]; intros H; [constructor|].
  apply andb_true_iff in H as [Hv Hl]. constructor; [exact Hv|exact (IH Hl)].
Qed.

Lemma marshalRFC7951_total (n : nat) :
  forall val module,
    (depth val <= n)%nat -> no_nil val = true ->
    exists s, marshalRFC7951 val module = Ok s.
Proof.
  induction n as [|n IH]; intros val module Hd Hn.
  - destruct val; cbn [depth] in Hd; lia.
  - destruct val as [| |b|i|i|i|i|f|s|i|m store|m store];
      try (eexists; reflexivity).
    + eexists. cbn [marshalRFC7951]. rewrite RFC7951String_VString. reflexivity.
    + apply depth_object in Hd. apply no_nil_object in Hn.
      destruct (marshal_members_ok marshalRFC7951
                  (fun kv => text (snd kv) (fst (parseKey m (fst kv))))
                  m module (List.length store) store) with (i := 0%nat)
        as (body & Hbody & _).
      { rewrite Forall_forall in *. intros kv Hin.
        destruct (IH (snd kv) (fst (parseKey m (fst kv))) (Hd kv Hin) (Hn kv Hin))
          as (s & Hs).
        rewrite (text_of _ _ _ Hs). exact Hs. }
      eexists. cbn [marshalRFC7951]. rewrite Hbody. reflexivity.
    + destruct (no_nil_array _ _ Hn) as (vs & -> & Hvs).
      apply depth_array in Hd.
      destruct (marshal_elements_ok (fun v => marshalRFC7951 v module)
                  (fun v => text v module) (List.length (map Some vs)) vs)
        with (i := 0%nat) as (body & Hbody & _).
      { rewrite Forall_forall in *. intros v Hin.
        destruct (IH v module (Hd v Hin) (Hvs v Hin)) as (s & Hs).
        rewrite (text_of _ _ _ Hs). exact Hs. }
      eexists. cbn [marshalRFC7951]. rewrite Hbody. reflexivity.
Qed.

Lemma marshal_elements_nil (rec : Value -> result string) (f : Value -> string)
      (n : nat) (vs : list Value) (rest : list (option Value)) :
  Forall (fun v => rec v = Ok (f v)) vs ->
  forall i, marshal_elements rec n (map Some vs ++ None :: rest) i = Panic nil_deref.
Proof.
  induction 1 as [|v vs Hv Hvs IH]; intros i; [reflexivity|].
  cbn [map app marshal_elements]. rewrite Hv. cbn [bind]. rewrite IH. reflexivity.
Qed.

(** [marshalRFC7951] writes every value that has no nil slot, whatever
    its leaves are; an array with a nil slot, such as [Assoc] past the
    end of an array leaves behind, makes it panic once the slots before
    it are written. *)
Theorem marshalRFC7951_panics_only_on_nil_slot
        (val : Value) (module m : string) (vs : list Value) (rest : list (option Value)) :
  (no_nil val = true -> exists s, marshalRFC7951 val module = Ok s)
  /\ (Forall (fun v => no_nil v = true) vs ->
      marshalRFC7951 (VArray m (map Some vs ++ None :: rest)) module = Panic nil_deref).
Proof.
  split.
  - intros Hn. exact (marshalRFC7951_total (depth val) val module (le_n _) Hn).
  - intros Hvs. cbn [marshalRFC7951].
    rewrite (marshal_elements_nil (fun v => marshalRFC7951 v module)
               (fun v => text v module)); [reflexivity|].
    rewrite Forall_forall in *. intros v Hin.
    destruct (marshalRFC7951_total (depth v) v module (le_n _) (Hvs v Hin)) as (s & Hs).
    rewrite (text_of _ _ _ Hs). exact Hs.
Qed.

(** A message that is an unquoted decimal number: up to [2^32-1] it
    is read as a [uint32]; beyond, an error is returned and the datum
    is left as it was.  With a minus sign it is read as an [int32]
    down to [-2^31] and refused below. *)
Theorem unmarshalRFC7951_unquoted_number
        (fuel : nat) (data : Value) (module : string) (n : Z) :
  0 <= n ->
  (n < 2 ^ 32 ->
   unmarshalRFC7951 (S fuel) data (Go.FormatUint n) module = Ok (VUint32 n, None))
  /\ (2 ^ 32 <= n ->
      exists err,
        unmarshalRFC7951 (S fuel) data (Go.FormatUint n) module = Ok (data, Some err))
  /\ (0 < n <= 2 ^ 31 ->
      unmarshalRFC7951 (S fuel) data (Go.FormatInt (- n)) module = Ok (VInt32 (- n), None))
  /\ (2 ^ 31 < n ->
      exists err,
        unmarshalRFC7951 (S fuel) data (Go.FormatInt (- n)) module = Ok (data, Some err)).
Proof.
  intros Hn.
  destruct (FormatUint_digits n Hn) as (c & rest & E & Hc & Hr).
  pose proof (FormatUint_value n Hn) as Hv.
  split; [|split; [|split]].
  - intros Hlt. rewrite E, unmarshalRFC7951_digit by exact Hc. rewrite <- E.
    rewrite ParseUint_FormatUint by lia. reflexivity.
  - intros Hge. rewrite E, unmarshalRFC7951_digit by exact Hc.
    unfold Go.ParseUint. rewrite <- E, Hv.
    replace (n <? 2 ^ 32) with false by (symmetry; apply Z.ltb_ge; exact Hge).
    try rewrite E. eexists. reflexivity.
  - intros Hr'. pose proof (ParseInt_FormatInt_neg (- n) 32 ltac:(cbn; lia)) as Hp.
    unfold Go.FormatInt in *.
    replace (- n <? 0) with true in * by (symmetry; apply Z.ltb_lt; lia).
    rewrite unmarshalRFC7951_negative, Hp. reflexivity.
  - intros Hgt. unfold Go.FormatInt.
    replace (- n <? 0) with true by (symmetry; apply Z.ltb_lt; lia).
    rewrite unmarshalRFC7951_negative. unfold Go.ParseInt.
    change (Ascii.eqb "-" "-") with true. change (Ascii.eqb "-" "+") with false.
    cbn [orb]. rewrite Z.opp_involutive, Hv. try rewrite E.
    replace (2 ^ (32 - 1) <? n) with true by (symmetry; apply Z.ltb_lt; exact Hgt).
    eexists. reflexivity.
Qed.

Lemma escape_digits (s : string) : all_digits s = true -> Go.escape s = s.
Proof.
  induction s as [|c s IH]; intros H; [reflexivity|].
  simpl in H. apply andb_true_iff in H as [Hc Hs].
  apply IsDigit_code in Hc.
  cbn [Go.escape]. rewrite IH by exact Hs.
  unfold Go.escape_rune, Go.IsPrint.
  replace (Go.code c =? 34) with false by (symmetry; apply Z.eqb_neq; lia).
  replace (Go.code c =? 92) with false by (symmetry; apply Z.eqb_neq; lia).
  replace (32 <=? Go.code c) with true by (symmetry; apply Z.leb_le; lia).
  replace (Go.code c <? 127) with true by (symmetry; apply Z.ltb_lt; lia).
  reflexivity.
Qed.

(** A string leaf that holds the decimal text of a number is written
    like a [uint64] and read by its looks: below [2^64] it comes back as
    that [uint64], which is not equal to the string; from [2^64] on it
    comes back as the string. *)
Theorem decimal_string_read_as_uint64
        (fuel : nat) (data : Value) (module : string) (n : Z) :
  0 <= n ->
  marshalRFC7951 (VString (Go.FormatUint n)) module = Ok (quoted (Go.FormatUint n))
  /\ marshalRFC7951 (VUint64 n) module = Ok (quoted (Go.FormatUint n))
  /\ unmarshalRFC7951 (S fuel) data (quoted (Go.FormatUint n)) module
     = Ok (if n <? 2 ^ 64 then VUint64 n else VString (Go.FormatUint n), None)
  /\ Value_Equal (VUint64 n) (VString (Go.FormatUint n)) = false.
Proof.
  intros Hn.
  destruct (FormatUint_digits n Hn) as (c & rest & E & Hc & Hr).
  assert (Hd : all_digits (Go.FormatUint n) = true).
  { rewrite E. cbn. rewrite Hc, Hr. reflexivity. }
  split; [|split; [reflexivity|split; [|reflexivity]]].
  - cbn [marshalRFC7951]. rewrite RFC7951String_VString, escape_digits by exact Hd.
    reflexivity.
  - rewrite unmarshalRFC7951_quoted, Unquote_quoted_digits by exact Hd.
    destruct (Z.ltb_spec n (2 ^ 64)) as [Hlt|Hge].
    + rewrite unmarshal_quoted_uint64 by lia. reflexivity.
    + f_equal. f_equal. rewrite E in *. unfold unmarshal_quoted.
      rewrite (IsDigit_not c "-" Hc eq_refl), (IsDigit_not c "+" Hc eq_refl), Hc.
      cbn [andb Go.ContainsRune].
      rewrite (IsDigit_not c "." Hc eq_refl), (all_digits_no_rune rest "." Hr eq_refl).
      cbn [orb]. unfold Go.ParseUint. rewrite <- E, (FormatUint_value n Hn).
      replace (n <? 2 ^ 64) with false by (symmetry; apply Z.ltb_ge; exact Hge).
      try rewrite E. reflexivity.
Qed.

(** ** Instance identifiers: what a parse returns (instance_id.go) *)


Lemma bind_Ok {A B : Type} (r : result A) (k : A -> result B) (b : B) :
  bind r k = Ok b -> exists a, r = Ok a /\ k a = Ok b.
Proof. destruct r as [a|m]; cbn; [eauto|discriminate]. Qed.

Lemma checkIDPart_unit (s : string) (u : unit) : checkIDPart s = Ok u -> checkIDPart s = Ok tt.
Proof. destruct u. exact (fun H => H). Qed.

Lemma nodeID_parse_names (fuel : nat) (prefix0 input : string) (n : nodeID) :
  nodeID_parse fuel prefix0 input = Ok n ->
  checkIDPart (prefix n) = Ok tt
  /\ checkIDPart (identifier n) = Ok tt
  /\ prefixInferred n = String.eqb (prefix n) prefix0.
Proof.
  destruct fuel as [|fuel]; [discriminate|].
  cbn [nodeID_parse]. intros H.
  apply bind_Ok in H as ([[p i] inferred] & Hpi & H).
  apply bind_Ok in H as (u1 & Hp & H). apply checkIDPart_unit in Hp.
  apply bind_Ok in H as ([i' ps] & Hip & H).
  apply bind_Ok in H as (u2 & Hi & H). apply checkIDPart_unit in Hi.
  inversion H; subst n; clear H. cbn [prefix identifier prefixInferred].
  split; [exact Hp|]. split; [exact Hi|].
  destruct (Go.SplitN2 input ":") as [|a [|b [|c l]]].
  - destruct (negb (String.eqb prefix0 EmptyString)); [|discriminate Hpi].
    inversion Hpi; subst. symmetry. apply String.eqb_refl.
  - destruct (negb (String.eqb prefix0 EmptyString)); [|discriminate Hpi].
    inversion Hpi; subst. symmetry. apply String.eqb_refl.
  - inversion Hpi; subst. reflexivity.
  - destruct (negb (String.eqb prefix0 EmptyString)); [|discriminate Hpi].
    inversion Hpi; subst. symmetry. apply String.eqb_refl.
Qed.

Lemma parse_nodes_well_named (fuel : nat) (l : list string) :
  forall prefix0 nodes,
    parse_nodes fuel prefix0 l = Ok nodes ->
    well_named prefix0 nodes /\ List.length nodes = List.length l.
Proof.
  induction l as [|s l IH]; intros prefix0 nodes H.
  - inversion H. split; [exact I|reflexivity].
  - cbn [parse_nodes] in H.
    apply bind_Ok in H as (n & Hn & H).
    apply bind_Ok in H as (ns & Hns & H).
    inversion H; subst nodes; clear H.
    destruct (nodeID_parse_names _ _ _ _ Hn) as (Hp & Hi & Hinf).
    destruct (IH _ _ Hns) as [Hw Hl].
    split; [cbn [well_named]; repeat split; assumption|cbn [List.length]; congruence].
Qed.

Lemma rewrap_Ok {A : Type} (r : result A) (a : A) : rewrap r = Ok a -> r = Ok a.
Proof. destruct r; cbn; [exact (fun H => H)|discriminate]. Qed.

Lemma InstanceIDNew_names (input : string) (i : InstanceID) :
  InstanceIDNew input = Ok i -> ids i <> [] /\ well_named EmptyString (ids i).
Proof.
  intros H.
  unfold InstanceIDNew, InstanceID_parse in H. apply rewrap_Ok in H.
  apply bind_Ok in H as (strs & _ & H).
  destruct strs as [|first rest]; [discriminate H|].
  destruct (negb (String.eqb first EmptyString)); [discriminate H|].
  destruct rest as [|r1 rest]; [discriminate H|].
  apply bind_Ok in H as (nodes & Hn & H).
  inversion H; subst i; clear H. cbn [ids].
  destruct (parse_nodes_well_named _ _ _ _ Hn) as [Hw Hl].
  split; [|exact Hw].
  destruct nodes; [discriminate Hl|discriminate].
Qed.

(** What a successful parse returns: the input began with ['/'], there
    is at least one node, the prefix and the identifier of every node
    pass [checkIDPart], and a prefix is marked as inferred exactly when
    it is the prefix of the node before. *)
Theorem InstanceIDNew_well_formed (input : string) (i : InstanceID) :
  InstanceIDNew input = Ok i ->
  (exists rest, input = String "/" rest)
  /\ ids i <> []
  /\ well_named EmptyString (ids i).
Proof.
  intros H. split; [exact (InstanceIDNew_leading_slash input i H)|].
  exact (InstanceIDNew_names input i H).
Qed.

(** *** Printing and parsing back *)

Lemma id_rune_special (c : ascii) :
  id_rune c = true ->
  no_cut c = true /\ Ascii.eqb c ":" = false /\ Ascii.eqb c "[" = false.
Proof.
  intros H. unfold no_cut.
  destruct (Ascii.eqb_spec c "/") as [->|_]; [discriminate H|].
  destruct (Ascii.eqb_spec c Go.SQUOTE) as [->|_]; [discriminate H|].
  destruct (Ascii.eqb_spec c Go.DQUOTE) as [->|_]; [discriminate H|].
  destruct (Ascii.eqb_spec c ":") as [->|_]; [discriminate H|].
  destruct (Ascii.eqb_spec c "[") as [->|_]; [discriminate H|].
  repeat split.
Qed.

Lemma checkIDPart_loop_runes (s : string) (first : bool) :
  checkIDPart_loop first s = true -> all_runes id_rune s = true.
Proof.
  revert first. induction s as [|c s IH]; intros first H; [reflexivity|].
  cbn [checkIDPart_loop] in H. apply andb_true_iff in H as [Hc Hs].
  cbn [all_runes]. rewrite (IH _ Hs), andb_true_r.
  unfold id_rune, isAlphaNumeric in *. destruct first; [|exact Hc].
  apply orb_true_iff in Hc as [Hc|Hc]; rewrite Hc; [reflexivity|].
  rewrite orb_true_r. reflexivity.
Qed.

Lemma checkIDPart_runes (s : string) :
  checkIDPart s = Ok tt -> all_runes id_rune s = true.
Proof.
  unfold checkIDPart. destruct (_ && _); [discriminate|].
  destruct (checkIDPart_loop true s) eqn:H; [|discriminate].
  intros _. exact (checkIDPart_loop_runes s true H).
Qed.

Lemma all_runes_impl (f g : ascii -> bool) (s : string) :
  (forall c, f c = true -> g c = true) -> all_runes f s = true -> all_runes g s = true.
Proof.
  intros Hfg. induction s as [|c s IH]; [reflexivity|].
  cbn. intros H. apply andb_true_iff in H as [Hc Hs].
  rewrite (Hfg c Hc), (IH Hs). reflexivity.
Qed.

Lemma all_runes_append (f : ascii -> bool) (a b : string) :
  all_runes f (a ++ b) = all_runes f a && all_runes f b.
Proof. induction a as [|c a IH]; cbn; [reflexivity|]. rewrite IH, andb_assoc. reflexivity. Qed.

Lemma IndexRune_none (s : string) (r : ascii) :
  all_runes (fun c => negb (Ascii.eqb c r)) s = true -> Go.IndexRune s r = None.
Proof.
  induction s as [|c s IH]; [reflexivity|].
  cbn. intros H. apply andb_true_iff in H as [Hc Hs].
  apply negb_true_iff in Hc. rewrite Hc, (IH Hs). reflexivity.
Qed.

Lemma id_runes_no_colon (s : string) :
  all_runes id_rune s = true -> Go.IndexRune s ":" = None.
Proof.
  intros H. apply IndexRune_none. revert H. apply all_runes_impl.
  intros c Hc. destruct (id_rune_special c Hc) as (_ & -> & _). reflexivity.
Qed.

Lemma id_runes_no_bracket (s : string) :
  all_runes id_rune s = true -> Go.IndexRune s "[" = None.
Proof.
  intros H. apply IndexRune_none. revert H. apply all_runes_impl.
  intros c Hc. destruct (id_rune_special c Hc) as (_ & _ & ->). reflexivity.
Qed.

Lemma snoc_append (cur s : string) (c : ascii) : snoc cur c ++ s = cur ++ String c s.
Proof. unfold snoc. rewrite append_assoc. reflexivity. Qed.

Lemma append_nil_r (s : string) : s ++ "" = s.
Proof. induction s as [|c s IH]; cbn; [reflexivity|]. rewrite IH. reflexivity. Qed.

(** [getNodeIDStrings] runs over text without ['/'] and quotes and
    only collects it. *)
Lemma nodeIDStrings_loop_no_cut (s rest cur : string) :
  all_runes no_cut s = true ->
  nodeIDStrings_loop (s ++ rest) false false cur
  = nodeIDStrings_loop rest false false (cur ++ s).
Proof.
  revert cur. induction s as [|c s IH]; intros cur H.
  - rewrite append_nil_r. reflexivity.
  - cbn in H. apply andb_true_iff in H as [Hc Hs].
    unfold no_cut in Hc. apply andb_true_iff in Hc as [Hc Hq2].
    apply andb_true_iff in Hc as [Hsl Hq1].
    apply negb_true_iff in Hsl, Hq1, Hq2.
    cbn [append nodeIDStrings_loop]. rewrite Hq1, Hq2, Hsl.
    rewrite IH by exact Hs. rewrite snoc_append. reflexivity.
Qed.

Lemma nodeIDStrings_loop_pieces (l : list string) :
  forall first cur,
    Forall (fun s => all_runes no_cut s = true /\ s <> EmptyString) (first :: l) ->
    nodeIDStrings_loop (String.concat "/" (first :: l)) false false cur
    = ((cur ++ first) :: l, false).
Proof.
  induction l as [|second l IH]; intros first cur H.
  - inversion H as [|? ? [Hf Hne] _]; subst.
    cbn [String.concat].
    rewrite <- (append_nil_r first) at 1.
    rewrite nodeIDStrings_loop_no_cut by exact Hf.
    cbn [nodeIDStrings_loop]. destruct (cur ++ first) eqn:E; [|reflexivity].
    destruct cur; [|discriminate E]. cbn in E. congruence.
  - inversion H as [|? ? [Hf Hne] Hl]; subst.
    change (String.concat "/" (first :: second :: l))
      with (first ++ String "/" (String.concat "/" (second :: l))).
    rewrite nodeIDStrings_loop_no_cut by exact Hf.
    cbn [nodeIDStrings_loop]. change (Ascii.eqb "/" Go.SQUOTE) with false.
    change (Ascii.eqb "/" Go.DQUOTE) with false. change (Ascii.eqb "/" "/") with true.
    cbn [negb andb]. rewrite (IH second EmptyString Hl). reflexivity.
Qed.

Lemma getNodeIDStrings_pieces (first : string) (l : list string) :
  Forall (fun s => all_runes no_cut s = true /\ s <> EmptyString) (first :: l) ->
  getNodeIDStrings ("/" ++ String.concat "/" (first :: l)) = Ok (EmptyString :: first :: l).
Proof.
  intros H. unfold getNodeIDStrings.
  change ("/" ++ String.concat "/" (first :: l))
    with (String "/" (String.concat "/" (first :: l))).
  cbn [nodeIDStrings_loop]. change (Ascii.eqb "/" Go.SQUOTE) with false.
  change (Ascii.eqb "/" Go.DQUOTE) with false. change (Ascii.eqb "/" "/") with true.
  cbn [negb andb]. rewrite (nodeIDStrings_loop_pieces l first EmptyString H).
  reflexivity.
Qed.

(** A plain, well-named node is parsed back from what [String] prints
    for it. *)
Lemma nodeID_String_plain (n : nodeID) :
  plain_node n ->
  nodeID_String n
  = if prefixInferred n then identifier n else prefix n ++ ":" ++ identifier n.
Proof.
  destruct n as [p i inf ps]. unfold plain_node. cbn [predicates prefix identifier].
  intros (-> & Hp & Hi). cbn [nodeID_String prefixInferred].
  destruct (String.eqb_spec p EmptyString) as [->|_]; [congruence|].
  cbn [negb andb]. destruct inf; cbn [negb]; rewrite append_nil_r; reflexivity.
Qed.

Lemma nodeID_parse_printed (fuel : nat) (prefix0 : string) (n : nodeID) :
  plain_node n ->
  checkIDPart (prefix n) = Ok tt ->
  checkIDPart (identifier n) = Ok tt ->
  prefixInferred n = String.eqb (prefix n) prefix0 ->
  nodeID_parse (S fuel) prefix0 (nodeID_String n) = Ok n.
Proof.
  intros Hpl Hp Hi Hinf. rewrite (nodeID_String_plain n Hpl).
  destruct n as [p i inf ps]. unfold plain_node in Hpl.
  cbn [predicates prefix identifier prefixInferred] in *.
  destruct Hpl as (-> & Hpne & Hine).
  pose proof (id_runes_no_colon p (checkIDPart_runes p Hp)) as Hpc.
  pose proof (id_runes_no_colon i (checkIDPart_runes i Hi)) as Hic.
  pose proof (id_runes_no_bracket i (checkIDPart_runes i Hi)) as Hib.
  cbn [nodeID_parse]. destruct inf.
  - symmetry in Hinf. apply String.eqb_eq in Hinf. subst prefix0.
    unfold Go.SplitN2 at 1. rewrite Hic.
    destruct (String.eqb_spec p EmptyString) as [->|_]; [congruence|].
    cbn [negb bind]. rewrite Hp. cbn [bind]. rewrite Hib. cbn [bind].
    rewrite Hi. reflexivity.
  - change (p ++ ":" ++ i) with (p ++ String ":" i).
    rewrite SplitN2_append by exact Hpc.
    cbn [bind]. rewrite Hp. cbn [bind]. rewrite Hib. cbn [bind].
    rewrite Hi. cbn [bind]. rewrite <- Hinf. reflexivity.
Qed.

Lemma parse_nodes_printed (fuel : nat) (l : list nodeID) :
  forall prefix0,
    well_named prefix0 l -> Forall plain_node l ->
    parse_nodes (S fuel) prefix0 (map nodeID_String l) = Ok l.
Proof.
  induction l as [|n l IH]; intros prefix0 Hw Hpl; [reflexivity|].
  cbn [well_named] in Hw. destruct Hw as (Hp & Hi & Hinf & Hw).
  inversion Hpl as [|? ? Hn Hl]; subst.
  cbn [map parse_nodes].
  rewrite (nodeID_parse_printed fuel prefix0 n Hn Hp Hi Hinf). cbn [bind].
  rewrite (IH _ Hw Hl). reflexivity.
Qed.

Lemma nodeID_String_no_cut (n : nodeID) :
  plain_node n ->
  checkIDPart (prefix n) = Ok tt ->
  checkIDPart (identifier n) = Ok tt ->
  all_runes no_cut (nodeID_String n) = true /\ nodeID_String n <> EmptyString.
Proof.
  intros Hpl Hp Hi. rewrite (nodeID_String_plain n Hpl).
  destruct Hpl as (_ & Hpne & Hine).
  assert (Hrp : all_runes no_cut (prefix n) = true).
  { apply (all_runes_impl id_rune); [|exact (checkIDPart_runes _ Hp)].
    intros c Hc. exact (proj1 (id_rune_special c Hc)). }
  assert (Hri : all_runes no_cut (identifier n) = true).
  { apply (all_runes_impl id_rune); [|exact (checkIDPart_runes _ Hi)].
    intros c Hc. exact (proj1 (id_rune_special c Hc)). }
  destruct (prefixInferred n).
  - split; [exact Hri|exact Hine].
  - split.
    + rewrite all_runes_append, Hrp. cbn. exact Hri.
    + destruct (prefix n); [congruence|discriminate].
Qed.

Lemma printed_nodes_no_cut (l : list nodeID) :
  forall prefix0,
    well_named prefix0 l -> Forall plain_node l ->
    Forall (fun s => all_runes no_cut s = true /\ s <> EmptyString)
           (map nodeID_String l).
Proof.
  induction l as [|n l IH]; intros prefix0 Hw Hpl; [constructor|].
  cbn [well_named] in Hw. destruct Hw as (Hp & Hi & _ & Hw).
  inversion Hpl as [|? ? Hn Hl]; subst.
  constructor; [exact (nodeID_String_no_cut n Hn Hp Hi)|exact (IH _ Hw Hl)].
Qed.

(** An identifier that a parse returned, whose nodes have no predicate
    and no empty prefix or identifier, is parsed back from what
    [String] prints for it. *)
Theorem InstanceID_String_roundtrip_plain (input : string) (i : InstanceID) :
  InstanceIDNew input = Ok i ->
  Forall plain_node (ids i) ->
  InstanceIDNew (InstanceID_String i) = Ok i.
Proof.
  intros H Hpl.
  destruct (InstanceIDNew_names input i H) as (Hne & Hw).
  destruct i as [l]. cbn [ids] in *.
  destruct l as [|n l]; [congruence|].
  pose proof (printed_nodes_no_cut (n :: l) EmptyString Hw Hpl) as Hcut.
  unfold InstanceIDNew, InstanceID_parse, InstanceID_String. cbn [ids].
  cbn [map] in *. rewrite (getNodeIDStrings_pieces _ _ Hcut).
  cbn [bind]. change (String.eqb EmptyString EmptyString) with true. cbn [negb].
  change (nodeID_String n :: map nodeID_String l) with (map nodeID_String (n :: l)).
  rewrite (parse_nodes_printed _ (n :: l) EmptyString Hw Hpl). reflexivity.
Qed.

(** ** Merge (value.go, array.go, object.go) *)

(** [Merge] of unlike values: a leaf gives way to the new value, while
    an object keeps itself against anything that is not an object, and
    an array against anything that is not an array, null included. *)
Theorem Merge_of_unlike_values (fuel : nat) (m : string)
        (s : list (string * Value)) (a : list (option Value))
        (val new : Value) :
  (IsObject val = false -> (forall m' a', val <> VArray m' a') ->
   Merge (S fuel) val (Some new) = Ok (Some new))
  /\ (IsObject new = false ->
      Merge (S fuel) (VObject m s) (Some new) = Ok (Some (VObject m s)))
  /\ ((forall m' a', new <> VArray m' a') ->
      Merge (S fuel) (VArray m a) (Some new) = Ok (Some (VArray m a))).
Proof.
  split; [|split].
  - intros Ho Ha. destruct val; try reflexivity; [discriminate Ho|].
    exfalso. exact (Ha _ _ eq_refl).
  - intros Ho. destruct new; try reflexivity. discriminate Ho.
  - intros Ha. destruct new; try reflexivity.
    exfalso. exact (Ha _ _ eq_refl).
Qed.

Lemma store_Assoc_keys_incl {V : Type} (k x : string) (v : V) (s : list (string * V)) :
  In x (keys s) -> In x (keys (store_Assoc k v s)).
Proof.
  intros H. rewrite store_Assoc_keys. destruct (store_Contains k s); [exact H|].
  apply in_or_app. left. exact H.
Qed.

Lemma store_Assoc_keys_in {V : Type} (k : string) (v : V) (s : list (string * V)) :
  In k (keys (store_Assoc k v s)).
Proof.
  rewrite store_Assoc_keys. destruct (store_Contains k s) eqn:Hc.
  - unfold store_Contains in Hc. destruct (store_Find k s) eqn:Hf; [|discriminate].
    destruct (in_dec string_dec k (keys s)) as [Hin|Hni]; [exact Hin|].
    apply store_Find_None in Hni. congruence.
  - apply in_or_app. right. left. reflexivity.
Qed.

Lemma Merge_objects_keys (fuel : nat) (m m2 : string)
      (s s2 : list (string * Value)) (r : option Value) :
  Merge (S fuel) (VObject m s) (Some (VObject m2 s2)) = Ok r ->
  exists s',
    r = Some (VObject m s')
    /\ (forall k, In k (keys s) -> In k (keys s'))
    /\ (forall k, In k (keys s2) -> In (adaptKey m k) (keys s')).
Proof.
  cbn [Merge]. rewrite Perform_onObject. intros H.
  apply bind_Ok in H as (r0 & H & Hr).
  apply bind_Ok in H as (v & H & Hv).
  apply bind_Ok in H as (store1 & H1 & H).
  apply bind_Ok in H as (store2 & H2 & H).
  cbn in H. inversion H; subst v; clear H.
  inversion Hv; subst r0; clear Hv. cbn in Hr. inversion Hr; subst r; clear Hr.
  exists store2. split; [reflexivity|].
  assert (L1 : forall l st st',
             (fix go (l : list (string * Value)) (st : list (string * Value))
                : result (list (string * Value)) :=
                match l with
                | [] => Ok st
                | (key, v0) :: l' =>
                    let* kv := Object_adaptValue (mkObject s m) key (Some v0) in
                    if Object_Contains (mkObject s2 m2) (fst kv) then
                      let* m0 := Merge fuel (snd kv)
                                       (Object_At (mkObject s2 m2) (fst kv)) in
                      match m0 with
                      | Some m' => go l' (store_Assoc (fst kv) m' st)
                      | None => Panic nil_deref
                      end
                    else go l' st
                end) l st = Ok st' ->
             forall k, In k (keys st) -> In k (keys st')).
  { induction l as [|[key v0] l IHl]; intros st st' Hgo k Hk.
    - inversion Hgo; subst. exact Hk.
    - apply bind_Ok in Hgo as (kv & Hkv & Hgo).
      destruct (Object_Contains _ (fst kv)).
      + apply bind_Ok in Hgo as (mv & _ & Hgo).
        destruct mv as [mv'|]; [|discriminate Hgo].
        apply (IHl _ _ Hgo). apply store_Assoc_keys_incl. exact Hk.
      + exact (IHl _ _ Hgo k Hk). }
  assert (L2 : forall l st st',
             (fix go (l : list (string * Value)) (st : list (string * Value))
                : result (list (string * Value)) :=
                match l with
                | [] => Ok st
                | (key, v0) :: l' =>
                    let* kv := Object_adaptValue (mkObject s m) key (Some v0) in
                    if negb (store_Contains (fst kv) st)
                    then go l' (store_Assoc (fst kv) (snd kv) st)
                    else go l' st
                end) l st = Ok st' ->
             (forall k, In k (keys st) -> In k (keys st'))
             /\ (forall k, In k (keys l) -> In (adaptKey m k) (keys st'))).
  { induction l as [|[key v0] l IHl]; intros st st' Hgo.
    - inversion Hgo; subst. split; [intros k Hk; exact Hk|intros k []].
    - apply bind_Ok in Hgo as (kv & Hkv & Hgo).
      cbn [Object_adaptValue o_module] in Hkv.
      apply bind_Ok in Hkv as (v' & _ & Hkv). inversion Hkv; subst kv; clear Hkv.
      cbn [fst snd] in Hgo.
      destruct (store_Contains (adaptKey m key) st) eqn:Hc; cbn [negb] in Hgo.
      + destruct (IHl _ _ Hgo) as [Ha Hb]. split; [exact Ha|].
        intros k [<-|Hk]; [|exact (Hb k Hk)].
        apply Ha. unfold store_Contains in Hc.
        destruct (in_dec string_dec (adaptKey m key) (keys st)) as [Hin|Hni];
          [exact Hin|].
        apply store_Find_None in Hni. rewrite Hni in Hc. discriminate Hc.
      + destruct (IHl _ _ Hgo) as [Ha Hb]. split.
        * intros k Hk. apply Ha. apply store_Assoc_keys_incl. exact Hk.
        * intros k [<-|Hk]; [|exact (Hb k Hk)].
          apply Ha. apply store_Assoc_keys_in. }
  destruct (L2 _ _ _ H2) as [Ha Hb]. split.
  - intros k Hk. apply Ha. exact (L1 _ _ _ H1 k Hk).
  - exact Hb.
Qed.

Lemma belongsTo_leaf (v : Value) (module : string) :
  is_leaf v = true -> belongsTo v module = Ok v.
Proof. destruct v; try reflexivity; discriminate. Qed.

Lemma Merge_leaf (fuel : nat) (v : Value) (new : option Value) :
  is_leaf v = true -> Merge (S fuel) v new = Ok new.
Proof. destruct v; try reflexivity; discriminate. Qed.

Lemma Merge_objects_returns (fuel : nat) (m m2 : string)
      (s s2 : list (string * Value)) :
  (forall v new, is_leaf v = true -> Merge fuel v new = Ok new) ->
  Forall (fun kv => is_leaf (snd kv) = true) s ->
  Forall (fun kv => is_leaf (snd kv) = true) s2 ->
  exists r, Merge (S fuel) (VObject m s) (Some (VObject m2 s2)) = Ok r.
Proof.
  intros HM Hs Hs2. cbn [Merge]. rewrite Perform_onObject.
  assert (L1 : forall l st,
             Forall (fun kv => is_leaf (snd kv) = true) l ->
             exists st',
               (fix go (l : list (string * Value)) (st : list (string * Value))
                  : result (list (string * Value)) :=
                  match l with
                  | [] => Ok st
                  | (key, v0) :: l' =>
                      let* kv := Object_adaptValue (mkObject s m) key (Some v0) in
                      if Object_Contains (mkObject s2 m2) (fst kv) then
                        let* m0 := Merge fuel (snd kv)
                                         (Object_At (mkObject s2 m2) (fst kv)) in
                        match m0 with
                        | Some m' => go l' (store_Assoc (fst kv) m' st)
                        | None => Panic nil_deref
                        end
                      else go l' st
                  end) l st = Ok st').
  { induction l as [|[key v0] l IHl]; intros st Hl; [exists st; reflexivity|].
    inversion Hl as [|? ? Hv Hl']; subst. cbn [snd] in Hv.
    cbn [Object_adaptValue o_module]. rewrite (belongsTo_leaf v0 _ Hv).
    cbn [bind fst snd]. unfold Object_Contains, Object_At, store_Contains.
    cbn [o_module o_store].
    destruct (store_Find (adaptKey m2 (adaptKey m key)) s2) as [w|].
    - rewrite (HM v0 (Some w) Hv). cbn [bind]. apply IHl. exact Hl'.
    - apply IHl. exact Hl'. }
  assert (L2 : forall l st,
             Forall (fun kv => is_leaf (snd kv) = true) l ->
             exists st',
               (fix go (l : list (string * Value)) (st : list (string * Value))
                  : result (list (string * Value)) :=
                  match l with
                  | [] => Ok st
                  | (key, v0) :: l' =>
                      let* kv := Object_adaptValue (mkObject s m) key (Some v0) in
                      if negb (store_Contains (fst kv) st)
                      then go l' (store_Assoc (fst kv) (snd kv) st)
                      else go l' st
                  end) l st = Ok st').
  { induction l as [|[key v0] l IHl]; intros st Hl; [exists st; reflexivity|].
    inversion Hl as [|? ? Hv Hl']; subst. cbn [snd] in Hv.
    cbn [Object_adaptValue o_module]. rewrite (belongsTo_leaf v0 _ Hv).
    cbn [bind fst snd].
    destruct (negb (store_Contains (adaptKey m key) st)); apply IHl; exact Hl'. }
  destruct (L1 s s Hs) as [store1 H1]. cbn [o_store].
  rewrite H1. cbn [bind].
  destruct (L2 s2 store1 Hs2) as [store2 H2]. rewrite H2.
  eexists. reflexivity.
Qed.

(** [obj.merge] is accretive: the object it returns has the module of
    the old object and holds every key of the old object and, adapted
    to the old object's module, every key of the new.  It returns when
    the members of both objects are leaves. *)
Theorem Merge_objects_accretive (fuel : nat) (m m2 : string)
        (s s2 : list (string * Value)) :
  (forall r,
      Merge (S fuel) (VObject m s) (Some (VObject m2 s2)) = Ok r ->
      exists s',
        r = Some (VObject m s')
        /\ (forall k, In k (keys s) -> In k (keys s'))
        /\ (forall k, In k (keys s2) -> In (adaptKey m k) (keys s')))
  /\ (Forall (fun kv => is_leaf (snd kv) = true) s ->
      Forall (fun kv => is_leaf (snd kv) = true) s2 ->
      exists r, Merge (S (S fuel)) (VObject m s) (Some (VObject m2 s2)) = Ok r).
Proof.
  split.
  - intros r. apply Merge_objects_keys.
  - apply Merge_objects_returns. intros v new. apply Merge_leaf.
Qed.

(** ** Equality (value.go, array.go, object.go) *)

Lemma distinct_keys_unique (l : list (string * Value)) :
  distinct_keys l = true -> NoDup (keys l).
Proof.
  unfold keys. induction l as [|[k v] l IH]; simpl; intros H; [constructor|].
  apply andb_true_iff in H as [Hk Hl].
  constructor; [|exact (IH Hl)].
  apply (proj1 (store_Find_None k l)). unfold store_Contains in Hk.
  destruct (store_Find k l); [discriminate Hk|reflexivity].
Qed.

Lemma store_Find_unique (k : string) (v : Value) (s : list (string * Value)) :
  NoDup (keys s) -> In (k, v) s -> store_Find k s = Some v.
Proof.
  unfold keys. induction s as [|[k' v'] s IH]; simpl; intros Hnd Hin; [destruct Hin|].
  inversion Hnd as [|? ? Hk Hs]; subst.
  destruct Hin as [E|Hin].
  - inversion E; subst. rewrite String.eqb_refl. reflexivity.
  - destruct (String.eqb_spec k' k) as [->|Hne].
    + exfalso. apply Hk. change k with (fst (k, v)). apply in_map. exact Hin.
    + exact (IH Hs Hin).
Qed.

Lemma depth_slot (m : string) (store : list (option Value)) (v : Value) (n : nat) :
  (depth (VArray m store) <= S n)%nat -> In (Some v) store -> (depth v <= n)%nat.
Proof.
  cbn [depth]. induction store as [|[x|] l IH]; intros Hd Hin.
  - destruct Hin.
  - destruct Hin as [E|Hin]; [inversion E; subst; lia|apply IH; [lia|exact Hin]].
  - destruct Hin as [E|Hin]; [discriminate E|apply IH; [lia|exact Hin]].
Qed.

Lemma comparable_array (m : string) (store : list (option Value)) (v : Value) :
  comparable (VArray m store) = true -> In (Some v) store -> comparable v = true.
Proof.
  cbn [comparable]. induction store as [|[x|] l IH]; intros H Hin.
  - destruct Hin.
  - apply andb_true_iff in H as [Hx Hl].
    destruct Hin as [E|Hin]; [inversion E; subst; exact Hx|exact (IH Hl Hin)].
  - destruct Hin as [E|Hin]; [discriminate E|exact (IH H Hin)].
Qed.

Lemma comparable_object (m : string) (store : list (string * Value)) :
  comparable (VObject m store) = true ->
  NoDup (keys store) /\ Forall (fun kv => comparable (snd kv) = true) store.
Proof.
  cbn [comparable]. intros H. apply andb_true_iff in H as [Hd H].
  split; [exact (distinct_keys_unique store Hd)|].
  clear Hd. induction store as [|[k v] l IH]; [constructor|].
  apply andb_true_iff in H as [Hv Hl]. constructor; [exact Hv|exact (IH Hl)].
Qed.

Lemma Value_Equal_refl_bounded (n : nat) :
  forall val, (depth val <= n)%nat -> comparable val = true -> Value_Equal val val = true.
Proof.
  induction n as [|n IH]; intros val Hd Hc.
  - destruct val; cbn [depth] in Hd; lia.
  - destruct val as [| |b|i|i|i|i|f|s|i|m store|m store]; cbn [Value_Equal].
    + reflexivity.
    + reflexivity.
    + apply Bool.eqb_reflx.
    + apply Z.eqb_refl.
    + apply Z.eqb_refl.
    + apply Z.eqb_refl.
    + apply Z.eqb_refl.
    + exact Hc.
    + apply String.eqb_refl.
    + apply String.eqb_refl.
    + destruct (comparable_object _ _ Hc) as [Hnd Hall].
      apply depth_object in Hd.
      rewrite String.eqb_refl, Nat.eqb_refl. cbn [andb].
      assert (G : forall l, incl l store ->
        (fix all (l : list (string * Value)) : bool :=
           match l with
           | [] => true
           | (k, v) :: l' =>
               match store_Find k store with
               | Some v' => Value_Equal v v'
               | None => false
               end && all l'
           end) l = true).
      { induction l as [|[k v] l IHl]; intros Hincl; [reflexivity|].
        assert (Hin : In (k, v) store) by (apply Hincl; left; reflexivity).
        rewrite (store_Find_unique k v store Hnd Hin).
        rewrite Forall_forall in Hd, Hall.
        specialize (Hd _ Hin). specialize (Hall _ Hin). cbn [fst snd] in *.
        rewrite (IH v Hd Hall). cbn [andb].
        apply IHl. intros x Hx. apply Hincl. right. exact Hx. }
      apply G. apply incl_refl.
    + rewrite String.eqb_refl, Nat.eqb_refl. cbn [andb].
      assert (G : forall l, incl l store ->
        (fix all (l1 l2 : list (option Value)) : bool :=
           match l1, l2 with
           | [], [] => true
           | Some x :: l1', Some y :: l2' => Value_Equal x y && all l1' l2'
           | None :: l1', None :: l2' => all l1' l2'
           | _, _ => false
           end) l l = true).
      { induction l as [|[v|] l IHl]; intros Hincl; [reflexivity| |].
        - assert (Hin : In (Some v) store) by (apply Hincl; left; reflexivity).
          rewrite (IH v (depth_slot _ _ _ _ Hd Hin) (comparable_array _ _ _ Hc Hin)).
          cbn [andb]. apply IHl. intros x Hx. apply Hincl. right. exact Hx.
        - apply IHl. intros x Hx. apply Hincl. right. exact Hx. }
      apply G. apply incl_refl.
Qed.

(** [Equal] is reflexive on every value that holds no [float64] which
    is not a number and no object with a key twice, and so is the
    equality of trees. *)
Theorem Value_Equal_reflexive (val : Value) :
  comparable val = true ->
  Value_Equal val val = true
  /\ equal (Some val) (Some val) = Ok true
  /\ Tree_Equal (mkTree (Some val)) (mkTree (Some val)) = Ok true.
Proof.
  intros Hc. pose proof (Value_Equal_refl_bounded (depth val) val (le_n _) Hc) as He.
  unfold Tree_Equal, Root. cbn [root equal]. rewrite He. repeat split.
Qed.

(** ** Diff and edit on objects of leaves (tree.go, object.go, value.go) *)

Lemma member_key_parts (k : string) :
  member_key k ->
  exists p i,
    k = p ++ ":" ++ i
    /\ Go.SplitN2 k ":" = [p; i]
    /\ node_of_key k = NodeID p i false None
    /\ (forall module, parseKey module k = (p, i) /\ adaptKey module k = k)
    /\ InstanceID_push (mkInstanceID []) k = Ok (mkInstanceID [NodeID p i false None]).
Proof.
  intros (p & i & -> & Hp & Hi & Hcp & Hci). exists p, i.
  pose proof (id_runes_no_colon p (checkIDPart_runes p Hcp)) as Hpc.
  assert (Hs : Go.SplitN2 (p ++ ":" ++ i) ":" = [p; i]).
  { change (p ++ ":" ++ i) with (p ++ String ":" i). apply SplitN2_append. exact Hpc. }
  split; [reflexivity|]. split; [exact Hs|].
  split; [unfold node_of_key; rewrite Hs; reflexivity|]. split.
  - intros module. unfold adaptKey, parseKey. rewrite Hs.
    destruct (String.eqb_spec p EmptyString) as [->|_]; [congruence|].
    split; reflexivity.
  - unfold InstanceID_push. cbn [ids rev bind].
    assert (Hpl : plain_node (NodeID p i false None)).
    { unfold plain_node. cbn. repeat split; assumption. }
    pose proof (nodeID_parse_printed (String.length (p ++ ":" ++ i)) EmptyString
                  (NodeID p i false None) Hpl Hcp Hci) as Hparse.
    rewrite (nodeID_String_plain _ Hpl) in Hparse.
    cbn [prefixInferred prefix identifier] in Hparse.
    rewrite Hparse; [reflexivity|].
    destruct (String.eqb_spec p EmptyString); [congruence|reflexivity].
Qed.

Lemma diff_leaf (v : Value) (new : option Value) (path : InstanceID) :
  is_leaf v = true ->
  diff v new path
  = (let* e := equal (Some v) new in
     if e then Ok [] else Ok [mkEditEntry EditAssoc path new]).
Proof. destruct v; try reflexivity; discriminate. Qed.

Lemma store_Contains_Find {V : Type} (k : string) (s : list (string * V)) :
  store_Contains k s = match store_Find k s with Some _ => true | None => false end.
Proof. reflexivity. Qed.

Lemma changes_of_cons (g : string -> Value -> option (option Value))
      (k : string) (v : Value) (l : list (string * Value)) :
  changes_of g ((k, v) :: l)
  = (match g k v with Some a => [(k, a)] | None => [] end ++ changes_of g l)%list.
Proof. reflexivity. Qed.

(** [Diff] between two flat stores lists [flat_changes]. *)
Lemma diff_flat (sa sb : list (string * Value)) :
  flat sa -> flat sb ->
  diff (VObject EmptyString sa) (Some (VObject EmptyString sb)) (mkInstanceID [])
  = Ok (map member_entry (flat_changes sa sb)).
Proof.
  intros [_ Ha] [_ Hb]. cbn [diff]. rewrite Perform_onObject.
  assert (L1 : forall l,
             Forall (fun kv => member_key (fst kv)
                               /\ is_leaf (snd kv) = true
                               /\ comparable (snd kv) = true) l ->
             (fix go (l : list (string * Value)) : result (list EditEntry) :=
                match l with
                | [] => Ok []
                | (k, v) :: l' =>
                    let* here :=
                      (if Object_Contains (mkObject sb EmptyString) k then
                         let* p := InstanceID_push (mkInstanceID []) k in
                         diff v (Object_At (mkObject sb EmptyString) k) p
                       else
                         let* p := InstanceID_push (mkInstanceID []) k in
                         Ok [mkEditEntry EditDelete p None]) in
                    let* rest := go l' in
                    Ok (here ++ rest)%list
                end) l
             = Ok (map member_entry (changes_of (old_change sb) l))).
  { induction 1 as [|[k v] l (Hk & Hv & _) Hl IH]; [reflexivity|].
    cbn [fst snd] in *.
    destruct (member_key_parts k Hk) as (p & i & _ & _ & Hnode & Hkey & Hpush).
    rewrite IH. unfold Object_Contains, Object_At, store_Contains.
    cbn [o_store o_module]. rewrite (proj2 (Hkey EmptyString)), Hpush.
    cbn [bind]. rewrite (diff_leaf v _ _ Hv).
    rewrite changes_of_cons. unfold old_change.
    destruct (store_Find k sb) as [v2|]; cbn [bind equal].
    - destruct (Value_Equal v v2); cbn [bind app map]; [reflexivity|].
      rewrite <- Hnode. reflexivity.
    - rewrite <- Hnode. reflexivity. }
  assert (L2 : forall l,
             Forall (fun kv => member_key (fst kv)
                               /\ is_leaf (snd kv) = true
                               /\ comparable (snd kv) = true) l ->
             (fix go (l : list (string * Value)) : result (list EditEntry) :=
                match l with
                | [] => Ok []
                | (k, v) :: l' =>
                    let* here :=
                      (if Object_Contains (mkObject sa EmptyString) k then Ok []
                       else
                         let* p := InstanceID_push (mkInstanceID []) k in
                         Ok [mkEditEntry EditAssoc p (Some v)]) in
                    let* rest := go l' in
                    Ok (here ++ rest)%list
                end) l
             = Ok (map member_entry (changes_of (new_change sa) l))).
  { induction 1 as [|[k v] l (Hk & Hv & _) Hl IH]; [reflexivity|].
    cbn [fst snd] in *.
    destruct (member_key_parts k Hk) as (p & i & _ & _ & Hnode & Hkey & Hpush).
    rewrite IH. unfold Object_Contains. cbn [o_store o_module].
    rewrite (proj2 (Hkey EmptyString)), Hpush.
    rewrite changes_of_cons. unfold new_change.
    destruct (store_Contains k sa); cbn [bind app map]; [reflexivity|].
    rewrite <- Hnode. reflexivity. }
  cbn [o_store]. rewrite (L1 sa Ha). cbn [bind]. rewrite (L2 sb Hb). cbn [bind].
  unfold flat_changes. rewrite map_app. reflexivity.
Qed.

Lemma store_Delete_absent {V : Type} (k : string) (s : list (string * V)) :
  store_Find k s = None -> store_Delete k s = s.
Proof.
  induction s as [|[k' v'] s IH]; simpl; [reflexivity|].
  destruct (String.eqb_spec k' k); [discriminate|].
  intros H. rewrite (IH H). reflexivity.
Qed.

Lemma known_member_entry (ka : string * option Value) :
  known_action (member_entry ka) = true.
Proof. destruct ka as [k [v|]]; reflexivity. Qed.

(** An entry for a member of a root of module [""] does to the tree
    what [apply_changes] does to its store. *)
Lemma eval_member_entry (s : list (string * Value)) (k : string) (a : option Value) :
  member_key k ->
  (forall v, a = Some v -> is_leaf v = true) ->
  EditEntry_eval (member_entry (k, a)) (mkTree (Some (VObject EmptyString s)))
  = Ok (mkTree (Some (VObject EmptyString (apply_changes [(k, a)] s)))).
Proof.
  intros Hk Hv.
  destruct (member_key_parts k Hk) as (p & i & Hpi & _ & Hnode & Hkey & _).
  destruct (Hkey EmptyString) as [Hparse Hadapt].
  unfold EditEntry_eval, member_entry. cbn [fst snd Action Path EValue].
  rewrite Hnode. destruct a as [v|].
  - change (String.eqb EditAssoc EditAssoc) with true. cbn iota.
    rewrite (Tree_assoc_member EmptyString s p i false v v).
    + rewrite <- Hpi, Hadapt. reflexivity.
    + apply belongsTo_leaf. exact (Hv v eq_refl).
  - change (String.eqb EditDelete EditAssoc) with false.
    change (String.eqb EditDelete EditDelete) with true. cbn iota.
    rewrite Tree_delete_member. rewrite <- Hpi.
    unfold Object_Contains, store_Contains. cbn [o_store o_module apply_changes].
    rewrite Hadapt. destruct (store_Find k s) eqn:Hf; [reflexivity|].
    rewrite (store_Delete_absent k s Hf). reflexivity.
Qed.

Lemma Edit_member_entries (acts : list (string * option Value)) :
  forall s,
    Forall (fun ka => member_key (fst ka)
                      /\ forall v, snd ka = Some v -> is_leaf v = true) acts ->
    Tree_Edit (mkTree (Some (VObject EmptyString s)))
              (mkEditOperation (map member_entry acts))
    = Ok (mkTree (Some (VObject EmptyString (apply_changes acts s)))).
Proof.
  intros s H. unfold Tree_Edit. cbn [Actions].
  rewrite filter_unknown_nil.
  - revert s. induction H as [|[k a] acts [Hk Hv] Hacts IH]; intros s; [reflexivity|].
    cbn [map fold_left bind fst snd] in *.
    rewrite (eval_member_entry s k a Hk Hv).
    cbn [apply_changes]. destruct a as [v|]; apply IH.
  - clear H. induction acts as [|ka acts IH]; [reflexivity|].
    cbn [map forallb]. rewrite known_member_entry, IH. reflexivity.
Qed.

(** *** Changes and lookups *)

Lemma store_Find_app {V : Type} (k : string) (l1 l2 : list (string * V)) :
  store_Find k (l1 ++ l2)
  = match store_Find k l1 with
    | Some v => Some v
    | None => store_Find k l2
    end.
Proof.
  induction l1 as [|[k' v'] l1 IH]; simpl; [reflexivity|].
  destruct (String.eqb k' k); [reflexivity|exact IH].
Qed.

Lemma store_Find_In {V : Type} (k : string) (v : V) (s : list (string * V)) :
  store_Find k s = Some v -> In (k, v) s.
Proof.
  induction s as [|[k' v'] s IH]; simpl; [discriminate|].
  destruct (String.eqb_spec k' k) as [->|Hne].
  - intros H. inversion H. left. reflexivity.
  - intros H. right. exact (IH H).
Qed.

Lemma store_Find_changes_of (g : string -> Value -> option (option Value))
      (k : string) (l : list (string * Value)) :
  NoDup (keys l) ->
  store_Find k (changes_of g l)
  = match store_Find k l with
    | Some v => g k v
    | None => None
    end.
Proof.
  unfold keys. induction l as [|[k' v'] l IH]; intros Hnd; [reflexivity|].
  inversion Hnd as [|? ? Hk' Hl]; subst.
  rewrite changes_of_cons, store_Find_app, (IH Hl). cbn [store_Find].
  destruct (String.eqb_spec k' k) as [->|Hne].
  - apply (proj2 (store_Find_None k l)) in Hk'. rewrite Hk'.
    destruct (g k v'); cbn [store_Find]; [rewrite String.eqb_refl|]; reflexivity.
  - destruct (g k' v'); cbn [store_Find]; [|reflexivity].
    destruct (String.eqb_spec k' k); [congruence|reflexivity].
Qed.

Lemma keys_changes_of (g : string -> Value -> option (option Value))
      (l : list (string * Value)) :
  (forall k, In k (keys (changes_of g l)) -> In k (keys l))
  /\ (NoDup (keys l) -> NoDup (keys (changes_of g l))).
Proof.
  unfold keys. induction l as [|[k' v'] l [IH1 IH2]].
  - split; [intros k []|intros _; constructor].
  - rewrite changes_of_cons. split.
    + intros k Hk. rewrite map_app in Hk. apply in_app_or in Hk as [Hk|Hk].
      * destruct (g k' v'); [|destruct Hk].
        destruct Hk as [<-|[]]. left. reflexivity.
      * right. exact (IH1 k Hk).
    + intros Hnd. inversion Hnd as [|? ? Hk' Hl]; subst.
      destruct (g k' v'); cbn [app map fst]; [|exact (IH2 Hl)].
      constructor; [|exact (IH2 Hl)].
      intros Hin. apply Hk'. exact (IH1 k' Hin).
Qed.

Lemma flat_changes_NoDup (sa sb : list (string * Value)) :
  NoDup (keys sa) -> NoDup (keys sb) -> NoDup (keys (flat_changes sa sb)).
Proof.
  intros Ha Hb. unfold flat_changes, keys. rewrite map_app.
  apply NoDup_app.
  - exact (proj2 (keys_changes_of (old_change sb) sa) Ha).
  - exact (proj2 (keys_changes_of (new_change sa) sb) Hb).
  - intros k H1 H2.
    apply (proj1 (keys_changes_of (old_change sb) sa)) in H1.
    assert (Hf : store_Find k (changes_of (new_change sa) sb) <> None).
    { intros Hn. apply (proj1 (store_Find_None k _)) in Hn. exact (Hn H2). }
    rewrite (store_Find_changes_of _ k sb Hb) in Hf.
    destruct (store_Find k sb) as [v2|]; [|congruence].
    unfold new_change, store_Contains in Hf.
    destruct (store_Find k sa) eqn:Hsa; [congruence|].
    apply (proj1 (store_Find_None k sa)) in Hsa. exact (Hsa H1).
Qed.

Lemma apply_changes_Find (acts : list (string * option Value)) :
  forall s,
    NoDup (keys acts) -> NoDup (keys s) ->
    NoDup (keys (apply_changes acts s))
    /\ forall k,
         store_Find k (apply_changes acts s)
         = match store_Find k acts with
           | Some (Some v) => Some v
           | Some None => None
           | None => store_Find k s
           end.
Proof.
  unfold keys at 1. induction acts as [|[k0 a] acts IH]; intros s Hna Hns.
  - split; [exact Hns|reflexivity].
  - inversion Hna as [|? ? Hk0 Hacts]; subst.
    apply (proj2 (store_Find_None k0 acts)) in Hk0.
    destruct a as [v|]; cbn [apply_changes store_Find].
    + destruct (IH (store_Assoc k0 v s) Hacts (store_Assoc_NoDup k0 v s Hns))
        as [Hn Hf].
      split; [exact Hn|]. intros k. rewrite Hf.
      destruct (String.eqb_spec k0 k) as [->|Hne].
      * rewrite Hk0. apply store_Find_Assoc_same.
      * destruct (store_Find k acts) as [[v'|]|]; try reflexivity.
        apply store_Find_Assoc_other. congruence.
    + destruct (store_Delete_NoDup k0 s Hns) as [Hnd Hni].
      destruct (IH (store_Delete k0 s) Hacts Hnd) as [Hn Hf].
      split; [exact Hn|]. intros k. rewrite Hf.
      destruct (String.eqb_spec k0 k) as [->|Hne].
      * rewrite Hk0. apply store_Find_None. exact Hni.
      * destruct (store_Find k acts) as [[v'|]|]; try reflexivity.
        apply store_Find_Delete_other. congruence.
Qed.

Lemma In_changes_of (g : string -> Value -> option (option Value))
      (k : string) (a : option Value) (l : list (string * Value)) :
  In (k, a) (changes_of g l) -> exists v, In (k, v) l /\ g k v = Some a.
Proof.
  induction l as [|[k' v'] l IH]; [intros []|].
  rewrite changes_of_cons. intros H. apply in_app_or in H as [H|H].
  - destruct (g k' v') as [a'|] eqn:Hg; [|destruct H].
    destruct H as [E|[]]. inversion E; subst.
    exists v'. split; [left; reflexivity|exact Hg].
  - destruct (IH H) as (v & Hin & Hg). exists v. split; [right; exact Hin|exact Hg].
Qed.

Lemma flat_changes_members (sa sb : list (string * Value)) :
  flat sa -> flat sb ->
  Forall (fun ka => member_key (fst ka)
                    /\ forall v, snd ka = Some v -> is_leaf v = true)
         (flat_changes sa sb).
Proof.
  intros [_ Ha] [_ Hb]. rewrite Forall_forall in Ha, Hb.
  apply Forall_forall. intros [k a] Hin. cbn [fst snd].
  unfold flat_changes in Hin. apply in_app_or in Hin as [Hin|Hin];
    apply In_changes_of in Hin as (v & Hv & Hg).
  - split; [exact (proj1 (Ha _ Hv))|].
    intros v2 ->. unfold old_change in Hg.
    destruct (store_Find k sb) as [w|] eqn:Hf; [|discriminate Hg].
    destruct (Value_Equal v w); [discriminate Hg|]. inversion Hg; subst.
    apply store_Find_In in Hf. exact (proj1 (proj2 (Hb _ Hf))).
  - split; [exact (proj1 (Hb _ Hv))|].
    intros v2 ->. unfold new_change in Hg.
    destruct (store_Contains k sa); [discriminate Hg|]. inversion Hg; subst.
    exact (proj1 (proj2 (Hb _ Hv))).
Qed.

(** Key by key, the old store after the changes holds what the new
    store holds. *)
Lemma flat_changes_applied (sa sb : list (string * Value)) (k : string) :
  flat sa -> flat sb ->
  match store_Find k (apply_changes (flat_changes sa sb) sa), store_Find k sb with
  | Some v, Some v2 => Value_Equal v v2 = true
  | None, None => True
  | _, _ => False
  end.
Proof.
  intros [Hna Ha] [Hnb Hb].
  destruct (apply_changes_Find (flat_changes sa sb) sa
              (flat_changes_NoDup sa sb Hna Hnb) Hna) as [_ Hf].
  rewrite Hf. unfold flat_changes. rewrite store_Find_app.
  rewrite (store_Find_changes_of _ k sa Hna), (store_Find_changes_of _ k sb Hnb).
  assert (Hrefl : forall v2, store_Find k sb = Some v2 -> Value_Equal v2 v2 = true).
  { intros v2 H2. apply store_Find_In in H2. rewrite Forall_forall in Hb.
    apply (Value_Equal_refl_bounded (depth v2) v2 (le_n _)).
    exact (proj2 (proj2 (Hb _ H2))). }
  unfold old_change, new_change, store_Contains.
  destruct (store_Find k sa) as [v|] eqn:Hsa;
    destruct (store_Find k sb) as [v2|] eqn:Hsb.
  - destruct (Value_Equal v v2) eqn:He.
    + exact He.
    + exact (Hrefl v2 eq_refl).
  - exact I.
  - exact (Hrefl v2 eq_refl).
  - exact I.
Qed.

Lemma keys_length {V : Type} (s : list (string * V)) :
  List.length (keys s) = List.length s.
Proof. unfold keys. apply length_map. Qed.

Lemma Edit_of_Diff_flat_stores (sa sb : list (string * Value)) :
  flat sa -> flat sb ->
  Value_Equal (VObject EmptyString (apply_changes (flat_changes sa sb) sa))
              (VObject EmptyString sb) = true.
Proof.
  intros Fa Fb. pose proof (fun k => flat_changes_applied sa sb k Fa Fb) as R.
  destruct Fa as [Hna Ha]. destruct Fb as [Hnb Hb].
  destruct (apply_changes_Find (flat_changes sa sb) sa
              (flat_changes_NoDup sa sb Hna Hnb) Hna) as [Hnf _].
  set (F := apply_changes (flat_changes sa sb) sa) in *.
  cbn [Value_Equal]. change (String.eqb EmptyString EmptyString) with true.
  assert (Hlen : List.length sb = List.length F).
  { rewrite <- (keys_length sb), <- (keys_length F). apply Nat.le_antisymm.
    - apply NoDup_incl_length; [exact Hnb|]. intros k Hk.
      destruct (store_Find k F) eqn:HF.
      + apply store_Find_In in HF. change k with (fst (k, v)).
        unfold keys. apply in_map. exact HF.
      + specialize (R k). rewrite HF in R.
        destruct (store_Find k sb) eqn:HB; [destruct R|].
        apply (proj1 (store_Find_None k sb)) in HB. destruct (HB Hk).
    - apply NoDup_incl_length; [exact Hnf|]. intros k Hk.
      destruct (store_Find k sb) eqn:HB.
      + apply store_Find_In in HB. change k with (fst (k, v)).
        unfold keys. apply in_map. exact HB.
      + specialize (R k). rewrite HB in R.
        destruct (store_Find k F) eqn:HF; [destruct R|].
        apply (proj1 (store_Find_None k F)) in HF. destruct (HF Hk). }
  rewrite Hlen, Nat.eqb_refl. cbn [andb].
  assert (G : forall l, incl l F ->
    (fix all (l : list (string * Value)) : bool :=
       match l with
       | [] => true
       | (k, v) :: l' =>
           match store_Find k sb with
           | Some v' => Value_Equal v v'
           | None => false
           end && all l'
       end) l = true).
  { induction l as [|[k v] l IHl]; intros Hincl; [reflexivity|].
    assert (Hin : In (k, v) F) by (apply Hincl; left; reflexivity).
    pose proof (store_Find_unique k v F Hnf Hin) as HF.
    specialize (R k). rewrite HF in R.
    destruct (store_Find k sb) as [v2|]; [|destruct R].
    rewrite R. cbn [andb]. apply IHl. intros x Hx. apply Hincl. right. exact Hx. }
  apply G. apply incl_refl.
Qed.

(** Between two trees whose roots are objects of leaves, with member
    keys of the form [prefix:identifier], the edit that [Diff] computes
    turns the first tree into one that [Equal] finds equal to the
    second. *)
Theorem Edit_of_Diff_flat (sa sb : list (string * Value)) :
  flat sa -> flat sb ->
  exists d t',
    Tree_Diff (mkTree (Some (VObject EmptyString sa)))
              (mkTree (Some (VObject EmptyString sb))) = Ok d
    /\ Tree_Edit (mkTree (Some (VObject EmptyString sa))) d = Ok t'
    /\ Tree_Equal t' (mkTree (Some (VObject EmptyString sb))) = Ok true.
Proof.
  intros Fa Fb.
  exists (mkEditOperation (map member_entry (flat_changes sa sb))),
         (mkTree (Some (VObject EmptyString (apply_changes (flat_changes sa sb) sa)))).
  split; [|split].
  - unfold Tree_Diff, Root. cbn [root]. rewrite (diff_flat sa sb Fa Fb). reflexivity.
  - apply Edit_member_entries. exact (flat_changes_members sa sb Fa Fb).
  - unfold Tree_Equal, Root. cbn [root equal].
    rewrite (Edit_of_Diff_flat_stores sa sb Fa Fb). reflexivity.
Qed.

End Data.

(** * Instances *)

Example tree_string_1_from_pairs :
  (let* p := PairNew "m:a" (hString "1") in
   let* o := ObjectWith [p] in TreeFromObject o) = Ok tree_string_1.
Proof. vm_compute. reflexivity. Qed.


(** An array that holds a single null is written like the empty leaf
    and read back as the empty leaf. *)
Example single_null_array_reads_as_empty :
  Tree_MarshalRFC7951 FormatFloat_unused
    (mkTree (Some (VObject EmptyString [("m:l", VArray "m" [Some VNull])])))
  = Ok ("{" ++ quoted "m:l" ++ ":[null]}")
  /\ Tree_UnmarshalRFC7951 ParseFloat_unused Codec.rawElements Codec.rawMembers
       (mkTree None) ("{" ++ quoted "m:l" ++ ":[null]}")
     = Ok (mkTree (Some (VObject EmptyString [("m:l", VEmpty)])), None).
Proof. split; vm_compute; reflexivity. Qed.


Lemma unmarshal_quoted_dot_keeps_string_witness :
  Go.ContainsRune "2.5" "." = true
  /\ unmarshal_quoted (fun _ => Some 2.5%float) "2.5" = VString "2.5".
Proof.
  split; [reflexivity|].
  apply (unmarshal_quoted_dot_keeps_string (fun _ => Some 2.5%float) "2.5").
  reflexivity.
Defined.

Lemma Array_Assoc_pads_with_nil_interface_witness :
  exists arr',
    Array_Assoc ArrayNew 2 (hString "x") = Ok arr'
    /\ a_store arr' = [None; None; Some (VString "x")]
    /\ Array_At arr' 1 = Panic nil_conversion.
Proof.
  destruct (Array_Assoc_pads_with_nil_interface ArrayNew 2 (hString "x") (VString "x"))
    as (arr' & Ha & Hs & Hl & Hp).
  - unfold Array_Length. simpl. lia.
  - reflexivity.
  - exists arr'. split; [exact Ha|]. split; [exact Hs|].
    apply (Hp 1). unfold Array_Length. simpl. lia.
Defined.



(** ** Instances of the further properties *)

Lemma Object_Assoc_then_At_witness :
  exists v,
    Object_At (mkObject [("m:a", VString "x"); ("m:b", VString "y")] "m") "b" = Some v
    /\ Object_Contains (mkObject [("m:a", VString "x"); ("m:b", VString "y")] "m") "b"
       = true.
Proof.
  destruct (Object_Assoc_then_At
              (mkObject [("m:a", VString "x")] "m")
              (mkObject [("m:a", VString "x"); ("m:b", VString "y")] "m")
              "b" (hString "y"))
    as (v & _ & Hat & Hc & _).
  - vm_compute. reflexivity.
  - exists v. split; [exact Hat|exact Hc].
Defined.

Lemma Object_Assoc_frame_witness :
  Object_At (mkObject [("m:a", VString "x"); ("m:b", VString "y")] "m") "a"
  = Object_At (mkObject [("m:a", VString "x")] "m") "a"
  /\ Object_Length (mkObject [("m:a", VString "x"); ("m:b", VString "y")] "m")
     = Object_Length (mkObject [("m:a", VString "x")] "m") + 1.
Proof.
  destruct (Object_Assoc_frame
              (mkObject [("m:a", VString "x")] "m")
              (mkObject [("m:a", VString "x"); ("m:b", VString "y")] "m")
              "b" (hString "y"))
    as (Hother & Hlen & _).
  - vm_compute. reflexivity.
  - split.
    + apply (Hother "a"). vm_compute. discriminate.
    + exact Hlen.
Defined.

Lemma Object_Delete_spec_witness :
  Object_Contains
    (Object_Delete (mkObject [("m:a", VString "x"); ("m:b", VString "y")] "m") "a") "a"
  = false
  /\ Object_At
       (Object_Delete (mkObject [("m:a", VString "x"); ("m:b", VString "y")] "m") "a") "b"
     = Object_At (mkObject [("m:a", VString "x"); ("m:b", VString "y")] "m") "b".
Proof.
  destruct (Object_Delete_spec
              (mkObject [("m:a", VString "x"); ("m:b", VString "y")] "m") "a")
    as (Hc & _ & Hother & _).
  - cbn [o_store keys map fst].
    constructor; [intros [H|[]]; discriminate H|].
    constructor; [intros []|constructor].
  - split; [exact Hc|]. apply (Hother "b"). vm_compute. discriminate.
Defined.

Lemma Object_key_alias_witness :
  Object_At (mkObject [("m:a", VString "x")] "m") "m:a"
  = Object_At (mkObject [("m:a", VString "x")] "m") "a"
  /\ Object_Delete (mkObject [("m:a", VString "x")] "m") "m:a"
     = Object_Delete (mkObject [("m:a", VString "x")] "m") "a".
Proof.
  destruct (Object_key_alias (mkObject [("m:a", VString "x")] "m") "a")
    as (Hat & _ & _ & Hd & _).
  - reflexivity.
  - reflexivity.
  - split; [exact Hat|exact Hd].
Defined.

Lemma Array_Append_spec_witness :
  exists v,
    a_store (mkArray [Some (VString "x"); Some VNull] "m")
    = ([Some (VString "x")] ++ [Some v])%list
    /\ (hNil = hNil -> v = VNull).
Proof.
  destruct (Array_Append_spec
              (mkArray [Some (VString "x")] "m")
              (mkArray [Some (VString "x"); Some VNull] "m") hNil)
    as (v & _ & Hs & _ & _ & _ & Hn).
  - vm_compute. reflexivity.
  - exists v. split; [exact Hs|exact Hn].
Defined.

Lemma Array_Delete_spec_witness :
  Array_Length (Array_Delete (mkArray [Some (VString "x"); Some (VBool true)] "m") 0)
  = Array_Length (mkArray [Some (VString "x"); Some (VBool true)] "m") - 1
  /\ Array_At (Array_Delete (mkArray [Some (VString "x"); Some (VBool true)] "m") 0) 0
     = Array_At (mkArray [Some (VString "x"); Some (VBool true)] "m") (0 + 1).
Proof.
  destruct (Array_Delete_spec (mkArray [Some (VString "x"); Some (VBool true)] "m") 0)
    as (Hl & _ & Hup).
  - reflexivity.
  - split; [exact Hl|]. apply (Hup 0). lia.
Defined.

Lemma Array_Assoc_in_range_witness :
  exists v,
    Array_Length (mkArray [Some (VString "x"); Some (VUint32 4)] "m")
    = Array_Length (mkArray [Some (VString "x"); Some (VBool true)] "m")
    /\ Array_At (mkArray [Some (VString "x"); Some (VUint32 4)] "m") 1 = Ok (Some v).
Proof.
  destruct (Array_Assoc_in_range
              (mkArray [Some (VString "x"); Some (VBool true)] "m")
              (mkArray [Some (VString "x"); Some (VUint32 4)] "m") 1 (hUint8 4))
    as (v & _ & Hl & Hat & _).
  - unfold Array_Length. simpl. lia.
  - vm_compute. reflexivity.
  - exists v. split; [exact Hl|exact Hat].
Defined.

Lemma IsInteger_then_AsInteger_witness :
  exists n,
    integer_of (VUint64 7) = Some n
    /\ AsInt64 (fun _ _ => 0) (VUint64 7) = Ok n
    /\ ToInt64 (fun _ _ => 0) (VUint64 7) [] = Ok n.
Proof.
  apply (IsInteger_then_AsInteger (fun _ _ => 0) tInt64 (VUint64 7) []).
  - reflexivity.
  - simpl. lia.
  - reflexivity.
Defined.

Lemma Tree_Edit_unknown_action_witness :
  Tree_Edit FormatFloat_unused tree_1
    (mkEditOperation
       ([mkEditEntry EditDelete (path_l 0) None]
          ++ mkEditEntry "replace" (path_l 0) None :: [])%list)
  = Panic ("unknown edit-action " ++ "replace").
Proof.
  apply (Tree_Edit_unknown_action FormatFloat_unused tree_1
           [mkEditEntry EditDelete (path_l 0) None] []
           (mkEditEntry "replace" (path_l 0) None)).
  - reflexivity.
  - reflexivity.
Defined.


Lemma Tree_assoc_then_at_witness :
  exists t',
    Tree_assoc FormatFloat_unused tree_string_1
      (mkInstanceID [NodeID "m" "b" false None]) (Some (VBool true)) = Ok t'
    /\ root t' = Some (VObject EmptyString [("m:a", VString "1"); ("m:b", VBool true)])
    /\ Tree_at FormatFloat_unused t' (mkInstanceID [NodeID "m" "b" false None])
       = Ok (Some (VBool true)).
Proof.
  destruct (Tree_assoc_then_at FormatFloat_unused tree_string_1 EmptyString
              [("m:a", VString "1")] "m" "b" false (VBool true) (VBool true))
    as (t' & Ha & Hr & Hat & _).
  - reflexivity.
  - reflexivity.
  - exists t'. split; [exact Ha|]. split; [exact Hr|exact Hat].
Defined.

Lemma Tree_delete_then_find_witness :
  Tree_delete FormatFloat_unused tree_string_1 (mkInstanceID [NodeID "m" "a" false None])
  = Ok (mkTree (Some (VObject EmptyString [])))
  /\ Tree_find FormatFloat_unused (mkTree (Some (VObject EmptyString [])))
       (mkInstanceID [NodeID "m" "a" false None])
     = Ok (None, false).
Proof.
  apply (Tree_delete_then_find FormatFloat_unused tree_string_1 EmptyString
           [("m:a", VString "1")] "m" "a" false).
  - reflexivity.
  - cbn [keys map fst]. constructor; [intros []|constructor].
Defined.

Lemma unmarshalRFC7951_unquoted_number_witness :
  unmarshalRFC7951 ParseFloat_unused Codec.rawElements Codec.rawMembers
    1 VNull (Go.FormatUint 1500) "m"
  = Ok (VUint32 1500, None)
  /\ unmarshalRFC7951 ParseFloat_unused Codec.rawElements Codec.rawMembers
       1 VNull (Go.FormatInt (- 1500)) "m"
     = Ok (VInt32 (- 1500), None).
Proof.
  assert (H : 0 <= 1500) by lia.
  destruct (unmarshalRFC7951_unquoted_number ParseFloat_unused Codec.rawElements
              Codec.rawMembers 0 VNull "m" 1500 H)
    as (Hu & _ & Hi & _).
  split; [apply Hu|apply Hi]; lia.
Defined.

Lemma decimal_string_read_as_uint64_witness :
  marshalRFC7951 FormatFloat_unused (VString (Go.FormatUint 42)) "m"
  = Ok (quoted (Go.FormatUint 42))
  /\ unmarshalRFC7951 ParseFloat_unused Codec.rawElements Codec.rawMembers
       1 VNull (quoted (Go.FormatUint 42)) "m"
     = Ok (VUint64 42, None).
Proof.
  assert (H : 0 <= 42) by lia.
  destruct (decimal_string_read_as_uint64 FormatFloat_unused ParseFloat_unused
              Codec.rawElements Codec.rawMembers 0 VNull "m" 42 H)
    as (Hm & _ & Hu & _).
  split; [exact Hm|exact Hu].
Defined.

Lemma InstanceIDNew_well_formed_witness :
  (exists rest, "/m:a/b[k='v']/n:c" = String "/" rest)
  /\ well_named EmptyString
       [NodeID "m" "a" false None;
        NodeID "m" "b" true (Some [exprPredicate (NodeID "m" "k" true None) "v"]);
        NodeID "n" "c" false None].
Proof.
  destruct (InstanceIDNew_well_formed "/m:a/b[k='v']/n:c"
              (mkInstanceID
                 [NodeID "m" "a" false None;
                  NodeID "m" "b" true (Some [exprPredicate (NodeID "m" "k" true None) "v"]);
                  NodeID "n" "c" false None]))
    as (Hs & _ & Hw).
  - vm_compute. reflexivity.
  - split; [exact Hs|exact Hw].
Defined.

Lemma InstanceID_String_roundtrip_plain_witness :
  InstanceID_String
    (mkInstanceID [NodeID "m" "a" false None; NodeID "m" "b" true None;
                   NodeID "n" "c" false None])
  = "/m:a/b/n:c"
  /\ InstanceIDNew
       (InstanceID_String
          (mkInstanceID [NodeID "m" "a" false None; NodeID "m" "b" true None;
                         NodeID "n" "c" false None]))
     = Ok (mkInstanceID [NodeID "m" "a" false None; NodeID "m" "b" true None;
                         NodeID "n" "c" false None]).
Proof.
  split; [vm_compute; reflexivity|].
  apply (InstanceID_String_roundtrip_plain "/m:a/m:b/n:c").
  - vm_compute. reflexivity.
  - cbn [ids].
    repeat (constructor;
            [unfold plain_node; cbn [predicates prefix identifier];
             split; [reflexivity|split; discriminate]|]).
    constructor.
Defined.

Lemma Value_Equal_reflexive_witness :
  Value_Equal stable_root stable_root = true
  /\ equal (Some stable_root) (Some stable_root) = Ok true
  /\ Tree_Equal (mkTree (Some stable_root)) (mkTree (Some stable_root)) = Ok true.
Proof.
  apply (Value_Equal_reflexive stable_root). vm_compute. reflexivity.
Defined.

Lemma Edit_of_Diff_flat_witness :
  exists d t',
    Tree_Diff FormatFloat_unused
      (mkTree (Some (VObject EmptyString [("m:a", VString "x"); ("m:b", VUint32 1)])))
      (mkTree (Some (VObject EmptyString [("m:b", VUint32 2); ("n:c", VEmpty)]))) = Ok d
    /\ Tree_Edit FormatFloat_unused
         (mkTree (Some (VObject EmptyString [("m:a", VString "x"); ("m:b", VUint32 1)])))
         d = Ok t'
    /\ Tree_Equal t'
         (mkTree (Some (VObject EmptyString [("m:b", VUint32 2); ("n:c", VEmpty)])))
       = Ok true.
Proof.
  assert (Ka : member_key "m:a").
  { exists "m", "a". repeat split; try reflexivity; discriminate. }
  assert (Kb : member_key "m:b").
  { exists "m", "b". repeat split; try reflexivity; discriminate. }
  assert (Kc : member_key "n:c").
  { exists "n", "c". repeat split; try reflexivity; discriminate. }
  apply (Edit_of_Diff_flat FormatFloat_unused
           [("m:a", VString "x"); ("m:b", VUint32 1)]
           [("m:b", VUint32 2); ("n:c", VEmpty)]).
  - split.
    + cbn [keys map fst].
      constructor; [intros [H|[]]; discriminate H|].
      constructor; [intros []|constructor].
    + constructor; [split; [exact Ka|split; reflexivity]|].
      constructor; [split; [exact Kb|split; reflexivity]|constructor].
  - split.
    + cbn [keys map fst].
      constructor; [intros [H|[]]; discriminate H|].
      constructor; [intros []|constructor].
    + constructor; [split; [exact Kb|split; reflexivity]|].
      constructor; [split; [exact Kc|split; reflexivity]|constructor].
Defined.
